(** * DemoGPTs: provider adapters, stream decoders, validator and rate limiter

    A shallow embedding of the JavaScript sources of the API layer
    (apps/api/providers, apps/api/middlewares, apps/api/chat.js) and the
    properties of the specification checked against it.

    Conventions.
    - A JavaScript string is its sequence of UTF-16 code units, [list N].
    - A [Uint8Array] chunk is a [list byte].
    - [Date.now()] and the outcome of [Math.random() < 0.1] are explicit
      arguments of the functions that read them.
    - An async generator is run to completion by a consumer that takes
      every event: the events it yields, in order, and the way it
      completes. A stream delivers its chunks and then reports [done].
    - [TextDecoder] and [JSON.parse] follow the Encoding Standard and
      ECMA-404; the resource limits of an engine (recursion depth, array
      sizes) are not part of the model. *)

From Stdlib Require Import ZArith NArith List Ascii String Lia Bool.
From Stdlib Require Import Strings.Byte DecimalString.
From stdpp Require Import base list gmap strings.

Local Open Scope N_scope.

(** ** JavaScript strings *)

Module JS.

(** A string literal of the source, as code units. *)
Definition lit (s : string) : list N :=
  (λ a, N_of_ascii a) <$> list_ascii_of_string s.

(** A literal in which the apostrophe stands for the double quote (code
    unit 34); used to write JSON text. *)
Definition qlit (s : string) : list N :=
  (λ c, if c =? 39 then 34 else c) <$> lit s.

(** The bytes of an ASCII literal, apostrophe standing for double quote. *)
Definition qbytes (s : string) : list Byte.byte :=
  (λ a, if (N_of_ascii a =? 39)%N then byte_of_ascii (ascii_of_N 34) else byte_of_ascii a)
    <$> list_ascii_of_string s.

Definition str_eqb (a b : list N) : bool := bool_decide (a = b).

(** [String.prototype.startsWith] *)
Fixpoint startsWith (s p : list N) {struct p} : bool :=
  match p, s with
  | [], _ => true
  | _ :: _, [] => false
  | c :: p', d :: s' => (c =? d) && startsWith s' p'
  end.

(** [String.prototype.slice(n)] for [0 <= n] *)
Definition slice (n : nat) (s : list N) : list N := drop n s.

(** WhiteSpace and LineTerminator code points of ECMAScript, the set
    [String.prototype.trim] strips. *)
Definition is_space (c : N) : bool :=
  (c =? 0x09) || (c =? 0x0A) || (c =? 0x0B) || (c =? 0x0C) || (c =? 0x0D) ||
  (c =? 0x20) || (c =? 0xA0) || (c =? 0x1680) ||
  ((0x2000 <=? c) && (c <=? 0x200A)) ||
  (c =? 0x2028) || (c =? 0x2029) || (c =? 0x202F) || (c =? 0x205F) ||
  (c =? 0x3000) || (c =? 0xFEFF).

Fixpoint trimStart (s : list N) : list N :=
  match s with
  | c :: r => if is_space c then trimStart r else s
  | [] => []
  end.

Definition trimEnd (s : list N) : list N := reverse (trimStart (reverse s)).

(** [String.prototype.trim] *)
Definition trim (s : list N) : list N := trimEnd (trimStart s).

(** [s.split(sep)] for a one-code-unit separator: never the empty array. *)
Fixpoint split (sep : N) (s : list N) : list (list N) :=
  match s with
  | [] => [[]]
  | c :: r =>
      if c =? sep then [] :: split sep r
      else match split sep r with
           | l :: ls => (c :: l) :: ls
           | [] => [[c]]
           end
  end.

(** [Array.prototype.pop]: the array without its last element, and that
    element ([None] is [undefined], for the empty array). *)
Definition pop {A} (l : list A) : list A * option A := (removelast l, last l).

(** [x || ''] for [x] a string or [undefined]. *)
Definition or_empty (x : option (list N)) : list N :=
  match x with
  | Some (c :: r) => c :: r
  | _ => []
  end.

(** [x || undefined] for a string [x]; [None] is [undefined]. *)
Definition or_undefined (x : list N) : option (list N) :=
  match x with
  | [] => None
  | _ => Some x
  end.

(** [s.includes(t)] *)
Fixpoint includes (s t : list N) : bool :=
  startsWith s t ||
  match s with
  | [] => false
  | _ :: r => includes r t
  end.

End JS.

(** ** TextDecoder (UTF-8, replacement mode, [stream: true]) *)

Module TextDecoder.

Record utf8 := {
  code_point : N;
  bytes_seen : N;
  bytes_needed : N;
  lower_boundary : N;
  upper_boundary : N
}.

Definition utf8_new : utf8 :=
  {| code_point := 0; bytes_seen := 0; bytes_needed := 0;
     lower_boundary := 0x80; upper_boundary := 0xBF |}.

(** The handler on a byte when no continuation byte is awaited. *)
Definition lead (st : utf8) (b : N) : utf8 * list N :=
  if b <=? 0x7F then (st, [b])
  else if (0xC2 <=? b) && (b <=? 0xDF) then
    ({| code_point := N.land b 0x1F; bytes_seen := bytes_seen st; bytes_needed := 1;
        lower_boundary := lower_boundary st; upper_boundary := upper_boundary st |}, [])
  else if (0xE0 <=? b) && (b <=? 0xEF) then
    ({| code_point := N.land b 0xF; bytes_seen := bytes_seen st; bytes_needed := 2;
        lower_boundary := if b =? 0xE0 then 0xA0 else lower_boundary st;
        upper_boundary := if b =? 0xED then 0x9F else upper_boundary st |}, [])
  else if (0xF0 <=? b) && (b <=? 0xF4) then
    ({| code_point := N.land b 0x7; bytes_seen := bytes_seen st; bytes_needed := 3;
        lower_boundary := if b =? 0xF0 then 0x90 else lower_boundary st;
        upper_boundary := if b =? 0xF4 then 0x8F else upper_boundary st |}, [])
  else (st, [0xFFFD]).

(** One byte through the UTF-8 decoder: the new state and the scalar
    values emitted. A byte outside the boundaries emits U+FFFD and is
    handled again from the reset state. *)
Definition handler (st : utf8) (byte : Byte.byte) : utf8 * list N :=
  let b := Byte.to_N byte in
  if bytes_needed st =? 0 then lead st b
  else if (b <? lower_boundary st) || (upper_boundary st <? b) then
    let '(st', out) := lead utf8_new b in (st', 0xFFFD :: out)
  else
    let cp := N.lor (N.shiftl (code_point st) 6) (N.land b 0x3F) in
    let seen := bytes_seen st + 1 in
    if seen =? bytes_needed st then (utf8_new, [cp])
    else ({| code_point := cp; bytes_seen := seen; bytes_needed := bytes_needed st;
             lower_boundary := 0x80; upper_boundary := 0xBF |}, []).

Fixpoint run (st : utf8) (input : list Byte.byte) : utf8 * list N :=
  match input with
  | [] => (st, [])
  | b :: r =>
      let '(st1, out1) := handler st b in
      let '(st2, out2) := run st1 r in
      (st2, out1 ++ out2)
  end.

(** A scalar value as UTF-16 code units. *)
Definition code_units (c : N) : list N :=
  if c <? 0x10000 then [c]
  else [0xD800 + N.shiftr (c - 0x10000) 10; 0xDC00 + N.land (c - 0x10000) 0x3FF].

Record t := { decoder : utf8; BOM_seen : bool }.

Definition new : t := {| decoder := utf8_new; BOM_seen := false |}.

(** Serialising the scalar values of one call: the first scalar value of
    the stream is dropped when it is U+FEFF. *)
Definition serialize (bom_seen : bool) (scalars : list N) : bool * list N :=
  match scalars with
  | [] => (bom_seen, [])
  | c :: r =>
      if bom_seen then (true, concat (code_units <$> scalars))
      else (true, (if c =? 0xFEFF then [] else code_units c) ++ concat (code_units <$> r))
  end.

(** [decoder.decode(value, { stream: true })] *)
Definition decode (d : t) (value : list Byte.byte) : t * list N :=
  let '(st, scalars) := run (decoder d) value in
  let '(seen, text) := serialize (BOM_seen d) scalars in
  ({| decoder := st; BOM_seen := seen |}, text).

End TextDecoder.

(** ** JavaScript values *)

(** The values [JSON.parse] builds, and [undefined]. A number is kept as
    the decimal it was written as, [(-1)^neg * mant * 10^exp]; the Number
    value is that decimal rounded to binary64. *)
#[warnings="-register-all"]
Inductive value :=
| Undefined
| Null
| Bool (b : bool)
| Number (neg : bool) (mant : N) (exp : Z)
| Str (s : list N)
| Array (elements : list value)
| Object (fields : list (list N * value)).

Module JSON.

Inductive result (A : Type) :=
| Ok (a : A)
| SyntaxError
| OutOfFuel.
Arguments Ok {A} a.
Arguments SyntaxError {A}.
Arguments OutOfFuel {A}.

Definition is_ws (c : N) : bool :=
  (c =? 0x20) || (c =? 0x09) || (c =? 0x0A) || (c =? 0x0D).

Fixpoint skip_ws (s : list N) : list N :=
  match s with
  | c :: r => if is_ws c then skip_ws r else s
  | [] => []
  end.

Definition is_digit (c : N) : bool := (48 <=? c) && (c <=? 57).

Definition hex_digit (c : N) : option N :=
  if is_digit c then Some (c - 48)
  else if (65 <=? c) && (c <=? 70) then Some (c - 55)
  else if (97 <=? c) && (c <=? 102) then Some (c - 87)
  else None.

(** The escape [\c] for a one-character escape [c]. *)
Definition escape (e : N) : option N :=
  if e =? 34 then Some 34        (* quotation mark *)
  else if e =? 92 then Some 92   (* reverse solidus *)
  else if e =? 47 then Some 47   (* solidus *)
  else if e =? 98 then Some 8    (* b: backspace *)
  else if e =? 102 then Some 12  (* f: form feed *)
  else if e =? 110 then Some 10  (* n: line feed *)
  else if e =? 114 then Some 13  (* r: carriage return *)
  else if e =? 116 then Some 9   (* t: tab *)
  else None.

(** A string, after its opening quote: the code units and the rest. *)
Fixpoint parse_string (s acc : list N) : option (list N * list N) :=
  match s with
  | [] => None
  | c :: r =>
      if c =? 34 then Some (reverse acc, r)
      else if c <? 0x20 then None
      else if c =? 92 then
        match r with
        | [] => None
        | e :: r1 =>
            if e =? 117 then
              match r1 with
              | h1 :: h2 :: h3 :: h4 :: r2 =>
                  match hex_digit h1, hex_digit h2, hex_digit h3, hex_digit h4 with
                  | Some d1, Some d2, Some d3, Some d4 =>
                      parse_string r2 (((d1 * 16 + d2) * 16 + d3) * 16 + d4 :: acc)
                  | _, _, _, _ => None
                  end
              | _ => None
              end
            else
              match escape e with
              | Some u => parse_string r1 (u :: acc)
              | None => None
              end
        end
      else parse_string r (c :: acc)
  end.

(** A run of decimal digits: its value continuing [acc], how many digits,
    and the rest. *)
Fixpoint digits (s : list N) (acc : N) (count : nat) : N * nat * list N :=
  match s with
  | c :: r => if is_digit c then digits r (acc * 10 + (c - 48)) (S count) else (acc, count, s)
  | [] => (acc, count, [])
  end.

(** The integer part: [0], or a non-zero digit followed by digits. *)
Definition parse_int (s : list N) : option (N * list N) :=
  match s with
  | c :: r =>
      if c =? 48 then Some (0, r)
      else if is_digit c then let '(n, _, r') := digits r (c - 48) 1 in Some (n, r')
      else None
  | [] => None
  end.

Definition parse_frac (int : N) (s : list N) : option (N * nat * list N) :=
  match s with
  | c :: r =>
      if c =? 46 then
        let '(m, k, r') := digits r int 0 in
        match k with O => None | _ => Some (m, k, r') end
      else Some (int, O, s)
  | [] => Some (int, O, s)
  end.

Definition parse_exp (s : list N) : option (Z * list N) :=
  match s with
  | c :: r =>
      if (c =? 101) || (c =? 69) then
        let '(sign, r1) :=
          match r with
          | d :: r0 => if d =? 43 then (1%Z, r0) else if d =? 45 then ((-1)%Z, r0) else (1%Z, r)
          | [] => (1%Z, r)
          end in
        let '(e, k, r2) := digits r1 0 0 in
        match k with O => None | _ => Some ((sign * Z.of_N e)%Z, r2) end
      else Some (0%Z, s)
  | [] => Some (0%Z, s)
  end.

Definition parse_number (s : list N) : option (value * list N) :=
  let '(neg, s1) :=
    match s with
    | c :: r => if c =? 45 then (true, r) else (false, s)
    | [] => (false, s)
    end in
  match parse_int s1 with
  | None => None
  | Some (int, s2) =>
      match parse_frac int s2 with
      | None => None
      | Some (mant, k, s3) =>
          match parse_exp s3 with
          | None => None
          | Some (e, s4) => Some (Number neg mant (e - Z.of_nat k), s4)
          end
      end
  end.

Definition keyword (s : list N) (word : string) (v : value) : result (value * list N) :=
  if JS.startsWith s (JS.lit word) then Ok (v, drop (String.length word) s)
  else SyntaxError.

Definition of_option {A} (o : option A) : result A :=
  match o with
  | Some a => Ok a
  | None => SyntaxError
  end.

(** JSONValue, after optional white space; [parse_elements] and
    [parse_members] read the rest of an array or object whose first
    element or member starts at [s]. *)
Fixpoint parse_value (fuel : nat) (s : list N) : result (value * list N) :=
  match fuel with
  | O => OutOfFuel
  | S fuel =>
      match skip_ws s with
      | [] => SyntaxError
      | c :: r =>
          if c =? 34 then
            match parse_string r [] with
            | Some (str, r') => Ok (Str str, r')
            | None => SyntaxError
            end
          else if c =? 91 then
            match skip_ws r with
            | d :: r' => if d =? 93 then Ok (Array [], r') else parse_elements fuel r []
            | [] => SyntaxError
            end
          else if c =? 123 then
            match skip_ws r with
            | d :: r' => if d =? 125 then Ok (Object [], r') else parse_members fuel r []
            | [] => SyntaxError
            end
          else if c =? 116 then keyword (c :: r) "true" (Bool true)
          else if c =? 102 then keyword (c :: r) "false" (Bool false)
          else if c =? 110 then keyword (c :: r) "null" Null
          else of_option (parse_number (c :: r))
      end
  end
with parse_elements (fuel : nat) (s : list N) (acc : list value) : result (value * list N) :=
  match fuel with
  | O => OutOfFuel
  | S fuel =>
      match parse_value fuel s with
      | Ok (v, r) =>
          match skip_ws r with
          | d :: r' =>
              if d =? 44 then parse_elements fuel r' (v :: acc)
              else if d =? 93 then Ok (Array (reverse (v :: acc)), r')
              else SyntaxError
          | [] => SyntaxError
          end
      | SyntaxError => SyntaxError
      | OutOfFuel => OutOfFuel
      end
  end
with parse_members (fuel : nat) (s : list N) (acc : list (list N * value)) : result (value * list N) :=
  match fuel with
  | O => OutOfFuel
  | S fuel =>
      match skip_ws s with
      | q :: r0 =>
          if q =? 34 then
            match parse_string r0 [] with
            | Some (key, r1) =>
                match skip_ws r1 with
                | colon :: r2 =>
                    if colon =? 58 then
                      match parse_value fuel r2 with
                      | Ok (v, r) =>
                          match skip_ws r with
                          | d :: r' =>
                              if d =? 44 then parse_members fuel r' ((key, v) :: acc)
                              else if d =? 125 then Ok (Object (reverse ((key, v) :: acc)), r')
                              else SyntaxError
                          | [] => SyntaxError
                          end
                      | SyntaxError => SyntaxError
                      | OutOfFuel => OutOfFuel
                      end
                    else SyntaxError
                | [] => SyntaxError
                end
            | None => SyntaxError
            end
          else SyntaxError
      | [] => SyntaxError
      end
  end.

(** [JSON.parse(text)]: [None] when it throws a SyntaxError. *)
Definition parse (text : list N) : option value :=
  match parse_value (2 * length text + 2) text with
  | Ok (v, r) => match skip_ws r with [] => Some v | _ => None end
  | _ => None
  end.

End JSON.

(** ** Property access, truthiness, completions *)

Inductive error :=
| TypeError
| JSONSyntaxError
| Error (message : value).   (* [new Error(message)], the argument as passed *)

Inductive completion (A : Type) :=
| Normal (a : A)
| Throw (e : error).
Arguments Normal {A} a.
Arguments Throw {A} e.

(** The Number value of [mant * 10^exp] is zero: the decimal is at most
    [2^-1075], half the least positive binary64 (ties go to even). *)
Definition number_is_zero (mant : N) (exp : Z) : bool :=
  (mant =? 0) || ((exp <? 0)%Z && (mant * 2 ^ 1075 <=? 10 ^ Z.to_N (- exp))).

(** ToBoolean *)
Definition truthy (v : value) : bool :=
  match v with
  | Undefined | Null => false
  | Bool b => b
  | Number _ mant exp => negb (number_is_zero mant exp)
  | Str s => match s with [] => false | _ => true end
  | Array _ | Object _ => true
  end.

(** [a || b] *)
Definition or_else (a b : value) : value := if truthy a then a else b.

(** The value of the last field named [key], as [JSON.parse] keeps the
    last of duplicate names. *)
Fixpoint field (key : list N) (fields : list (list N * value)) : option value :=
  match fields with
  | [] => None
  | (k, v) :: r =>
      match field key r with
      | Some w => Some w
      | None => if JS.str_eqb k key then Some v else None
      end
  end.

(** [v.key] for the property names the sources read ([choices], [delta],
    [content], [candidates], [parts], [text], [finishReason], [type],
    [error], [message], [role]): none is an array index,
    [length], or a member of a built-in prototype, so only an object can
    have it. *)
Definition get (v : value) (key : string) : completion value :=
  match v with
  | Undefined | Null => Throw TypeError
  | Object fields => Normal (default Undefined (field (JS.lit key) fields))
  | _ => Normal Undefined
  end.

(** [v[0]] *)
Definition get0 (v : value) : completion value :=
  match v with
  | Undefined | Null => Throw TypeError
  | Object fields => Normal (default Undefined (field (JS.lit "0") fields))
  | Array l => Normal (default Undefined (head l))
  | Str (c :: _) => Normal (Str [c])
  | _ => Normal Undefined
  end.

(** [v?.key] and [v?.[0]]: never throw. *)
Definition get_opt (v : value) (key : string) : value :=
  match get v key with
  | Normal w => w
  | Throw _ => Undefined
  end.

Definition get0_opt (v : value) : value :=
  match get0 v with
  | Normal w => w
  | Throw _ => Undefined
  end.

(** [v === 'literal'] *)
Definition is_string (v : value) (literal : string) : bool :=
  match v with
  | Str s => JS.str_eqb s (JS.lit literal)
  | _ => false
  end.

(** [JSON.parse(text)] as a completion. *)
Definition JSON_parse (text : list N) : completion value :=
  match JSON.parse text with
  | Some v => Normal v
  | None => Throw JSONSyntaxError
  end.

(** ** Generators *)

(** What the stream decoders yield: [{ delta }] and [{ done: true }]. *)
Inductive event :=
| Delta (delta : value)
| Done.

(** A generator body run to completion: the events yielded so far and how
    the body completed. *)
Definition gen (A : Type) : Type := list event * completion A.

Definition ret {A} (a : A) : gen A := ([], Normal a).

Definition bind {A B} (m : gen A) (f : A → gen B) : gen B :=
  match m with
  | (evs, Normal a) => let '(evs', r) := f a in (evs ++ evs', r)
  | (evs, Throw e) => (evs, Throw e)
  end.

Definition yield (e : event) : gen unit := ([e], Normal tt).

Definition throw {A} (e : error) : gen A := ([], Throw e).

Definition lift {A} (c : completion A) : gen A := ([], c).

(** [try { m } catch (e) { handler e }] *)
Definition try_catch {A} (m : gen A) (handler : error → gen A) : gen A :=
  match m with
  | (evs, Throw e) => let '(evs', r) := handler e in (evs ++ evs', r)
  | (evs, Normal a) => (evs, Normal a)
  end.

Notation "x <- m ;; k" := (bind m (λ x, k))
  (at level 100, m at next level, right associativity, only parsing).
Notation "m ;; k" := (bind m (λ _, k))
  (at level 100, right associativity, only parsing).

(** How the body of [for (const line of lines)] leaves: on to the next
    line ([continue], or the end of the body), or out of the generator
    ([return]). *)
Inductive control :=
| Next
| Return.

Fixpoint for_of (body : list N → gen control) (lines : list (list N)) : gen control :=
  match lines with
  | [] => ret Next
  | line :: rest =>
      c <- body line ;;
      match c with
      | Next => for_of body rest
      | Return => ret Return
      end
  end.

(** The loop the four [processStream] generators share:
    [[
      while (true) {
        const { done, value } = await reader.read();
        if (done) at_end;
        buffer += decoder.decode(value, { stream: true });
        const lines = buffer.split('\n');
        buffer = lines.pop() || '';
        for (const line of lines) body
      }
    ]]
    [chunks] are the values the reader delivers before it reports [done]. *)
Fixpoint read_loop (body : list N → gen control) (at_end : gen unit)
    (decoder : TextDecoder.t) (buffer : list N) (chunks : list (list Byte.byte)) : gen unit :=
  match chunks with
  | [] => at_end
  | value :: rest =>
      let '(decoder, text) := TextDecoder.decode decoder value in
      let buffer := buffer ++ text in
      let '(lines, last) := JS.pop (JS.split 10 buffer) in
      let buffer := JS.or_empty last in
      c <- for_of body lines ;;
      match c with
      | Next => read_loop body at_end decoder buffer rest
      | Return => ret tt
      end
  end.

(** ** OpenAIProvider (src/unnamed/part_003) *)

Module OpenAIProvider.

Definition line_body (line : list N) : gen control :=
  if JS.startsWith line (JS.lit "data: ") then
    let data := JS.trim (JS.slice 6 line) in
    if JS.str_eqb data (JS.lit "[DONE]") then
      yield Done ;; ret Return
    else
      try_catch
        (parsed <- lift (JSON_parse data) ;;
         choices <- lift (get parsed "choices") ;;
         first <- lift (get0 choices) ;;
         let delta := get_opt (get_opt first "delta") "content" in
         if truthy delta then yield (Delta delta) ;; ret Next
         else ret Next)
        (λ _, ret Next)
  else ret Next.

(** [if (done) break;] and the generator ends. *)
Definition processStream (stream : list (list Byte.byte)) : gen unit :=
  read_loop line_body (ret tt) TextDecoder.new [] stream.

End OpenAIProvider.

(** ** AzureChatProvider *)

Module AzureChatProvider.

Definition line_body (line : list N) : gen control :=
  if JS.startsWith line (JS.lit "data: ") then
    let data := JS.trim (JS.slice 6 line) in
    if JS.str_eqb data (JS.lit "[DONE]") then
      yield Done ;; ret Return
    else
      try_catch
        (parsed <- lift (JSON_parse data) ;;
         choices <- lift (get parsed "choices") ;;
         first <- lift (get0 choices) ;;
         let delta := get_opt (get_opt first "delta") "content" in
         if truthy delta then yield (Delta delta) ;; ret Next
         else ret Next)
        (λ _, ret Next)
  else ret Next.

Definition processStream (stream : list (list Byte.byte)) : gen unit :=
  read_loop line_body (ret tt) TextDecoder.new [] stream.

End AzureChatProvider.

(** ** GeminiProvider *)

Module GeminiProvider.

Definition line_body (line : list N) : gen control :=
  let trimmed := JS.trim line in
  if negb (truthy (Str trimmed)) then ret Next
  else
    try_catch
      (parsed <- lift (JSON_parse trimmed) ;;
       candidates <- lift (get parsed "candidates") ;;
       let candidate := get0_opt candidates in
       let content := get_opt (get0_opt (get_opt (get_opt candidate "content") "parts")) "text" in
       (if truthy content then yield (Delta content) else ret tt) ;;
       if truthy (get_opt candidate "finishReason") then yield Done ;; ret Return
       else ret Next)
      (λ _, ret Next).

(** [if (done) { yield { done: true }; return; }] *)
Definition processStream (stream : list (list Byte.byte)) : gen unit :=
  read_loop line_body (yield Done) TextDecoder.new [] stream.

End GeminiProvider.

(** ** AnthropicProvider *)

Module AnthropicProvider.

Definition line_body (line : list N) : gen control :=
  if JS.startsWith line (JS.lit "data: ") then
    let data := JS.trim (JS.slice 6 line) in
    if JS.str_eqb data (JS.lit "[DONE]") then
      yield Done ;; ret Return
    else
      try_catch
        (parsed <- lift (JSON_parse data) ;;
         type <- lift (get parsed "type") ;;
         if is_string type "content_block_delta" then
           delta <- lift (get parsed "delta") ;;
           if truthy (get_opt delta "text") then
             text <- lift (get delta "text") ;;
             yield (Delta text) ;; ret Next
           else ret Next
         else if is_string type "message_stop" then
           yield Done ;; ret Return
         else if is_string type "content_block_stop" then
           ret Next
         else if is_string type "error" then
           err <- lift (get parsed "error") ;;
           throw (Error (or_else (get_opt err "message")
                                 (Str (JS.lit "Error en stream de Anthropic"))))
         else ret Next)
        (λ _, ret Next)
  else if JS.startsWith line (JS.lit "event: ") then ret Next
  else ret Next.

Definition processStream (stream : list (list Byte.byte)) : gen unit :=
  read_loop line_body (ret tt) TextDecoder.new [] stream.

End AnthropicProvider.

(** ** Messages *)

(** A message as the providers receive it: [{ role, content }], with the
    truthiness of its optional [isError] flag. *)
Module Message.
Record t := { role : list N; content : list N; isError : bool }.
End Message.

(** The object literal [{ role, content }] the sources build. *)
Module Wire.
Record t := { role : list N; content : list N }.
End Wire.

Module GeminiFormat.

Record part := { text : list N }.
Record entry := { role : list N; parts : list part }.

(** The [for (const message of messages)] loop of [formatMessages];
    [contents] is the array pushed to. *)
Fixpoint push_all (messages : list Message.t) (contents : list entry) : list entry :=
  match messages with
  | [] => contents
  | message :: rest =>
      if Message.isError message then push_all rest contents
      else if JS.str_eqb (Message.role message) (JS.lit "system") then push_all rest contents
      else
        let role :=
          if JS.str_eqb (Message.role message) (JS.lit "assistant") then JS.lit "model"
          else Message.role message in
        push_all rest (contents ++ [{| role := role; parts := [{| text := Message.content message |}] |}])
  end.

(** [`${system}\n\nUsuario: ${originalText}`] *)
Definition with_system (system originalText : list N) : list N :=
  system ++ [10; 10] ++ JS.lit "Usuario: " ++ originalText.

(** [GeminiProvider.formatMessages]. Every entry pushed has exactly one
    part, so [contents[0].parts[0]] exists whenever [contents[0]] does. *)
Definition formatMessages (messages : list Message.t) : list entry :=
  let contents := push_all messages [] in
  let systemMessage :=
    List.find (λ m, JS.str_eqb (Message.role m) (JS.lit "system")) messages in
  match systemMessage, contents with
  | Some systemMessage, first :: others =>
      if JS.str_eqb (role first) (JS.lit "user") then
        {| role := role first;
           parts := alter (λ p, {| text := with_system (Message.content systemMessage) (text p) |})
                          0%nat (parts first) |} :: others
      else contents
  | _, _ => contents
  end.

End GeminiFormat.

Module AnthropicFormat.

Record formatted := {
  systemPrompt : option (list N);            (* [None] is [undefined] *)
  conversationMessages : list Wire.t
}.

Fixpoint push_all (messages : list Message.t) (systemPrompt : list N)
    (conversationMessages : list Wire.t) : list N * list Wire.t :=
  match messages with
  | [] => (systemPrompt, conversationMessages)
  | message :: rest =>
      if Message.isError message then push_all rest systemPrompt conversationMessages
      else if JS.str_eqb (Message.role message) (JS.lit "system") then
        push_all rest (Message.content message) conversationMessages
      else
        push_all rest systemPrompt
          (conversationMessages ++
             [{| Wire.role := Message.role message; Wire.content := Message.content message |}])
  end.

(** [AnthropicProvider.formatMessages] *)
Definition formatMessages (messages : list Message.t) : formatted :=
  let '(systemPrompt, conversationMessages) := push_all messages [] [] in
  {| systemPrompt := JS.or_undefined systemPrompt;
     conversationMessages := conversationMessages |}.


End AnthropicFormat.

(** ** Request validation (src/unnamed/part_002) *)

Module Validate.

Inductive validation :=
| Valid (messages : list Wire.t)       (* [{ isValid: true, messages }] *)
| Invalid (error : list N).            (* [{ isValid: false, error }] *)

Definition validRoles : list (list N) :=
  [JS.lit "system"; JS.lit "user"; JS.lit "assistant"].

(** [typeof v === 'object'] *)
Definition typeof_object (v : value) : bool :=
  match v with
  | Null | Array _ | Object _ => true
  | _ => false
  end.

(** [typeof v === 'string'] *)
Definition typeof_string (v : value) : bool :=
  match v with
  | Str _ => true
  | _ => false
  end.

(** [validRoles.includes(v)] *)
Definition includes_role (v : value) : bool :=
  match v with
  | Str s => existsb (JS.str_eqb s) validRoles
  | _ => false
  end.

(** [`Message ${i}: ${rest}`] *)
Definition message_error (i : nat) (rest : list N) : list N :=
  JS.lit "Message " ++ JS.lit (NilEmpty.string_of_uint (Nat.to_uint i)) ++ JS.lit ": " ++ rest.

Definition bindc {A B} (c : completion A) (f : A → completion B) : completion B :=
  match c with
  | Normal a => f a
  | Throw e => Throw e
  end.

(** The [for (let i = 0; i < messages.length; i++)] loop. *)
Fixpoint validate_from (i : nat) (messages : list value) (validatedMessages : list Wire.t)
    : completion validation :=
  match messages with
  | [] => Normal (Valid validatedMessages)
  | message :: rest =>
      if negb (truthy message) || negb (typeof_object message) then
        Normal (Invalid (message_error i (JS.lit "debe ser un objeto")))
      else
        bindc (get message "role") (λ role,
        if negb (truthy role) || negb (typeof_string role) then
          Normal (Invalid (message_error i (JS.lit "role es requerido y debe ser un string")))
        else if negb (includes_role role) then
          Normal (Invalid (message_error i (JS.lit "role debe ser uno de: system, user, assistant")))
        else
          bindc (get message "content") (λ content,
          if negb (truthy content) || negb (typeof_string content) then
            Normal (Invalid (message_error i (JS.lit "content es requerido y debe ser un string")))
          else
            match role, content with
            | Str role, Str content =>
                if (10000 <? Z.of_nat (length content))%Z then
                  Normal (Invalid (message_error i
                    (JS.lit "content no puede tener m" ++ [0xE1] ++ JS.lit "s de 10,000 caracteres")))
                else
                  validate_from (S i) rest
                    (validatedMessages ++ [{| Wire.role := role; Wire.content := JS.trim content |}])
            | _, _ => Throw TypeError
            end))
  end.

(** [validateMessages(messages)] *)
Definition validateMessages (messages : value) : completion validation :=
  match messages with
  | Array messages => validate_from 0 messages []
  | _ => Normal (Invalid (JS.lit "Messages debe ser un array"))
  end.

End Validate.

(** ** Rate limiting (apps/api/middlewares/ratelimit.js) *)

Module RateLimit.

Local Open Scope Z_scope.

Record config := { windowMs : Z; maxRequests : Z }.

(** [DEFAULT_CONFIG]; [per_minute] is
    [parseInt(process.env.RATE_LIMIT_PER_MINUTE)], [None] for NaN. *)
Definition DEFAULT_CONFIG (per_minute : option Z) : config :=
  {| windowMs := 60 * 1000;
     maxRequests := match per_minute with
                    | Some n => if n =? 0 then 10 else n
                    | None => 10
                    end |}.

(** The configurations the endpoints document. *)
Definition chat_config : config := {| windowMs := 60000; maxRequests := 30 |}.
Definition image_config : config := {| windowMs := 300000; maxRequests := 10 |}.

(** Request headers: header name to value. *)
Definition headers_get (headers : gmap (list N) (list N)) (name : string) : option (list N) :=
  headers !! JS.lit name.

(** [a || b] on strings, [None] being [undefined]. *)
Definition or_str (a : option (list N)) (b : option (list N)) : option (list N) :=
  match a with
  | Some (c :: r) => Some (c :: r)
  | _ => b
  end.

(** [getClientIP(event)], on [event.headers]. *)
Definition getClientIP (headers : gmap (list N) (list N)) : completion (list N) :=
  let ip :=
    or_str (headers_get headers "x-forwarded-for")
      (or_str (headers_get headers "x-real-ip")
         (or_str (headers_get headers "cf-connecting-ip")
            (Some (JS.lit "unknown")))) in
  match ip with
  | Some ip =>
      match head (JS.split 44 ip) with
      | Some first => Normal (JS.trim first)
      | None => Throw TypeError
      end
  | None => Throw TypeError
  end.

(** The recent requests of a list: [requests.filter(timestamp => timestamp > cutoff)] *)
Definition recent (cutoff : Z) (requests : list Z) : list Z :=
  List.filter (λ timestamp, cutoff <? timestamp) requests.

(** [cleanupOldRequests(windowMs)] at time [now], on [requestStore]. *)
Definition cleanupOldRequests (windowMs now : Z) (requestStore : gmap (list N) (list Z))
    : gmap (list N) (list Z) :=
  let cutoff := now - windowMs in
  omap (λ requests,
          let recentRequests := recent cutoff requests in
          match recentRequests with
          | [] => None
          | _ => Some recentRequests
          end) requestStore.

(** A JavaScript number that is an integer or [Infinity]. *)
Inductive number :=
| Fin (z : Z)
| Infinity.

(** [Math.min(...requests)] *)
Definition min_of (requests : list Z) : number :=
  foldr (λ t acc, match acc with
                  | Fin m => Fin (Z.min t m)
                  | Infinity => Fin t
                  end) Infinity requests.

(** [Math.ceil(a / b)] for integers [a] and [0 < b]. *)
Definition ceil_div (a b : Z) : Z := - ((- a) / b).

Record rateInfo := {
  isLimited : bool;
  current : Z;
  limit : Z;
  remaining : Z;
  resetTime : number;
  retryAfter : number
}.

(** [checkRateLimit(ip, config)] at time [now]. *)
Definition checkRateLimit (ip : list N) (cfg : config) (now : Z)
    (requestStore : gmap (list N) (list Z)) : rateInfo :=
  let cutoff := now - windowMs cfg in
  let requests := default [] (requestStore !! ip) in
  let recentRequests := recent cutoff requests in
  let count := Z.of_nat (length recentRequests) in
  let isLimited := maxRequests cfg <=? count in
  let oldestRequest := min_of recentRequests in
  let resetTime :=
    match oldestRequest with
    | Fin t => Fin (t + windowMs cfg)
    | Infinity => Infinity
    end in
  let retryAfter :=
    match resetTime with
    | Fin r => Fin (Z.max 0 (ceil_div (r - now) 1000))
    | Infinity => Infinity
    end in
  {| isLimited := isLimited;
     current := count;
     limit := maxRequests cfg;
     remaining := Z.max 0 (maxRequests cfg - count);
     resetTime := resetTime;
     retryAfter := retryAfter |}.

(** [recordRequest(ip)] at time [now]; [cleanup] is the outcome of
    [Math.random() < 0.1]. *)
Definition recordRequest (ip : list N) (now : Z) (cleanup : bool)
    (requestStore : gmap (list N) (list Z)) : gmap (list N) (list Z) :=
  let requests := default [] (requestStore !! ip) in
  let requestStore := <[ip := requests ++ [now]]> requestStore in
  if cleanup then cleanupOldRequests (windowMs (DEFAULT_CONFIG None)) now requestStore
  else requestStore.

(** One call through [withRateLimit]: check, and record unless limited. *)
Definition guarded_call (ip : list N) (cfg : config) (now : Z) (cleanup : bool)
    (requestStore : gmap (list N) (list Z)) : rateInfo * gmap (list N) (list Z) :=
  let rateInfo := checkRateLimit ip cfg now requestStore in
  if isLimited rateInfo then (rateInfo, requestStore)
  else (rateInfo, recordRequest ip now cleanup requestStore).

(** Calls of one client, each at its time and with its cleanup outcome. *)
Fixpoint guarded_calls (ip : list N) (cfg : config) (calls : list (Z * bool))
    (requestStore : gmap (list N) (list Z)) : gmap (list N) (list Z) :=
  match calls with
  | [] => requestStore
  | (now, cleanup) :: rest =>
      guarded_calls ip cfg rest (snd (guarded_call ip cfg now cleanup requestStore))
  end.

End RateLimit.

(** ** Provider classes and the handler's configuration check (chat.js) *)

Module Chat.

Inductive provider_class :=
| OpenAIProvider
| GeminiProvider
| AnthropicProvider
| AzureChatProvider.

(** The instance methods each class body declares ([processStream] is
    static, a property of the constructor and not of its instances). *)
Definition class_methods (c : provider_class) : list string :=
  match c with
  | OpenAIProvider => ["constructor"; "chat"; "formatMessages"; "validateModel"]
  | GeminiProvider => ["constructor"; "chat"; "formatMessages"; "validateModel"]
  | AnthropicProvider => ["constructor"; "chat"; "formatMessages"; "validateModel"]
  | AzureChatProvider => ["constructor"; "chat"; "formatMessages"; "validateModel"]
  end.

(** The methods of [BaseProvider], which the four classes extend. *)
Definition BaseProvider_methods : list string :=
  ["constructor"; "chat"; "filterValidMessages"; "formatMessages"; "getBaseHeaders";
   "handleError"; "createTimeoutController"; "validateParams"; "debug"].

(** The functions of [Object.prototype]. *)
Definition Object_prototype_methods : list string :=
  ["constructor"; "hasOwnProperty"; "isPrototypeOf"; "propertyIsEnumerable";
   "toLocaleString"; "toString"; "valueOf";
   "__defineGetter__"; "__defineSetter__"; "__lookupGetter__"; "__lookupSetter__"].

(** The fields the constructors assign on [this]. *)
Definition instance_fields (c : provider_class) : list string :=
  match c with
  | AzureChatProvider => ["config"; "timeoutMs"; "apiKey"; "endpoint"; "apiVersion"]
  | _ => ["config"; "timeoutMs"; "apiKey"; "baseURL"]
  end.

Inductive property :=
| Field
| Method.

Definition mem (name : string) (names : list string) : bool :=
  existsb (String.eqb name) names.

(** [provider.name]: own fields, then the prototype chain. *)
Definition lookup (c : provider_class) (name : string) : option property :=
  if mem name (instance_fields c) then Some Field
  else if mem name (class_methods c) then Some Method
  else if mem name BaseProvider_methods then Some Method
  else if mem name Object_prototype_methods then Some Method
  else None.

(** [provider.name()]: a TypeError unless the property is a function;
    [run] stands for executing a method that exists. *)
Definition call (run : provider_class → string → value) (c : provider_class) (name : string)
    : completion value :=
  match lookup c name with
  | Some Method => Normal (run c name)
  | _ => Throw TypeError
  end.

Record response := { statusCode : Z }.

(** The handler from the constructed provider on:
    [[
      try {
        ...
        if (!provider.isConfigured()) { return { statusCode: 503, ... }; }
        continue with the chat
      } catch (error) { return { statusCode: 500, ... }; }
    ]] *)
Definition configured_check (run : provider_class → string → value) (c : provider_class)
    (chat : response) : response :=
  match call run c "isConfigured" with
  | Normal configured =>
      if negb (truthy configured) then {| statusCode := 503 |} else chat
  | Throw _ => {| statusCode := 500 |}
  end.

End Chat.

(** ** Shapes of event sequences *)

(** The complete lines of a buffer and the part held back. *)
Definition complete_lines (buffer : list N) : list (list N) :=
  fst (JS.pop (JS.split 10 buffer)).

Definition held_back (buffer : list N) : list N :=
  JS.or_empty (snd (JS.pop (JS.split 10 buffer))).

(** A [{ delta }] event: content, not terminal. *)
Definition is_delta (e : event) : bool :=
  match e with
  | Delta _ => true
  | Done => false
  end.

(** The content events of a sequence, in order. *)
Definition deltas (evs : list event) : list event := List.filter is_delta evs.

(** Content events followed by exactly one terminal event, which is last. *)
Definition terminated (evs : list event) : Prop :=
  ∃ ds, Forall (λ e, is_delta e = true) ds ∧ evs = ds ++ [Done].

(** Content events followed by at most one terminal event, which is last. *)
Definition prefix_shaped (evs : list event) : Prop :=
  ∃ ds, Forall (λ e, is_delta e = true) ds ∧ (evs = ds ∨ evs = ds ++ [Done]).

(** What one pass of a loop body may do: yield content and go on, or
    yield content, then [{ done: true }], and return. *)
Definition line_shaped (r : gen control) : Prop :=
  ∃ ds, Forall (λ e, is_delta e = true) ds ∧
        (r = (ds, Normal Next) ∨ r = (ds ++ [Done], Normal Return)).

(** ** Vocabulary for the message formats *)

Definition is_system (m : Message.t) : bool :=
  JS.str_eqb (Message.role m) (JS.lit "system").

(** Messages the formatters pass on: not flagged as errors, not system. *)
Definition passed_on (m : Message.t) : bool :=
  negb (Message.isError m) && negb (is_system m).

(** System messages the Anthropic formatter reads: not flagged as errors. *)
Definition read_as_system (m : Message.t) : bool :=
  negb (Message.isError m) && is_system m.

Definition wire (m : Message.t) : Wire.t :=
  {| Wire.role := Message.role m; Wire.content := Message.content m |}.

(** The Gemini name of a role. *)
Definition gemini_role (role : list N) : list N :=
  if JS.str_eqb role (JS.lit "assistant") then JS.lit "model" else role.

(** [{ role: 'system', content }] and [{ role: 'user', content }] *)
Definition system_message (content : list N) : Message.t :=
  {| Message.role := JS.lit "system"; Message.content := content; Message.isError := false |}.

Definition user_message (content : list N) : Message.t :=
  {| Message.role := JS.lit "user"; Message.content := content; Message.isError := false |}.

(** ** Vocabulary for validated messages *)

Definition role_valid (w : Wire.t) : Prop := Wire.role w ∈ Validate.validRoles.

(** [{ role: 'user', content }] as [JSON.parse] builds it. *)
Definition user_object (content : list N) : value :=
  Object [(JS.lit "role", Str (JS.lit "user")); (JS.lit "content", Str content)].

(** ** Vocabulary for the rate limiter *)

(** The requests recorded for a client. *)
Definition requests_of (ip : list N) (requestStore : gmap (list N) (list Z)) : list Z :=
  default [] (requestStore !! ip).

(** [recordRequest] for each call of one client, in order. *)
Fixpoint record_calls (ip : list N) (calls : list (Z * bool))
    (requestStore : gmap (list N) (list Z)) : gmap (list N) (list Z) :=
  match calls with
  | [] => requestStore
  | (now, cleanup) :: rest =>
      record_calls ip rest (RateLimit.recordRequest ip now cleanup requestStore)
  end.

(** The first entry of a comma-separated header value. *)
Definition first_entry (v : list N) : list N := default [] (head (JS.split 44 v)).

(** ** Vocabulary for the stream decoders *)

(** The text a stream decodes to, its chunks taken together. *)
Definition text_of (stream : list (list Byte.byte)) : list N :=
  snd (TextDecoder.decode TextDecoder.new (concat stream)).

(** A line is the end marker of OpenAI and Azure: [data: ] followed by
    [[DONE]], white space around it apart. *)
Definition is_DONE_line (line : list N) : bool :=
  JS.startsWith line (JS.lit "data: ") &&
  JS.str_eqb (JS.trim (JS.slice 6 line)) (JS.lit "[DONE]").

(** What a decoder does once its lines are read: its [if (done)] branch
    unless a line made it return. *)
Definition finish (at_end : gen unit) (c : control) : gen unit :=
  match c with
  | Next => at_end
  | Return => ret tt
  end.

(** ** Events and responses of the functions *)

(** A Netlify event, as far as the middlewares read it. *)
Module Event.
Record t := {
  httpMethod : list N;
  headers : gmap (list N) (list N);
  body : option (list N)              (* [None] is a missing body *)
}.
End Event.

(** A response object [{ statusCode, headers, body }]. *)
Module Response.
Record t := {
  statusCode : Z;
  headers : gmap (list N) (list N);   (* [∅] also stands for no [headers] *)
  body : list N
}.
End Response.

(** ** The rate limiting wrapper (apps/api/middlewares/ratelimit.js) *)

Module RateLimitMiddleware.

(** [n.toString()] of an integer in the safe range, where it is the
    plain decimal; timestamps, limits and counts are such integers. *)
Definition Z_toString (z : Z) : list N :=
  JS.lit (NilEmpty.string_of_int (Z.to_int z)).

Definition number_toString (n : RateLimit.number) : list N :=
  match n with
  | RateLimit.Fin z => Z_toString z
  | RateLimit.Infinity => JS.lit "Infinity"
  end.

(** A number inside [JSON.stringify]: [Infinity] is written [null]. *)
Definition number_toJSON (n : RateLimit.number) : list N :=
  match n with
  | RateLimit.Fin z => Z_toString z
  | RateLimit.Infinity => JS.lit "null"
  end.

(** [rateLimitResponse(rateInfo)] *)
Definition rateLimitResponse (rateInfo : RateLimit.rateInfo) : Response.t :=
  {| Response.statusCode := 429;
     Response.headers :=
       <[JS.lit "Retry-After" := number_toString (RateLimit.retryAfter rateInfo)]>
       (<[JS.lit "X-RateLimit-Reset" := number_toString (RateLimit.resetTime rateInfo)]>
       (<[JS.lit "X-RateLimit-Remaining" := Z_toString (RateLimit.remaining rateInfo)]>
       (<[JS.lit "X-RateLimit-Limit" := Z_toString (RateLimit.limit rateInfo)]>
       (<[JS.lit "Content-Type" := JS.lit "application/json"]> ∅))));
     Response.body :=
       JS.qlit "{'error':{'type':'rate_limit_exceeded','message':'Demasiadas solicitudes. Intenta nuevamente en unos momentos.','limit':"
       ++ Z_toString (RateLimit.limit rateInfo)
       ++ JS.qlit ",'current':" ++ Z_toString (RateLimit.current rateInfo)
       ++ JS.qlit ",'retryAfter':" ++ number_toJSON (RateLimit.retryAfter rateInfo)
       ++ JS.lit "}}" |}.

(** [addRateLimitHeaders(response, rateInfo)] *)
Definition addRateLimitHeaders (response : Response.t) (rateInfo : RateLimit.rateInfo)
    : Response.t :=
  {| Response.statusCode := Response.statusCode response;
     Response.headers :=
       <[JS.lit "X-RateLimit-Reset" := number_toString (RateLimit.resetTime rateInfo)]>
       (<[JS.lit "X-RateLimit-Remaining" := Z_toString (RateLimit.remaining rateInfo)]>
       (<[JS.lit "X-RateLimit-Limit" := Z_toString (RateLimit.limit rateInfo)]>
       (Response.headers response)));
     Response.body := Response.body response |}.

(** [{ ...rateInfo, remaining: rateInfo.remaining - 1 }] *)
Definition one_less_remaining (rateInfo : RateLimit.rateInfo) : RateLimit.rateInfo :=
  {| RateLimit.isLimited := RateLimit.isLimited rateInfo;
     RateLimit.current := RateLimit.current rateInfo;
     RateLimit.limit := RateLimit.limit rateInfo;
     RateLimit.remaining := (RateLimit.remaining rateInfo - 1)%Z;
     RateLimit.resetTime := RateLimit.resetTime rateInfo;
     RateLimit.retryAfter := RateLimit.retryAfter rateInfo |}.

(** [withRateLimit(handler, config)(event, context)]: the completion of
    the wrapped call and the store it leaves. [checked] and [recorded]
    are the values of [Date.now()] in [checkRateLimit] and in
    [recordRequest], [cleanup] the outcome of [Math.random() < 0.1];
    [handler] is the wrapped handler, run on the event. *)
Definition withRateLimit (handler : Event.t → completion Response.t) (cfg : RateLimit.config)
    (event : Event.t) (checked recorded : Z) (cleanup : bool)
    (requestStore : gmap (list N) (list Z))
    : completion Response.t * gmap (list N) (list Z) :=
  match RateLimit.getClientIP (Event.headers event) with
  | Throw e => (Throw e, requestStore)
  | Normal ip =>
      let rateInfo := RateLimit.checkRateLimit ip cfg checked requestStore in
      if RateLimit.isLimited rateInfo then
        (Normal (rateLimitResponse rateInfo), requestStore)
      else
        let requestStore := RateLimit.recordRequest ip recorded cleanup requestStore in
        match handler event with
        | Normal response =>
            (Normal (addRateLimitHeaders response (one_less_remaining rateInfo)), requestStore)
        | Throw error => (Throw error, requestStore)
        end
  end.

End RateLimitMiddleware.

(** ** CORS (src/unnamed/part_001) *)

Module Cors.

(** The process environment, as far as the middleware reads it; [None]
    is an unset variable. *)
Record env := {
  ALLOWED_ORIGINS_var : option (list N);    (* [process.env.ALLOWED_ORIGINS] *)
  NODE_ENV : option (list N)
}.

(** [ALLOWED_ORIGINS] *)
Definition ALLOWED_ORIGINS (e : env) : list (list N) :=
  match ALLOWED_ORIGINS_var e with
  | Some (c :: r) => JS.trim <$> JS.split 44 (c :: r)
  | _ => [JS.lit "http://localhost:5173"; JS.lit "http://localhost:3000"]
  end.

(** [event.headers.origin || event.headers.Origin] *)
Definition origin_of (event : Event.t) : option (list N) :=
  RateLimit.or_str (Event.headers event !! JS.lit "origin")
                   (Event.headers event !! JS.lit "Origin").

(** [list.includes(origin)], [origin] a string or [undefined]. *)
Definition includes_origin (origins : list (list N)) (origin : option (list N)) : bool :=
  match origin with
  | Some o => existsb (JS.str_eqb o) origins
  | None => false
  end.

(** [process.env.NODE_ENV === 'development' && origin?.includes('localhost')] *)
Definition development_localhost (e : env) (origin : option (list N)) : bool :=
  match NODE_ENV e, origin with
  | Some mode, Some o => JS.str_eqb mode (JS.lit "development") && JS.includes o (JS.lit "localhost")
  | _, _ => false
  end.

(** [validateOrigin(event)] *)
Definition validateOrigin (e : env) (event : Event.t) : bool :=
  let origin := origin_of event in
  if development_localhost e origin then true
  else existsb (JS.str_eqb (JS.lit "*")) (ALLOWED_ORIGINS e) ||
       includes_origin (ALLOWED_ORIGINS e) origin.

(** [setCorsHeaders(event, headers)] *)
Definition setCorsHeaders (e : env) (event : Event.t) (headers : gmap (list N) (list N))
    : gmap (list N) (list N) :=
  let origin := origin_of event in
  let isAllowed :=
    existsb (JS.str_eqb (JS.lit "*")) (ALLOWED_ORIGINS e) ||
    includes_origin (ALLOWED_ORIGINS e) origin ||
    development_localhost e origin in
  let corsHeaders :=
    <[JS.lit "Vary" := JS.lit "Origin"]>
    (<[JS.lit "Access-Control-Max-Age" := JS.lit "86400"]>
    (<[JS.lit "Access-Control-Allow-Headers" :=
         JS.lit "Content-Type, Authorization, X-Requested-With"]>
    (<[JS.lit "Access-Control-Allow-Methods" := JS.lit "GET, POST, OPTIONS"]> headers))) in
  match origin with
  | Some (c :: r) =>
      if isAllowed then
        <[JS.lit "Access-Control-Allow-Credentials" := JS.lit "true"]>
        (<[JS.lit "Access-Control-Allow-Origin" := c :: r]> corsHeaders)
      else corsHeaders
  | _ => corsHeaders
  end.

(** [handlePreflight(event)] *)
Definition handlePreflight (e : env) (event : Event.t) : Response.t :=
  {| Response.statusCode := 200;
     Response.headers := setCorsHeaders e event ∅;
     Response.body := [] |}.

(** [withCors(handler)(event, context)] *)
Definition withCors (e : env) (handler : Event.t → completion Response.t) (event : Event.t)
    : Response.t :=
  if JS.str_eqb (Event.httpMethod event) (JS.lit "OPTIONS") then handlePreflight e event
  else
    match handler event with
    | Normal response =>
        {| Response.statusCode := Response.statusCode response;
           Response.headers := setCorsHeaders e event (Response.headers response);
           Response.body := Response.body response |}
    | Throw _ =>
        {| Response.statusCode := 500;
           Response.headers :=
             <[JS.lit "Content-Type" := JS.lit "application/json"]> (setCorsHeaders e event ∅);
           Response.body :=
             JS.qlit "{'error':{'type':'internal_error','message':'Error interno del servidor'}}" |}
    end.

End Cors.

(** ** Sanitizing (src/unnamed/part_002) *)

Module Sanitize.

(** The class [[\x00-\x08\x0B\x0C\x0E-\x1F\x7F]]. *)
Definition is_control (c : N) : bool :=
  (c <=? 0x08) || (c =? 0x0B) || (c =? 0x0C) || ((0x0E <=? c) && (c <=? 0x1F)) || (c =? 0x7F).

(** [sanitizeString(str)] *)
Definition sanitizeString (str : value) : value :=
  match str with
  | Str s => Str (List.filter (λ c, negb (is_control c)) s)
  | _ => str
  end.

End Sanitize.

(** ** Number values *)

(** The Number value of a decimal: binary64, round to nearest, ties to
    even. [Finite neg m e] is [(-1)^neg * m * 2^e]. *)
Module Double.

Local Open Scope Z_scope.

Inductive t :=
| Finite (neg : bool) (m : Z) (e : Z)
| Infinite (neg : bool).

(** The floor of the binary logarithm of [num / den], both positive. *)
Definition floor_log2 (num den : Z) : Z :=
  let e0 := Z.log2 num - Z.log2 den in
  let reached := if 0 <=? e0 then den * 2 ^ e0 <=? num else den <=? num * 2 ^ (- e0) in
  if reached then e0 else e0 - 1.

(** [a / b] to the nearest integer, a tie to the even one. *)
Definition round_half_even (a b : Z) : Z :=
  let q := a / b in
  let r := a mod b in
  if 2 * r <? b then q
  else if b <? 2 * r then q + 1
  else if Z.even q then q else q + 1.

Definition of_decimal (neg : bool) (mant : N) (exp : Z) : t :=
  if (mant =? 0)%N then Finite neg 0 0
  else
    let num := if 0 <=? exp then Z.of_N mant * 10 ^ exp else Z.of_N mant in
    let den := if 0 <=? exp then 1 else 10 ^ (- exp) in
    let s := Z.max (floor_log2 num den - 52) (-1074) in
    let m :=
      if 0 <=? s then round_half_even num (den * 2 ^ s)
      else round_half_even (num * 2 ^ (- s)) den in
    if m =? 0 then Finite neg 0 0
    else if 1024 <=? Z.log2 m + s then Infinite neg
    else Finite neg m s.

(** An integer in the safe range. *)
Definition of_Z (z : Z) : t := Finite (z <? 0) (Z.abs z) 0.

Definition signed (neg : bool) (m : Z) : Z := if neg then - m else m.

(** The order of the values; [-0] and [+0] are equal. *)
Definition compare (a b : t) : comparison :=
  match a, b with
  | Finite n1 m1 e1, Finite n2 m2 e2 =>
      let e := Z.min e1 e2 in
      Z.compare (signed n1 m1 * 2 ^ (e1 - e)) (signed n2 m2 * 2 ^ (e2 - e))
  | Finite _ _ _, Infinite nb => if nb then Gt else Lt
  | Infinite na, Finite _ _ _ => if na then Lt else Gt
  | Infinite na, Infinite nb =>
      if na then (if nb then Eq else Lt) else (if nb then Gt else Eq)
  end.

(** [a < b] and [a > b] *)
Definition ltb (a b : t) : bool :=
  match compare a b with Lt => true | _ => false end.

Definition gtb (a b : t) : bool :=
  match compare a b with Gt => true | _ => false end.

End Double.

(** ** Field and input validation (src/unnamed/part_002) *)

Module Validation.

Inductive type_name :=
| TString
| TNumber
| TBoolean
| TArray.

(** A field schema; an absent bound is [None], an absent default is
    [Undefined]. Every schema of the table has a [message]. *)
Record schema := {
  type : type_name;
  required : bool;
  enum : option (list (list N));
  message : list N;
  minLength : option Z;
  maxLength : option Z;
  minItems : option Z;
  maxItems : option Z;
  min : option Z;
  max : option Z;
  default : value
}.

Definition field (t : type_name) (req : bool) (msg : list N) : schema :=
  {| type := t; required := req; enum := None; message := msg;
     minLength := None; maxLength := None; minItems := None; maxItems := None;
     min := None; max := None; default := Undefined |}.

Definition with_enum (values : list (list N)) (s : schema) : schema :=
  {| type := type s; required := required s; enum := Some values; message := message s;
     minLength := minLength s; maxLength := maxLength s;
     minItems := minItems s; maxItems := maxItems s;
     min := min s; max := max s; default := default s |}.

Definition with_length (lo hi : Z) (s : schema) : schema :=
  {| type := type s; required := required s; enum := enum s; message := message s;
     minLength := Some lo; maxLength := Some hi;
     minItems := minItems s; maxItems := maxItems s;
     min := min s; max := max s; default := default s |}.

Definition with_items (lo hi : Z) (s : schema) : schema :=
  {| type := type s; required := required s; enum := enum s; message := message s;
     minLength := minLength s; maxLength := maxLength s;
     minItems := Some lo; maxItems := Some hi;
     min := min s; max := max s; default := default s |}.

Definition with_range (lo hi : Z) (s : schema) : schema :=
  {| type := type s; required := required s; enum := enum s; message := message s;
     minLength := minLength s; maxLength := maxLength s;
     minItems := minItems s; maxItems := maxItems s;
     min := Some lo; max := Some hi; default := default s |}.

Definition with_default (v : value) (s : schema) : schema :=
  {| type := type s; required := required s; enum := enum s; message := message s;
     minLength := minLength s; maxLength := maxLength s;
     minItems := minItems s; maxItems := maxItems s;
     min := min s; max := max s; default := v |}.

Definition providers : list (list N) :=
  [JS.lit "openai"; JS.lit "gemini"; JS.lit "anthropic"; JS.lit "azure"].

Definition sizes : list (list N) :=
  [JS.lit "1024x1024"; JS.lit "1792x1024"; JS.lit "1024x1792"].

Definition qualities : list (list N) := [JS.lit "standard"; JS.lit "hd"].

(** [VALIDATION_SCHEMAS.chat], its fields in the order of the literal. *)
Definition chat_schema : list (string * schema) :=
  [("provider"%string,
    with_enum providers
      (field TString true (JS.lit "Provider debe ser uno de: openai, gemini, anthropic, azure")));
   ("model"%string,
    with_length 1 100
      (field TString true (JS.lit "Model es requerido y debe tener entre 1 y 100 caracteres")));
   ("messages"%string,
    with_items 1 50
      (field TArray true (JS.lit "Messages debe ser un array con 1-50 elementos")));
   ("temperature"%string,
    with_default (Number false 7 (-1))
      (with_range 0 2 (field TNumber false (JS.lit "Temperature debe estar entre 0 y 2"))));
   ("stream"%string,
    with_default (Bool true) (field TBoolean false (JS.lit "Stream debe ser un boolean")))].

(** [VALIDATION_SCHEMAS.image] *)
Definition image_schema : list (string * schema) :=
  [("prompt"%string,
    with_length 1 4000
      (field TString true (JS.lit "Prompt es requerido y debe tener entre 1 y 4000 caracteres")));
   ("size"%string,
    with_default (Str (JS.lit "1024x1024"))
      (with_enum sizes
         (field TString false (JS.lit "Size debe ser uno de: 1024x1024, 1792x1024, 1024x1792"))));
   ("quality"%string,
    with_default (Str (JS.lit "standard"))
      (with_enum qualities (field TString false (JS.lit "Quality debe ser: standard o hd"))))].

(** The names every object inherits from [Object.prototype]: looked up
    in [VALIDATION_SCHEMAS] they give a function, or the prototype
    itself, which has no entries. *)
Definition inherited_names : list (list N) :=
  JS.lit <$> ("__proto__"%string :: Chat.Object_prototype_methods).

(** [VALIDATION_SCHEMAS[schemaName]], as the entries of what is found;
    [None] is [undefined]. *)
Definition VALIDATION_SCHEMAS (schemaName : list N) : option (list (string * schema)) :=
  if JS.str_eqb schemaName (JS.lit "chat") then Some chat_schema
  else if JS.str_eqb schemaName (JS.lit "image") then Some image_schema
  else if existsb (JS.str_eqb schemaName) inherited_names then Some []
  else None.

Inductive field_result :=
| FieldValid (value : value)        (* [{ isValid: true, value }] *)
| FieldInvalid (error : list N).    (* [{ isValid: false, error }] *)

Record input_result := {
  isValid : bool;
  data : option (list (string * value));   (* [validatedData], in insertion order *)
  errors : list (list N)
}.

Definition typeof_number (v : value) : bool :=
  match v with Number _ _ _ => true | _ => false end.

Definition typeof_boolean (v : value) : bool :=
  match v with Bool _ => true | _ => false end.

Definition isArray (v : value) : bool :=
  match v with Array _ => true | _ => false end.

(** [value.length] of a string or an array. *)
Definition length_of (v : value) : Z :=
  match v with
  | Str s => Z.of_nat (length s)
  | Array l => Z.of_nat (length l)
  | _ => 0
  end.

(** The Number value of a number. *)
Definition double_of (v : value) : Double.t :=
  match v with
  | Number neg mant exp => Double.of_decimal neg mant exp
  | _ => Double.Finite false 0 0
  end.

(** [n && ...]: a bound that is present and not zero. *)
Definition truthy_bound (n : option Z) : option Z :=
  match n with
  | Some 0%Z => None
  | _ => n
  end.

(** [a || b] on strings. *)
Definition or_text (a b : list N) : list N :=
  match a with
  | [] => b
  | _ => a
  end.

(** [list.includes(value)] for a list of strings. *)
Definition includes_value (values : list (list N)) (v : value) : bool :=
  match v with
  | Str s => existsb (JS.str_eqb s) values
  | _ => false
  end.

Definition says (fieldName rest : list N) : field_result :=
  FieldInvalid (fieldName ++ JS.lit ": " ++ rest).

Section WithToString.

(** ToString of the language, as template literals apply it to a value;
    it can throw for an object. *)
Variable ToString : value → completion (list N).

(** [validateField(value, schema, fieldName)] *)
Definition validateField (v : value) (s : schema) (fieldName : list N)
    : completion field_result :=
  match v with
  | Undefined | Null =>
      if required s then
        Normal (says fieldName (or_text (message s) (JS.lit "Campo requerido")))
      else Normal (FieldValid (default s))
  | _ =>
      let wrong_type :=
        match type s with
        | TString =>
            if Validate.typeof_string v then None else Some (JS.lit "debe ser un string")
        | TNumber =>
            if typeof_number v then None
            else Some (JS.lit "debe ser un n" ++ [0xFA] ++ JS.lit "mero")
        | TBoolean => if typeof_boolean v then None else Some (JS.lit "debe ser un boolean")
        | TArray => if isArray v then None else Some (JS.lit "debe ser un array")
        end in
      match wrong_type with
      | Some rest => Normal (says fieldName rest)
      | None =>
          let short :=
            match type s, truthy_bound (minLength s) with
            | TString, Some n => (length_of v <? n)%Z
            | _, _ => false
            end in
          let long :=
            match type s, truthy_bound (maxLength s) with
            | TString, Some n => (n <? length_of v)%Z
            | _, _ => false
            end in
          let below :=
            match type s, min s with
            | TNumber, Some n => Double.ltb (double_of v) (Double.of_Z n)
            | _, _ => false
            end in
          let above :=
            match type s, max s with
            | TNumber, Some n => Double.gtb (double_of v) (Double.of_Z n)
            | _, _ => false
            end in
          let few :=
            match type s, truthy_bound (minItems s) with
            | TArray, Some n => (length_of v <? n)%Z
            | _, _ => false
            end in
          let many :=
            match type s, truthy_bound (maxItems s) with
            | TArray, Some n => (n <? length_of v)%Z
            | _, _ => false
            end in
          let number n :=
            RateLimitMiddleware.Z_toString (match n with Some k => k | None => 0%Z end) in
          if short then
            Normal (says fieldName
              (JS.lit "debe tener al menos " ++ number (minLength s) ++ JS.lit " caracteres"))
          else if long then
            Normal (says fieldName
              (JS.lit "no puede tener m" ++ [0xE1] ++ JS.lit "s de " ++ number (maxLength s)
               ++ JS.lit " caracteres"))
          else if below then
            Normal (says fieldName (JS.lit "debe ser mayor o igual a " ++ number (min s)))
          else if above then
            Normal (says fieldName (JS.lit "debe ser menor o igual a " ++ number (max s)))
          else if few then
            Normal (says fieldName
              (JS.lit "debe tener al menos " ++ number (minItems s) ++ JS.lit " elementos"))
          else if many then
            Normal (says fieldName
              (JS.lit "no puede tener m" ++ [0xE1] ++ JS.lit "s de " ++ number (maxItems s)
               ++ JS.lit " elementos"))
          else
            match enum s with
            | Some values =>
                if includes_value values v then Normal (FieldValid v)
                else
                  match message s with
                  | [] =>
                      Validate.bindc (ToString v) (λ shown,
                        Normal (says fieldName
                          (shown ++ JS.lit " no es un valor v" ++ [0xE1] ++ JS.lit "lido")))
                  | msg => Normal (FieldInvalid msg)
                  end
            | None => Normal (FieldValid v)
            end
      end
  end.

(** The [for (const [fieldName, fieldSchema] of Object.entries(schema))]
    loop of [validateInput]. The field names of the two schemas are on
    no built-in prototype, so [get] reads [data[fieldName]]: [undefined]
    for a string, a number, a boolean or an array, a TypeError for
    [null] and [undefined]. *)
Fixpoint validate_fields (input : value) (fields : list (string * schema))
    (validatedData : list (string * value)) (errs : list (list N))
    : completion (list (string * value) * list (list N)) :=
  match fields with
  | [] => Normal (validatedData, errs)
  | (fieldName, fieldSchema) :: rest =>
      Validate.bindc (get input fieldName) (λ v,
      Validate.bindc (validateField v fieldSchema (JS.lit fieldName)) (λ result,
        match result with
        | FieldInvalid error => validate_fields input rest validatedData (errs ++ [error])
        | FieldValid Undefined => validate_fields input rest validatedData errs
        | FieldValid w => validate_fields input rest (validatedData ++ [(fieldName, w)]) errs
        end))
  end.

(** [validatedData[name]] and [validatedData[name] = v] for a name
    already there. *)
Definition data_get (name : string) (validatedData : list (string * value)) : option value :=
  snd <$> List.find (λ entry, String.eqb (fst entry) name) validatedData.

Definition data_set (name : string) (v : value) (validatedData : list (string * value))
    : list (string * value) :=
  (λ entry, if String.eqb (fst entry) name then (name, v) else entry) <$> validatedData.

(** The validated messages as the array of objects they are. *)
Definition wire_value (w : Wire.t) : value :=
  Object [(JS.lit "role", Str (Wire.role w)); (JS.lit "content", Str (Wire.content w))].

(** [validateInput(data, schemaName)] *)
Definition validateInput (input : value) (schemaName : list N) : completion input_result :=
  match VALIDATION_SCHEMAS schemaName with
  | None =>
      Normal {| isValid := false; data := None;
                errors := [JS.lit "Esquema de validaci" ++ [0xF3] ++ JS.lit "n '" ++ schemaName
                           ++ JS.lit "' no encontrado"] |}
  | Some fields =>
      Validate.bindc (validate_fields input fields [] []) (λ '(validatedData, errs),
        let checked :=
          match JS.str_eqb schemaName (JS.lit "chat"), data_get "messages" validatedData with
          | true, Some messages =>
              if truthy messages then
                Validate.bindc (Validate.validateMessages messages) (λ messageValidation,
                  match messageValidation with
                  | Validate.Invalid error => Normal (validatedData, errs ++ [error])
                  | Validate.Valid validated =>
                      Normal (data_set "messages" (Array (wire_value <$> validated)) validatedData,
                              errs)
                  end)
              else Normal (validatedData, errs)
          | _, _ => Normal (validatedData, errs)
          end in
        Validate.bindc checked (λ '(validatedData, errs),
          Normal {| isValid := match errs with [] => true | _ => false end;
                    data := Some validatedData;
                    errors := errs |}))
  end.

End WithToString.

End Validation.

(** ** JSON text of strings *)

(** [JSON.stringify] on strings and arrays of strings, after
    QuoteJSONString of ECMA-262: the two-character escapes, [\uXXXX] for
    the other control characters and for lone surrogates, everything
    else as it is. *)
Module JSONText.

Definition hex_char (d : N) : N := if d <? 10 then 48 + d else 87 + d.

(** [\uXXXX], lower case. *)
Definition unicode_escape (c : N) : list N :=
  [92; 117; hex_char (c / 4096 mod 16); hex_char (c / 256 mod 16);
   hex_char (c / 16 mod 16); hex_char (c mod 16)].

Definition is_high_surrogate (c : N) : bool := (0xD800 <=? c) && (c <=? 0xDBFF).
Definition is_low_surrogate (c : N) : bool := (0xDC00 <=? c) && (c <=? 0xDFFF).

(** The characters of a string inside its JSON quotes. *)
Fixpoint escape (s : list N) : list N :=
  match s with
  | [] => []
  | c :: r =>
      if c =? 8 then [92; 98] ++ escape r
      else if c =? 9 then [92; 116] ++ escape r
      else if c =? 10 then [92; 110] ++ escape r
      else if c =? 12 then [92; 102] ++ escape r
      else if c =? 13 then [92; 114] ++ escape r
      else if c =? 34 then [92; 34] ++ escape r
      else if c =? 92 then [92; 92] ++ escape r
      else if c <? 0x20 then unicode_escape c ++ escape r
      else if is_high_surrogate c then
        match r with
        | d :: r' =>
            if is_low_surrogate d then c :: d :: escape r'
            else unicode_escape c ++ escape r
        | [] => unicode_escape c
        end
      else if is_low_surrogate c then unicode_escape c ++ escape r
      else c :: escape r
  end.

(** [JSON.stringify(s)] for a string. *)
Definition quote (s : list N) : list N := [34] ++ escape s ++ [34].

(** [JSON.stringify(list)] for an array of strings. *)
Definition quote_all (strings : list (list N)) : list N :=
  [91] ++
  match strings with
  | [] => []
  | s :: rest => quote s ++ concat ((λ t, [44] ++ quote t) <$> rest)
  end
  ++ [93].

End JSONText.

(** ** The validation wrapper (src/unnamed/part_002) *)

Module ValidationMiddleware.

(** [validationErrorResponse(errors)] *)
Definition validationErrorResponse (errors : list (list N)) : Response.t :=
  {| Response.statusCode := 400;
     Response.headers := {[ JS.lit "Content-Type" := JS.lit "application/json" ]};
     Response.body :=
       JS.qlit "{'error':{'type':'validation_error','message':'Datos de entrada no v"
       ++ [0xE1] ++ JS.qlit "lidos','details':" ++ JSONText.quote_all errors ++ JS.lit "}}" |}.

(** [withValidation(handler, schemaName)(event, context)]; the handler
    is given the event and its [validatedData]. *)
Definition withValidation (ToString : value → completion (list N))
    (handler : Event.t → option (list (string * value)) → completion Response.t)
    (schemaName : list N) (event : Event.t) : completion Response.t :=
  let parsed :=
    match Event.body event with
    | Some (c :: r) =>
        match JSON.parse (c :: r) with
        | Some input => inl input
        | None => inr (validationErrorResponse [JS.lit "Body debe ser JSON v" ++ [0xE1] ++ JS.lit "lido"])
        end
    | _ => inl (Object [])
    end in
  match parsed with
  | inr response => Normal response
  | inl input =>
      Validate.bindc (Validation.validateInput ToString input schemaName) (λ validation,
        if negb (Validation.isValid validation) then
          Normal (validationErrorResponse (Validation.errors validation))
        else handler event (Validation.data validation))
  end.

End ValidationMiddleware.

(** ** BaseProvider (apps/api/providers/BaseProvider.js) *)

Module BaseProvider.

(** A message as [validateParams] and [filterValidMessages] read it: an
    object with any [role] and any [content], and the truthiness of its
    [isError]. *)
Record message := { role : value; content : value; isError : bool }.

(** The parameters [validateParams] reads: [model] a string, [messages]
    an array of messages, [temperature] a number (not NaN) or
    [undefined]. *)
Record params := {
  model : list N;
  messages : list message;
  temperature : option Double.t
}.

(** [v.toString().trim() === ''], for a value [JSON.parse] builds that
    is neither [undefined] nor [null], and for the elements of its
    arrays. The string of a boolean is [true] or [false] and that of a
    number has a digit, or is [NaN] or [Infinity]: never blank. The
    string of an array is its elements' strings joined by commas,
    an element [undefined] or [null] written as the empty string
    ([Array.prototype.join]): with two elements or more it holds a
    comma. The string of an object is [[object Object]], unless the
    object has a property [toString] of its own: [JSON.parse] never
    makes that a function, and the conversion throws a TypeError. *)
Fixpoint blank (v : value) : completion bool :=
  match v with
  | Undefined | Null => Normal true
  | Bool _ | Number _ _ _ => Normal false
  | Str s => Normal (JS.str_eqb (JS.trim s) [])
  | Array elements =>
      Validate.bindc
        ((fix each (l : list value) : completion bool :=
            match l with
            | [] => Normal true
            | x :: r =>
                Validate.bindc (blank x) (λ b,
                Validate.bindc (each r) (λ bs, Normal (b && bs)))
            end) elements)
        (λ every, Normal (every && (length elements <=? 1)%nat))
  | Object fields =>
      match field (JS.lit "toString") fields with
      | Some _ => Throw TypeError
      | None => Normal false
      end
  end.

(** The callback of the filter:
    [!msg.isError && msg.content !== undefined && msg.content !== null
     && msg.content.toString().trim() !== ''] *)
Definition is_valid (msg : message) : completion bool :=
  if isError msg then Normal false
  else
    match content msg with
    | Undefined | Null => Normal false
    | c => Validate.bindc (blank c) (λ b, Normal (negb b))
    end.

(** [filterValidMessages(messages)]; a TypeError of the callback ends
    the filter. *)
Fixpoint filterValidMessages (messages : list message) : completion (list message) :=
  match messages with
  | [] => Normal []
  | msg :: rest =>
      Validate.bindc (is_valid msg) (λ keep,
      Validate.bindc (filterValidMessages rest) (λ valid,
        Normal (if keep then msg :: valid else valid)))
  end.

(** The [forEach] of [validateParams], from index [index] on. *)
Fixpoint each_has_role_and_content (index : nat) (validMessages : list message)
    : completion unit :=
  match validMessages with
  | [] => Normal tt
  | msg :: rest =>
      if negb (truthy (role msg)) || negb (truthy (content msg)) then
        Throw (Error (Str (JS.lit "Mensaje " ++ JS.lit (NilEmpty.string_of_uint (Nat.to_uint index))
                           ++ JS.qlit ": debe tener 'role' y 'content'")))
      else each_has_role_and_content (S index) rest
  end.

(** [validateParams(params)] *)
Definition validateParams (p : params) : completion unit :=
  if negb (truthy (Str (model p))) then
    Throw (Error (Str (JS.lit "El par" ++ [0xE1] ++ JS.qlit "metro 'model' es requerido")))
  else
    match messages p with
    | [] =>
        Throw (Error (Str (JS.lit "El par" ++ [0xE1]
                           ++ JS.qlit "metro 'messages' debe ser un array no vac" ++ [0xED]
                           ++ JS.lit "o")))
    | _ =>
        let out_of_range :=
          match temperature p with
          | Some t => Double.ltb t (Double.of_Z 0) || Double.gtb t (Double.of_Z 2)
          | None => false
          end in
        if out_of_range then
          Throw (Error (Str (JS.lit "El par" ++ [0xE1]
                             ++ JS.qlit "metro 'temperature' debe estar entre 0 y 2")))
        else
          Validate.bindc (filterValidMessages (messages p)) (λ validMessages,
            match validMessages with
            | [] =>
                Throw (Error (Str (JS.lit "No hay mensajes v" ++ [0xE1]
                                   ++ JS.lit "lidos para procesar")))
            | _ => each_has_role_and_content 0 validMessages
            end)
    end.

(** [formatMessages(messages)], the default the providers override. *)
Definition formatMessages (messages : list Message.t) : list Wire.t := wire <$> messages.

End BaseProvider.

(** ** AzureImageProvider (apps/api/providers/azure-image.js) *)

Module AzureImageProvider.

Definition validSizes : list (list N) :=
  [JS.lit "1024x1024"; JS.lit "1792x1024"; JS.lit "1024x1792"].

Definition validQualities : list (list N) := [JS.lit "standard"; JS.lit "hd"].

(** [`${x}`] for a string or [undefined]. *)
Definition shown (x : option (list N)) : list N :=
  match x with
  | Some s => s
  | None => JS.lit "undefined"
  end.

(** [list.includes(x)] for a string or [undefined]. *)
Definition includes_opt (values : list (list N)) (x : option (list N)) : bool :=
  match x with
  | Some s => existsb (JS.str_eqb s) values
  | None => false
  end.

(** [validateParams({ prompt, size, quality })]: [prompt] any value,
    [size] and [quality] strings or [undefined]. *)
Definition validateParams (prompt : value) (size quality : option (list N)) : completion unit :=
  if negb (truthy prompt) || negb (Validate.typeof_string prompt) then
    Throw (Error (Str (JS.lit "El prompt es requerido y debe ser un string")))
  else if (Validation.length_of prompt <? 1)%Z then
    Throw (Error (Str (JS.lit "El prompt no puede estar vac" ++ [0xED] ++ JS.lit "o")))
  else if (4000 <? Validation.length_of prompt)%Z then
    Throw (Error (Str (JS.lit "El prompt no puede tener m" ++ [0xE1]
                       ++ JS.lit "s de 4000 caracteres")))
  else if negb (includes_opt validSizes size) then
    Throw (Error (Str (JS.lit "Tama" ++ [0xF1] ++ JS.lit "o no v" ++ [0xE1] ++ JS.lit "lido: "
                       ++ shown size ++ JS.lit ". Tama" ++ [0xF1]
                       ++ JS.lit "os disponibles: 1024x1024, 1792x1024, 1024x1792")))
  else if negb (includes_opt validQualities quality) then
    Throw (Error (Str (JS.lit "Calidad no v" ++ [0xE1] ++ JS.lit "lida: " ++ shown quality
                       ++ JS.lit ". Calidades disponibles: standard, hd")))
  else Normal tt.

End AzureImageProvider.

(** ** Vocabulary for validated input *)

(** A number lies between two integers, as the Number values they are. *)
Definition number_between (lo hi : Z) (v : value) : Prop :=
  Double.ltb (Validation.double_of v) (Double.of_Z lo) = false ∧
  Double.gtb (Validation.double_of v) (Double.of_Z hi) = false.

(** [undefined] and [null] *)
Definition nullish (v : value) : bool :=
  match v with
  | Undefined | Null => true
  | _ => false
  end.

(** What a field given as [given] is validated to when it is optional
    with default [dflt]. *)
Definition or_default (given dflt : value) : value :=
  if nullish given then dflt else given.

(** A length or count within the bounds of a schema that are present and
    not zero. *)
Definition within (lo hi : option Z) (n : Z) : Prop :=
  (∀ k, Validation.truthy_bound lo = Some k → (k ≤ n)%Z) ∧
  (∀ k, Validation.truthy_bound hi = Some k → (n ≤ k)%Z).

(** A value that is there has the type, the size and the range of a
    field schema, and is one of its [enum] if it has one. *)
Definition conforms (s : Validation.schema) (v : value) : Prop :=
  match Validation.type s, v with
  | Validation.TString, Str str =>
      within (Validation.minLength s) (Validation.maxLength s) (Z.of_nat (length str))
  | Validation.TNumber, Number _ _ _ =>
      (∀ k, Validation.min s = Some k →
            Double.ltb (Validation.double_of v) (Double.of_Z k) = false) ∧
      (∀ k, Validation.max s = Some k →
            Double.gtb (Validation.double_of v) (Double.of_Z k) = false)
  | Validation.TBoolean, Bool _ => True
  | Validation.TArray, Array l =>
      within (Validation.minItems s) (Validation.maxItems s) (Z.of_nat (length l))
  | _, _ => False
  end ∧
  ∀ values, Validation.enum s = Some values → Validation.includes_value values v = true.

(** The entries and the errors the loop of [validateInput] adds for the
    results of the fields, in order. *)
Definition entries_of (results : list (string * Validation.field_result))
    : list (string * value) :=
  omap (λ '(name, result),
          match result with
          | Validation.FieldValid Undefined => None
          | Validation.FieldValid w => Some (name, w)
          | Validation.FieldInvalid _ => None
          end) results.

Definition errors_of (results : list (string * Validation.field_result)) : list (list N) :=
  omap (λ '(_, result),
          match result with
          | Validation.FieldValid _ => None
          | Validation.FieldInvalid error => Some error
          end) results.

(** The result of [validateField] for a field of the input. *)
Definition field_checked (ToString : value → completion (list N)) (input : value)
    (field : string * Validation.schema) (result : string * Validation.field_result) : Prop :=
  fst result = fst field ∧
  ∃ v, get input (fst field) = Normal v ∧
       Validation.validateField ToString v (snd field) (JS.lit (fst field)) = Normal (snd result).

(** A message of the input and what [validateMessages] makes of it: the
    role as it is, one of the three, and the content, not empty and of
    at most 10000 code units, trimmed. *)
Definition validated_as (message : value) (w : Wire.t) : Prop :=
  get message "role" = Normal (Str (Wire.role w)) ∧
  Wire.role w ∈ Validate.validRoles ∧
  ∃ content,
    get message "content" = Normal (Str content) ∧
    content ≠ [] ∧ (Z.of_nat (length content) ≤ 10000)%Z ∧
    Wire.content w = JS.trim content.

(** The object [validationErrorResponse] writes as its body. *)
Definition validation_error (errors : list (list N)) : value :=
  Object [(JS.lit "error",
           Object [(JS.lit "type", Str (JS.lit "validation_error"));
                   (JS.lit "message",
                    Str (JS.lit "Datos de entrada no v" ++ [0xE1] ++ JS.lit "lidos"));
                   (JS.lit "details", Array (Str <$> errors))])].

(** The validated data of a chat request: the five fields, in the order
    of the schema, within the limits of the schema, the messages with
    roles of the three. *)
Definition chat_request (validatedData : option (list (string * value))) : Prop :=
  ∃ provider model messages temperature stream,
    validatedData =
      Some [("provider"%string, Str provider); ("model"%string, Str model);
            ("messages"%string, Array (Validation.wire_value <$> messages));
            ("temperature"%string, temperature); ("stream"%string, Bool stream)] ∧
    provider ∈ Validation.providers ∧
    (1 ≤ Z.of_nat (length model) ≤ 100)%Z ∧
    (1 ≤ Z.of_nat (length messages) ≤ 50)%Z ∧
    Forall role_valid messages ∧
    Validation.typeof_number temperature = true ∧ number_between 0 2 temperature.

(** ** Vocabulary for the providers' own checks *)

(** A message [filterValidMessages] keeps: not flagged as an error, its
    content neither [undefined] nor [null], the string of its content
    not blank. *)
Definition kept (m : BaseProvider.message) : Prop :=
  BaseProvider.is_valid m = Normal true.

(** A message the filter can read: the callback does not throw. *)
Definition readable (m : BaseProvider.message) : Prop :=
  ∃ keep, BaseProvider.is_valid m = Normal keep.

(** A validated message as a provider receives it: role and content are
    strings, and it carries no [isError] flag. *)
Definition received (w : Wire.t) : BaseProvider.message :=
  {| BaseProvider.role := Str (Wire.role w);
     BaseProvider.content := Str (Wire.content w);
     BaseProvider.isError := false |}.

(** A temperature in the range [validateParams] lets through. *)
Definition temperature_in_range (temperature : option Double.t) : Prop :=
  match temperature with
  | Some t => Double.ltb t (Double.of_Z 0) = false ∧ Double.gtb t (Double.of_Z 2) = false
  | None => True
  end.

(** ** Vocabulary for the Gemini format *)

(** The entry Gemini's [formatMessages] pushes for a message. *)
Definition gemini_entry (m : Message.t) : GeminiFormat.entry :=
  {| GeminiFormat.role := gemini_role (Message.role m);
     GeminiFormat.parts := [{| GeminiFormat.text := Message.content m |}] |}.

(** The text of the first entry: the content of the first message passed
    on, after the content of the first system message if there is one
    and the message is from the user. *)
Definition gemini_first_text (messages : list Message.t) (first : Message.t) : list N :=
  match List.find is_system messages with
  | Some systemMessage =>
      if JS.str_eqb (Message.role first) (JS.lit "user") then
        GeminiFormat.with_system (Message.content systemMessage) (Message.content first)
      else Message.content first
  | None => Message.content first
  end.


(** ** The stream reader of the web client (apps/web/src/services/api.js) *)

Module APIService.

(** The reader yields objects. A run of the generator: the objects
    yielded, in order, and how it completed. *)
Definition run (A : Type) : Type := list value * completion A.

Definition ret {A} (a : A) : run A := ([], Normal a).

Definition bind {A B} (m : run A) (f : A → run B) : run B :=
  match m with
  | (evs, Normal a) => let '(evs', r) := f a in (evs ++ evs', r)
  | (evs, Throw e) => (evs, Throw e)
  end.

Definition yield (e : value) : run unit := ([e], Normal tt).

Definition lift {A} (c : completion A) : run A := ([], c).

(** [try { m } catch (e) { handler e }] *)
Definition try_catch {A} (m : run A) (handler : error → run A) : run A :=
  match m with
  | (evs, Throw e) => let '(evs', r) := handler e in (evs ++ evs', r)
  | (evs, Normal a) => (evs, Normal a)
  end.

Fixpoint for_of (body : list N → run control) (lines : list (list N)) : run control :=
  match lines with
  | [] => ret Next
  | line :: rest =>
      bind (body line) (λ c,
        match c with
        | Next => for_of body rest
        | Return => ret Return
        end)
  end.

(** The [while (true)] loop of [readStreamingResponse]; [chunks] are the
    values the reader delivers before it reports [done], at which the
    loop is left by [break]. *)
Fixpoint read_loop (body : list N → run control)
    (decoder : TextDecoder.t) (buffer : list N) (chunks : list (list Byte.byte)) : run unit :=
  match chunks with
  | [] => ret tt
  | value :: rest =>
      let '(decoder, text) := TextDecoder.decode decoder value in
      let buffer := buffer ++ text in
      let '(lines, last) := JS.pop (JS.split 10 buffer) in
      let buffer := JS.or_empty last in
      bind (for_of body lines) (λ c,
        match c with
        | Next => read_loop body decoder buffer rest
        | Return => ret tt
        end)
  end.

(** [{ type, <name>: v, provider }] *)
Definition typed_event (type : string) (name : string) (v provider : value) : value :=
  Object [(JS.lit "type", Str (JS.lit type)); (JS.lit name, v); (JS.lit "provider", provider)].

(** The body of [for (const line of lines)]. The property names read
    ([type], [delta], [content], [provider], [metadata], [error]) are on
    no built-in prototype, so [get] reads them. *)
Definition line_body (line : list N) : run control :=
  if JS.startsWith line (JS.lit "data: ") then
    let data := JS.slice 6 line in
    if JS.str_eqb data (JS.lit "[DONE]") then ret Return
    else
      try_catch
        (bind (lift (JSON_parse data)) (λ parsed,
         bind (lift (get parsed "type")) (λ type,
           if is_string type "content" then
             bind (lift (get parsed "delta")) (λ delta,
             bind (lift (get parsed "content")) (λ content,
             bind (lift (get parsed "provider")) (λ provider,
             bind (yield (typed_event "content" "content"
                            (or_else (or_else delta content) (Str [])) provider)) (λ _,
             ret Next))))
           else if is_string type "metadata" then
             bind (lift (get parsed "metadata")) (λ metadata,
             bind (lift (get parsed "provider")) (λ provider,
             bind (yield (typed_event "metadata" "metadata" metadata provider)) (λ _,
             ret Next)))
           else if is_string type "error" then
             bind (lift (get parsed "error")) (λ error,
             bind (lift (get parsed "provider")) (λ provider,
             bind (yield (typed_event "error" "error" error provider)) (λ _,
             ret Next)))
           else if is_string type "done" then
             bind (lift (get parsed "metadata")) (λ metadata,
             bind (lift (get parsed "provider")) (λ provider,
             bind (yield (typed_event "done" "metadata" metadata provider)) (λ _,
             ret Return)))
           else bind (yield parsed) (λ _, ret Next))))
        (λ _, ret Next)
  else ret Next.

(** [APIService.readStreamingResponse(stream)] *)
Definition readStreamingResponse (stream : list (list Byte.byte)) : run unit :=
  read_loop line_body TextDecoder.new [] stream.

End APIService.

(** ** Vocabulary for the client's events *)

(** An event that closes the stream: an object whose [type] is the
    string [done]. *)
Definition is_done_event (e : value) : bool :=
  match get e "type" with
  | Normal type => is_string type "done"
  | Throw _ => false
  end.

(** A line is the end marker of the client: [data: [DONE]], to the
    letter. *)
Definition is_client_DONE_line (line : list N) : bool :=
  JS.str_eqb line (JS.lit "data: [DONE]").

(** Events of which only the last may close the stream. *)
Definition done_only_last (evs : list value) : Prop :=
  ∀ before e after, evs = before ++ e :: after → is_done_event e = true → after = [].

(** What one pass of the client's loop body may do: yield at most one
    event; go on after an event that does not close the stream, or
    return, after a closing event or at the marker. *)
Definition client_line_shaped (r : APIService.run control) : Prop :=
  r = ([], Normal Next) ∨ r = ([], Normal Return) ∨
  (∃ e, is_done_event e = false ∧ r = ([e], Normal Next)) ∨
  (∃ e, is_done_event e = true ∧ r = ([e], Normal Return)).

(** * Properties *)

Example split_ex : JS.split 10 (JS.lit "a" ++ [10] ++ JS.lit "bc" ++ [10]) = [JS.lit "a"; JS.lit "bc"; []].
Proof. reflexivity. Qed.

Example trim_ex : JS.trim (JS.lit "  x y ") = JS.lit "x y".
Proof. reflexivity. Qed.

Example decode_ex :
  snd (TextDecoder.decode TextDecoder.new (JS.qbytes "data: 'x'")) = JS.qlit "data: 'x'".
Proof. vm_compute. reflexivity. Qed.

Example decode_euro_and_emoji :
  snd (TextDecoder.decode TextDecoder.new
         [Byte.xe2; Byte.x82; Byte.xac; Byte.xf0; Byte.x9f; Byte.x98; Byte.x80]) =
  [0x20AC; 0xD83D; 0xDE00].
Proof. vm_compute. reflexivity. Qed.

Example decode_held_over_the_chunk_boundary :
  let '(d, text1) := TextDecoder.decode TextDecoder.new [Byte.xe2; Byte.x82] in
  (text1, snd (TextDecoder.decode d [Byte.xac])) = ([], [0x20AC]).
Proof. vm_compute. reflexivity. Qed.

Example decode_invalid_and_BOM :
  snd (TextDecoder.decode TextDecoder.new [Byte.xef; Byte.xbb; Byte.xbf; Byte.x61; Byte.xff; Byte.xc3; Byte.x28]) =
  [0x61; 0xFFFD; 0xFFFD; 0x28].
Proof. vm_compute. reflexivity. Qed.

Example parse_ex1 :
  JSON.parse (JS.qlit "{'choices':[{'delta':{'content':'Hi'}}], 'n': -1.50e2}") =
  Some (Object [(JS.lit "choices",
                 Array [Object [(JS.lit "delta", Object [(JS.lit "content", Str (JS.lit "Hi"))])]]);
                (JS.lit "n", Number true 150 0)]).
Proof. vm_compute. reflexivity. Qed.

Example parse_ex2 : JSON.parse (JS.lit "[1, 2,]") = None.
Proof. vm_compute. reflexivity. Qed.

Example parse_ex3 : JSON.parse (JS.lit "[DONE") = None.
Proof. vm_compute. reflexivity. Qed.

Example parse_ex4 : JSON.parse (JS.qlit " [ ] ") = Some (Array []).
Proof. vm_compute. reflexivity. Qed.

Example parse_ex5 : JSON.parse (JS.qlit "'aA\n'") = Some (Str [97; 65; 10]).
Proof. vm_compute. reflexivity. Qed.

Example openai_ex :
  OpenAIProvider.processStream
    [JS.qbytes "data: {'choices':[{'delta':{'con"; JS.qbytes "tent':'Hi'}}]}" ++ [Byte.x0a] ++ JS.qbytes "data: [DONE]" ++ [Byte.x0a]]
  = ([Delta (Str (JS.lit "Hi")); Done], Normal tt).
Proof. vm_compute. reflexivity. Qed.

(** ** Lines of a buffer *)

Lemma split_not_nil sep s : JS.split sep s ≠ [].
Proof.
  destruct s as [|c r]; simpl; [done|].
  destruct (c =? sep); [done|]. by destruct (JS.split sep r).
Qed.

Lemma or_empty_Some s : JS.or_empty (Some s) = s.
Proof. by destruct s. Qed.

Lemma complete_lines_nil : complete_lines [] = [].
Proof. reflexivity. Qed.

Lemma held_back_nil : held_back [] = [].
Proof. reflexivity. Qed.

Lemma lines_cons_newline r :
  complete_lines (10 :: r) = [] :: complete_lines r ∧ held_back (10 :: r) = held_back r.
Proof.
  unfold complete_lines, held_back, JS.pop. simpl.
  pose proof (split_not_nil 10 r) as Hne.
  destruct (JS.split 10 r) as [|l ls]; [done|]. done.
Qed.

Lemma lines_cons_other c r :
  c ≠ 10 →
  complete_lines (c :: r) =
    match complete_lines r with
    | [] => []
    | l :: ls => (c :: l) :: ls
    end ∧
  held_back (c :: r) =
    match complete_lines r with
    | [] => c :: held_back r
    | _ => held_back r
    end.
Proof.
  intros Hc. unfold complete_lines, held_back, JS.pop. simpl.
  apply N.eqb_neq in Hc. rewrite Hc.
  pose proof (split_not_nil 10 r) as Hne.
  destruct (JS.split 10 r) as [|l ls]; [done|].
  destruct ls as [|l' ls]; simpl; [by destruct l|]. done.
Qed.

(** Appending to a buffer: the lines already complete stay, and the rest
    is what the held-back part and the new text give. *)
Lemma lines_app s t :
  complete_lines (s ++ t) = complete_lines s ++ complete_lines (held_back s ++ t) ∧
  held_back (s ++ t) = held_back (held_back s ++ t).
Proof.
  induction s as [|c r [IHc IHh]]; [done|].
  destruct (decide (c = 10)) as [->|Hc].
  - destruct (lines_cons_newline r) as [-> ->].
    destruct (lines_cons_newline (r ++ t)) as [Hc' Hh'].
    simpl. rewrite Hc', Hh', IHc, IHh. done.
  - destruct (lines_cons_other c r Hc) as [Hc1 Hh1].
    destruct (lines_cons_other c (r ++ t) Hc) as [Hc2 Hh2].
    simpl. rewrite Hc2, Hh2, Hc1, Hh1, IHc, IHh.
    destruct (complete_lines r) as [|l ls]; simpl.
    + destruct (lines_cons_other c (held_back r ++ t) Hc) as [-> ->]. done.
    + done.
Qed.

(** ** The decoder of a stream of chunks is the decoder of its bytes *)

Lemma run_app st a b :
  TextDecoder.run st (a ++ b) =
    (fst (TextDecoder.run (fst (TextDecoder.run st a)) b),
     snd (TextDecoder.run st a) ++ snd (TextDecoder.run (fst (TextDecoder.run st a)) b)).
Proof.
  revert st. induction a as [|x a IH]; intros st; simpl.
  - by destruct (TextDecoder.run st b).
  - destruct (TextDecoder.handler st x) as [st1 out1]. rewrite IH.
    destruct (TextDecoder.run st1 a) as [st2 out2]. simpl.
    by rewrite app_assoc.
Qed.

Lemma serialize_app seen x y :
  TextDecoder.serialize seen (x ++ y) =
    (fst (TextDecoder.serialize (fst (TextDecoder.serialize seen x)) y),
     snd (TextDecoder.serialize seen x) ++
     snd (TextDecoder.serialize (fst (TextDecoder.serialize seen x)) y)).
Proof.
  destruct x as [|c r]; simpl.
  - by destruct (TextDecoder.serialize seen y).
  - destruct y as [|c' y].
    + rewrite app_nil_r. destruct seen; simpl; by rewrite app_nil_r.
    + destruct seen; simpl; rewrite fmap_app, concat_app; simpl;
        by rewrite <- ?app_assoc.
Qed.

Lemma decode_eq d v :
  TextDecoder.decode d v =
    ({| TextDecoder.decoder := fst (TextDecoder.run (TextDecoder.decoder d) v);
        TextDecoder.BOM_seen :=
          fst (TextDecoder.serialize (TextDecoder.BOM_seen d)
                 (snd (TextDecoder.run (TextDecoder.decoder d) v))) |},
     snd (TextDecoder.serialize (TextDecoder.BOM_seen d)
            (snd (TextDecoder.run (TextDecoder.decoder d) v)))).
Proof.
  unfold TextDecoder.decode.
  destruct (TextDecoder.run (TextDecoder.decoder d) v) as [st o]. simpl.
  by destruct (TextDecoder.serialize (TextDecoder.BOM_seen d) o).
Qed.

Lemma decode_app d a b :
  TextDecoder.decode d (a ++ b) =
    (fst (TextDecoder.decode (fst (TextDecoder.decode d a)) b),
     snd (TextDecoder.decode d a) ++ snd (TextDecoder.decode (fst (TextDecoder.decode d a)) b)).
Proof.
  rewrite !decode_eq. cbn [fst snd TextDecoder.decoder TextDecoder.BOM_seen].
  rewrite run_app. cbn [fst snd]. rewrite serialize_app. reflexivity.
Qed.

(** ** Laws of the generator monad *)

Lemma bind_ret_l {A B} (a : A) (f : A → gen B) : bind (ret a) f = f a.
Proof. unfold bind, ret. by destruct (f a). Qed.

Lemma bind_assoc {A B C} (m : gen A) (f : A → gen B) (g : B → gen C) :
  bind (bind m f) g = bind m (λ a, bind (f a) g).
Proof.
  destruct m as [evs [a|e]]; simpl; [|done].
  destruct (f a) as [evs1 [b|e]]; simpl; [|done].
  destruct (g b) as [evs2 r]. by rewrite app_assoc.
Qed.

Lemma for_of_app body l1 l2 :
  for_of body (l1 ++ l2) =
    bind (for_of body l1)
         (λ c, match c with Next => for_of body l2 | Return => ret Return end).
Proof.
  induction l1 as [|line l1 IH].
  - exact (eq_sym (bind_ret_l Next _)).
  - cbn [app for_of]. rewrite bind_assoc.
    destruct (body line) as [evs [[|]|e]]; cbn [bind]; [|done|done].
    by rewrite IH.
Qed.

Lemma read_loop_cons body at_end d buffer value rest :
  read_loop body at_end d buffer (value :: rest) =
    bind (for_of body (complete_lines (buffer ++ snd (TextDecoder.decode d value))))
         (λ c, match c with
               | Next => read_loop body at_end (fst (TextDecoder.decode d value))
                           (held_back (buffer ++ snd (TextDecoder.decode d value))) rest
               | Return => ret tt
               end).
Proof.
  simpl. destruct (TextDecoder.decode d value) as [d' text]. reflexivity.
Qed.

(** Two consecutive reads decode as one read of their concatenation. *)
Lemma read_loop_merge body at_end d buffer a b rest :
  read_loop body at_end d buffer (a :: b :: rest) =
  read_loop body at_end d buffer ((a ++ b) :: rest).
Proof.
  rewrite (read_loop_cons _ _ _ _ (a ++ b)), decode_app. cbn [fst snd].
  rewrite app_assoc.
  destruct (lines_app (buffer ++ snd (TextDecoder.decode d a))
              (snd (TextDecoder.decode (fst (TextDecoder.decode d a)) b))) as [-> ->].
  rewrite for_of_app, bind_assoc, read_loop_cons.
  destruct (for_of body (complete_lines (buffer ++ snd (TextDecoder.decode d a))))
    as [evs [[|]|e]]; cbn [bind]; [|done|done].
  by rewrite read_loop_cons.
Qed.

(** Any chunking of a byte sequence decodes as the sequence in one chunk,
    when there is at least one chunk. *)
Lemma read_loop_concat body at_end d buffer a rest :
  read_loop body at_end d buffer (a :: rest) =
  read_loop body at_end d buffer [a ++ concat rest].
Proof.
  revert a. induction rest as [|b rest IH]; intros a; simpl concat.
  - by rewrite app_nil_r.
  - by rewrite read_loop_merge, IH, app_assoc.
Qed.

(** ** Shape of what the decoders yield *)

Ltac gen_step := cbn [bind lift ret yield try_catch throw app fst snd].

Ltac gen_case :=
  match goal with
  | |- context [JS.startsWith ?a ?b] => destruct (JS.startsWith a b)
  | |- context [JS.str_eqb ?a ?b] => destruct (JS.str_eqb a b)
  | |- context [JSON_parse ?a] => destruct (JSON_parse a)
  | |- context [match get ?a ?k with _ => _ end] => destruct (get a k)
  | |- context [match get0 ?a with _ => _ end] => destruct (get0 a)
  | |- context [is_string ?a ?k] => destruct (is_string a k)
  | |- context [if truthy ?a then _ else _] => destruct (truthy a)
  | |- context [if negb (truthy ?a) then _ else _] => destruct (truthy a)
  end.

Ltac gen_cases := repeat (gen_step; gen_case); gen_step; cbn [negb]; unfold ret, yield.

Ltac shape_leaf :=
  match goal with
  | |- ∃ ds, _ ∧ ((?evs, Normal Next) = _ ∨ _) =>
      exists evs; split; [by repeat constructor | by left]
  | |- ∃ ds, _ ∧ (([Done], Normal Return) = _ ∨ _) =>
      exists []; split; [by constructor | by right]
  | |- ∃ ds, _ ∧ (([?d; Done], Normal Return) = _ ∨ _) =>
      exists [d]; split; [by repeat constructor | by right]
  end.

Lemma OpenAI_line_shaped line : line_shaped (OpenAIProvider.line_body line).
Proof. unfold OpenAIProvider.line_body, line_shaped. gen_cases; shape_leaf. Qed.

Lemma Azure_line_shaped line : line_shaped (AzureChatProvider.line_body line).
Proof. unfold AzureChatProvider.line_body, line_shaped. gen_cases; shape_leaf. Qed.

Lemma Gemini_line_shaped line : line_shaped (GeminiProvider.line_body line).
Proof. unfold GeminiProvider.line_body, line_shaped. gen_cases; shape_leaf. Qed.

Lemma Anthropic_line_shaped line : line_shaped (AnthropicProvider.line_body line).
Proof. unfold AnthropicProvider.line_body, line_shaped. gen_cases; shape_leaf. Qed.

Lemma for_of_shaped body lines :
  (∀ line, line_shaped (body line)) → line_shaped (for_of body lines).
Proof.
  intros Hbody. induction lines as [|line lines IH]; cbn [for_of].
  - exists []. split; [constructor | by left].
  - destruct (Hbody line) as (ds & Hds & [-> | ->]); cbn [bind].
    + destruct IH as (ds' & Hds' & [-> | ->]); exists (ds ++ ds').
      * split; [by apply Forall_app | by left].
      * split; [by apply Forall_app | right; by rewrite app_assoc].
    + exists ds. split; [done | right]. unfold ret. by rewrite app_nil_r.
Qed.

(** A decoder either returns right after yielding [{ done: true }], or
    reads to the end of the stream and does what its [if (done)] branch
    does; before that it yields content only, and it never throws out of
    the loop. *)
Lemma read_loop_shaped body at_end d buffer chunks :
  (∀ line, line_shaped (body line)) →
  ∃ ds, Forall (λ e, is_delta e = true) ds ∧
    (read_loop body at_end d buffer chunks = (ds ++ [Done], Normal tt) ∨
     read_loop body at_end d buffer chunks = bind (ds, Normal tt) (λ _, at_end)).
Proof.
  intros Hbody. revert d buffer.
  induction chunks as [|value rest IH]; intros d buffer.
  - exists []. split; [constructor | right]. cbn [read_loop bind]. by destruct at_end.
  - rewrite read_loop_cons.
    destruct (for_of_shaped body
                (complete_lines (buffer ++ snd (TextDecoder.decode d value))) Hbody)
      as (ds & Hds & [-> | ->]); cbn [bind].
    + destruct (IH (fst (TextDecoder.decode d value))
                  (held_back (buffer ++ snd (TextDecoder.decode d value))))
        as (ds' & Hds' & [-> | ->]); exists (ds ++ ds').
      * split; [by apply Forall_app | left; by rewrite app_assoc].
      * split; [by apply Forall_app | right]. cbn [bind].
        destruct at_end as [evs r]. by rewrite app_assoc.
    + exists ds. split; [done | left]. unfold ret. by rewrite app_nil_r.
Qed.

(** With [if (done) break;]: content, then at most one [{ done: true }]. *)
Lemma break_at_end_shaped body stream :
  (∀ line, line_shaped (body line)) →
  ∃ evs, read_loop body (ret tt) TextDecoder.new [] stream = (evs, Normal tt) ∧
         prefix_shaped evs.
Proof.
  intros Hbody.
  destruct (read_loop_shaped body (ret tt) TextDecoder.new [] stream Hbody)
    as (ds & Hds & [-> | ->]).
  - exists (ds ++ [Done]). split; [done|]. exists ds. split; [done | by right].
  - exists ds. split; [cbn; by rewrite app_nil_r|]. exists ds. split; [done | by left].
Qed.

Lemma OpenAI_prefix_shaped stream :
  ∃ evs, OpenAIProvider.processStream stream = (evs, Normal tt) ∧ prefix_shaped evs.
Proof. apply break_at_end_shaped, OpenAI_line_shaped. Qed.

Lemma Azure_prefix_shaped stream :
  ∃ evs, AzureChatProvider.processStream stream = (evs, Normal tt) ∧ prefix_shaped evs.
Proof. apply break_at_end_shaped, Azure_line_shaped. Qed.

(** The Anthropic decoder never completes by throwing, and an error is
    not among the events it can yield. *)
Lemma Anthropic_prefix_shaped stream :
  ∃ evs, AnthropicProvider.processStream stream = (evs, Normal tt) ∧ prefix_shaped evs.
Proof. apply break_at_end_shaped, Anthropic_line_shaped. Qed.

(** The Gemini decoder yields exactly one terminal event, last, on every
    stream: its [if (done)] branch yields it when no line did. *)
Lemma Gemini_terminated stream :
  ∃ evs, GeminiProvider.processStream stream = (evs, Normal tt) ∧ terminated evs.
Proof.
  destruct (read_loop_shaped GeminiProvider.line_body (yield Done) TextDecoder.new [] stream
              Gemini_line_shaped) as (ds & Hds & [H | H]);
    exists (ds ++ [Done]); (split; [exact H | by exists ds]).
Qed.

Lemma not_terminated_deltas evs :
  Forall (λ e, is_delta e = true) evs → ¬ terminated evs.
Proof.
  intros Hall (ds & _ & ->). apply Forall_app in Hall as [_ Hlast].
  by inversion Hlast.
Qed.

(** C1 (OpenAI, Azure and Anthropic). A stream that ends without the
    vendor's end marker: the decoder yields the content and then ends
    without any terminal event, so the sequence is not content followed
    by exactly one terminal event. The same happens when the marker is
    the last line but has no newline after it: the held-back line is
    never looked at. *)
Theorem C1_stream_without_marker_is_unterminated :
  let content_only :=
    [JS.qbytes "data: {'choices':[{'delta':{'content':'Hi'}}]}" ++ [Byte.x0a]] in
  let marker_held_back := [JS.qbytes "data: [DONE]"] in
  let anthropic :=
    [JS.qbytes "data: {'type':'content_block_delta','delta':{'text':'Hi'}}" ++ [Byte.x0a]] in
  OpenAIProvider.processStream content_only = ([Delta (Str (JS.lit "Hi"))], Normal tt) ∧
  AzureChatProvider.processStream content_only = ([Delta (Str (JS.lit "Hi"))], Normal tt) ∧
  AnthropicProvider.processStream anthropic = ([Delta (Str (JS.lit "Hi"))], Normal tt) ∧
  OpenAIProvider.processStream marker_held_back = ([], Normal tt) ∧
  OpenAIProvider.processStream [] = ([], Normal tt) ∧
  ¬ terminated (fst (OpenAIProvider.processStream content_only)) ∧
  ¬ terminated (fst (AzureChatProvider.processStream content_only)) ∧
  ¬ terminated (fst (AnthropicProvider.processStream anthropic)) ∧
  ¬ terminated (fst (OpenAIProvider.processStream marker_held_back)).
Proof.
  cbv zeta.
  assert (H1 : OpenAIProvider.processStream
                 [JS.qbytes "data: {'choices':[{'delta':{'content':'Hi'}}]}" ++ [Byte.x0a]]
               = ([Delta (Str (JS.lit "Hi"))], Normal tt)) by (vm_compute; reflexivity).
  assert (H2 : AzureChatProvider.processStream
                 [JS.qbytes "data: {'choices':[{'delta':{'content':'Hi'}}]}" ++ [Byte.x0a]]
               = ([Delta (Str (JS.lit "Hi"))], Normal tt)) by (vm_compute; reflexivity).
  assert (H3 : AnthropicProvider.processStream
                 [JS.qbytes "data: {'type':'content_block_delta','delta':{'text':'Hi'}}"
                    ++ [Byte.x0a]]
               = ([Delta (Str (JS.lit "Hi"))], Normal tt)) by (vm_compute; reflexivity).
  assert (H4 : OpenAIProvider.processStream [JS.qbytes "data: [DONE]"] = ([], Normal tt))
    by (vm_compute; reflexivity).
  rewrite H1, H2, H3, H4. cbn [fst].
  repeat split; try reflexivity; apply not_terminated_deltas; by repeat constructor.
Qed.

(** C2. A [data:] line whose JSON has [type: error], followed by more
    lines: the [throw] is caught by the [catch] of the same [try], the
    line is skipped, and the later lines are decoded; the generator
    completes normally. *)
Theorem C2_Anthropic_error_line_is_skipped :
  AnthropicProvider.line_body
    (JS.qlit "data: {'type':'error','error':{'type':'overloaded_error','message':'Overloaded'}}")
  = ([], Normal Next) ∧
  AnthropicProvider.processStream
    [JS.qbytes "data: {'type':'error','error':{'type':'overloaded_error','message':'Overloaded'}}"
       ++ [Byte.x0a] ++
     JS.qbytes "data: {'type':'content_block_delta','delta':{'text':'Hola'}}" ++ [Byte.x0a] ++
     JS.qbytes "data: {'type':'message_stop'}" ++ [Byte.x0a]]
  = ([Delta (Str (JS.lit "Hola")); Done], Normal tt).
Proof. split; vm_compute; reflexivity. Qed.

(** Whatever the line, when its data parses to a value whose [type] is
    the string [error], the body yields nothing and goes on. *)
Lemma Anthropic_error_type_goes_on line parsed type :
  JS.startsWith line (JS.lit "data: ") = true →
  JSON_parse (JS.trim (JS.slice 6 line)) = Normal parsed →
  get parsed "type" = Normal type →
  is_string type "error" = true →
  AnthropicProvider.line_body line = ([], Normal Next).
Proof.
  intros Hdata Hparse Htype Herror. unfold AnthropicProvider.line_body.
  rewrite Hdata.
  destruct (JS.str_eqb (JS.trim (JS.slice 6 line)) (JS.lit "[DONE]")) eqn:Hdone.
  - apply bool_decide_eq_true in Hdone. rewrite Hdone in Hparse. by vm_compute in Hparse.
  - rewrite Hparse. gen_step. rewrite Htype. gen_step.
    destruct type as [| | | |s| |]; try discriminate.
    unfold is_string in *. apply bool_decide_eq_true in Herror. subst s.
    replace (JS.str_eqb (JS.lit "error") (JS.lit "content_block_delta")) with false
      by (vm_compute; reflexivity).
    replace (JS.str_eqb (JS.lit "error") (JS.lit "message_stop")) with false
      by (vm_compute; reflexivity).
    replace (JS.str_eqb (JS.lit "error") (JS.lit "content_block_stop")) with false
      by (vm_compute; reflexivity).
    replace (JS.str_eqb (JS.lit "error") (JS.lit "error")) with true
      by (vm_compute; reflexivity).
    by destruct (get parsed "error").
Qed.

(** C6. Splitting the bytes of a stream into two chunks at any position
    gives the OpenAI decoder the same content events, in the same order,
    as the bytes in one chunk. *)
Theorem C6_OpenAI_chunk_split_invariant (bytes : list Byte.byte) (n : nat) :
  deltas (fst (OpenAIProvider.processStream [take n bytes; drop n bytes])) =
  deltas (fst (OpenAIProvider.processStream [bytes])).
Proof.
  unfold OpenAIProvider.processStream.
  by rewrite read_loop_merge, take_drop.
Qed.

(** The whole result is the same, for any number of chunks, and for each
    decoder. *)
Lemma processStream_any_chunking body at_end chunk chunks :
  read_loop body at_end TextDecoder.new [] (chunk :: chunks) =
  read_loop body at_end TextDecoder.new [] [chunk ++ concat chunks].
Proof. apply read_loop_concat. Qed.

(** ** Message formats *)

Lemma str_eqb_eq a b : JS.str_eqb a b = true ↔ a = b.
Proof. unfold JS.str_eqb. apply bool_decide_eq_true. Qed.

Lemma str_eqb_neq a b : JS.str_eqb a b = false ↔ a ≠ b.
Proof. unfold JS.str_eqb. apply bool_decide_eq_false. Qed.

Lemma startsWith_app p s : JS.startsWith (p ++ s) p = true.
Proof. induction p as [|c p IH]; simpl; [done|]. by rewrite N.eqb_refl. Qed.

Lemma includes_startsWith s t : JS.startsWith s t = true → JS.includes s t = true.
Proof. intros H. destruct s; simpl; by rewrite H. Qed.

Lemma includes_app_l a s t : JS.includes s t = true → JS.includes (a ++ s) t = true.
Proof.
  intros H. induction a as [|c a IH]; simpl; [done|].
  rewrite IH. apply orb_true_r.
Qed.

Lemma includes_refl s : JS.includes s s = true.
Proof.
  apply includes_startsWith. rewrite <- (app_nil_r s) at 1. apply startsWith_app.
Qed.

Lemma includes_with_system X Y :
  JS.includes (GeminiFormat.with_system X Y) X = true ∧
  JS.includes (GeminiFormat.with_system X Y) Y = true.
Proof.
  unfold GeminiFormat.with_system. split.
  - apply includes_startsWith, startsWith_app.
  - do 3 apply includes_app_l. apply includes_refl.
Qed.

Lemma Gemini_push_all_roles messages contents :
  GeminiFormat.role <$> GeminiFormat.push_all messages contents =
  (GeminiFormat.role <$> contents) ++
  ((λ m, gemini_role (Message.role m)) <$> List.filter passed_on messages).
Proof.
  revert contents. induction messages as [|m messages IH]; intros contents; simpl.
  - by rewrite app_nil_r.
  - unfold passed_on, is_system. destruct (Message.isError m); simpl; [apply IH|].
    destruct (JS.str_eqb (Message.role m) (JS.lit "system")); simpl; [apply IH|].
    rewrite IH, fmap_app, <- app_assoc. reflexivity.
Qed.

Lemma Gemini_formatMessages_roles messages :
  GeminiFormat.role <$> GeminiFormat.formatMessages messages =
  (λ m, gemini_role (Message.role m)) <$> List.filter passed_on messages.
Proof.
  transitivity (GeminiFormat.role <$> GeminiFormat.push_all messages []);
    [|apply (Gemini_push_all_roles messages [])].
  unfold GeminiFormat.formatMessages.
  destruct (List.find _ messages); [|done].
  destruct (GeminiFormat.push_all messages []) as [|first others]; [done|].
  by destruct (JS.str_eqb (GeminiFormat.role first) (JS.lit "user")).
Qed.

Lemma gemini_role_passed_on m :
  passed_on m = true →
  gemini_role (Message.role m) ≠ JS.lit "system" ∧
  gemini_role (Message.role m) ≠ JS.lit "assistant".
Proof.
  unfold passed_on, is_system, gemini_role. intros [_ Hsys]%andb_true_iff.
  apply negb_true_iff, str_eqb_neq in Hsys.
  destruct (JS.str_eqb (Message.role m) (JS.lit "assistant")) eqn:Hassistant.
  - split; by vm_compute.
  - by apply str_eqb_neq in Hassistant.
Qed.

(** C3. Gemini's [formatMessages]: the roles sent are those of the
    messages passed on, [assistant] renamed to [model]; no entry has role
    [system] (nor [assistant]); and a system message followed by a user
    message gives one [user] entry whose text contains both contents. *)
Theorem C3_Gemini_formatMessages_folds_system :
  (∀ messages : list Message.t,
     GeminiFormat.role <$> GeminiFormat.formatMessages messages =
       (λ m, gemini_role (Message.role m)) <$> List.filter passed_on messages ∧
     Forall (λ e, GeminiFormat.role e ≠ JS.lit "system" ∧
                  GeminiFormat.role e ≠ JS.lit "assistant")
            (GeminiFormat.formatMessages messages)) ∧
  (∀ X Y : list N,
     ∃ text,
       GeminiFormat.formatMessages [system_message X; user_message Y] =
         [{| GeminiFormat.role := JS.lit "user";
             GeminiFormat.parts := [{| GeminiFormat.text := text |}] |}] ∧
       JS.includes text X = true ∧ JS.includes text Y = true).
Proof.
  split.
  - intros messages. split; [apply Gemini_formatMessages_roles|].
    apply (proj1 (Forall_fmap GeminiFormat.role
                    (λ r, r ≠ JS.lit "system" ∧ r ≠ JS.lit "assistant") _)).
    rewrite Gemini_formatMessages_roles. apply Forall_fmap, Forall_forall.
    intros m Hm. apply list_elem_of_In, filter_In in Hm as [_ Hm].
    by apply gemini_role_passed_on.
  - intros X Y. exists (GeminiFormat.with_system X Y). split; [reflexivity|].
    apply includes_with_system.
Qed.

Lemma Anthropic_push_all_eq messages systemPrompt conversationMessages :
  AnthropicFormat.push_all messages systemPrompt conversationMessages =
    (default systemPrompt (Message.content <$> last (List.filter read_as_system messages)),
     conversationMessages ++ (wire <$> List.filter passed_on messages)).
Proof.
  revert systemPrompt conversationMessages.
  induction messages as [|m messages IH]; intros systemPrompt conversationMessages; simpl.
  - by rewrite app_nil_r.
  - unfold read_as_system, passed_on, is_system.
    destruct (Message.isError m); simpl; [apply IH|].
    destruct (JS.str_eqb (Message.role m) (JS.lit "system")); simpl; rewrite IH.
    + rewrite last_cons. by destruct (last (List.filter _ messages)).
    + by rewrite <- app_assoc.
Qed.

(** C4, as stated, fails: of two system messages the later one is
    hoisted, not the first. *)
Lemma C4_first_system_message_is_not_the_one_hoisted :
  let messages :=
    [system_message (JS.lit "A"); system_message (JS.lit "B"); user_message (JS.lit "Y")] in
  Message.content <$> List.find is_system messages = Some (JS.lit "A") ∧
  AnthropicFormat.systemPrompt (AnthropicFormat.formatMessages messages) = Some (JS.lit "B") ∧
  AnthropicFormat.systemPrompt (AnthropicFormat.formatMessages messages) ≠
    Message.content <$> List.find is_system messages.
Proof. vm_compute. done. Qed.

(** C4, amended. Anthropic's [formatMessages] hoists the content of the
    last system message not flagged as an error ([undefined] when there
    is none or it is empty), and returns the messages that are neither
    flagged nor system, role and content unchanged and in order; for a
    system message [X] followed by a user message [Y] the system field is
    [X] ([undefined] for empty [X]) and the conversation is the user
    message alone. *)
Theorem C4_Anthropic_formatMessages_hoists_last_system :
  (∀ messages : list Message.t,
     AnthropicFormat.systemPrompt (AnthropicFormat.formatMessages messages) =
       JS.or_undefined
         (default [] (Message.content <$> last (List.filter read_as_system messages))) ∧
     AnthropicFormat.conversationMessages (AnthropicFormat.formatMessages messages) =
       wire <$> List.filter passed_on messages) ∧
  (∀ X Y : list N,
     AnthropicFormat.formatMessages [system_message X; user_message Y] =
       {| AnthropicFormat.systemPrompt := JS.or_undefined X;
          AnthropicFormat.conversationMessages :=
            [{| Wire.role := JS.lit "user"; Wire.content := Y |}] |}).
Proof.
  split.
  - intros messages. unfold AnthropicFormat.formatMessages.
    rewrite Anthropic_push_all_eq. by split.
  - intros X Y. unfold AnthropicFormat.formatMessages.
    rewrite Anthropic_push_all_eq. reflexivity.
Qed.

(** ** Validation of messages *)

Lemma includes_role_valid role :
  Validate.includes_role (Str role) = true → role ∈ Validate.validRoles.
Proof.
  unfold Validate.includes_role. intros (r & Hin & Heq)%existsb_exists.
  apply str_eqb_eq in Heq. subst r. by apply list_elem_of_In.
Qed.

(** What [validateMessages] accepts has valid roles. *)
Lemma validate_from_roles i messages validated out :
  Validate.validate_from i messages validated = Normal (Validate.Valid out) →
  Forall role_valid validated → Forall role_valid out.
Proof.
  revert i validated. induction messages as [|message rest IH]; intros i validated.
  - cbn [Validate.validate_from]. by intros [= <-].
  - cbn [Validate.validate_from].
    destruct (negb (truthy message) || negb (Validate.typeof_object message)); [done|].
    destruct (get message "role") as [role|]; cbn [Validate.bindc]; [|done].
    destruct (negb (truthy role) || negb (Validate.typeof_string role)); [done|].
    destruct (Validate.includes_role role) eqn:Hrole; cbn [negb]; [|done].
    destruct (get message "content") as [content|]; cbn [Validate.bindc]; [|done].
    destruct (negb (truthy content) || negb (Validate.typeof_string content)); [done|].
    destruct role as [| | | |role| |]; try done.
    destruct content as [| | | |content| |]; try done.
    destruct (10000 <? Z.of_nat (length content))%Z; [done|].
    intros Hout Hvalidated. apply (IH _ _ Hout).
    apply Forall_app. split; [done|]. constructor; [|constructor].
    by apply includes_role_valid.
Qed.

(** [validateMessages] never throws. *)
Lemma validate_from_returns i messages validated :
  ∃ result, Validate.validate_from i messages validated = Normal result.
Proof.
  revert i validated. induction messages as [|message rest IH]; intros i validated.
  - by eexists.
  - cbn [Validate.validate_from].
    destruct (negb (truthy message) || negb (Validate.typeof_object message)) eqn:Hobj;
      [by eexists|].
    assert (∃ role, get message "role" = Normal role) as [role ->].
    { destruct message; try discriminate; by eexists. }
    assert (∃ content, get message "content" = Normal content) as [content ->].
    { destruct message; try discriminate; by eexists. }
    cbn [Validate.bindc].
    destruct (negb (truthy role) || negb (Validate.typeof_string role)) eqn:Hrole;
      [by eexists|].
    destruct (negb (Validate.includes_role role)); [by eexists|].
    destruct (negb (truthy content) || negb (Validate.typeof_string content)) eqn:Hcontent;
      [by eexists|].
    apply orb_false_iff in Hrole as [_ Hrole%negb_false_iff].
    apply orb_false_iff in Hcontent as [_ Hcontent%negb_false_iff].
    destruct role as [| | | |role| |]; try discriminate.
    destruct content as [| | | |content| |]; try discriminate.
    destruct (10000 <? Z.of_nat (length content))%Z; [by eexists|]. apply IH.
Qed.

(** C7. A message whose content is only white space is accepted, and its
    validated content, trimmed, is the empty string. *)
Theorem C7_validateMessages_accepts_blank_content :
  Validate.validateMessages (Array [user_object (JS.lit " ")]) =
    Normal (Validate.Valid [{| Wire.role := JS.lit "user"; Wire.content := [] |}]) ∧
  Validate.validateMessages (Array [user_object (JS.lit "")]) =
    Normal (Validate.Invalid (JS.lit "Message 0: content es requerido y debe ser un string")).
Proof. split; vm_compute; reflexivity. Qed.

(** The role half of C7 holds: every accepted message has one of the
    three roles. *)
Lemma validateMessages_roles messages out :
  Validate.validateMessages messages = Normal (Validate.Valid out) → Forall role_valid out.
Proof.
  destruct messages; try discriminate. simpl. intros H.
  by apply (validate_from_roles _ _ _ _ H).
Qed.

(** ** Rate limiting *)

Section RateLimitFacts.

Local Open Scope Z_scope.

Lemma recent_recent c c' l :
  c ≤ c' → RateLimit.recent c' (RateLimit.recent c l) = RateLimit.recent c' l.
Proof.
  intros Hc. unfold RateLimit.recent. induction l as [|t l IH]; simpl; [done|].
  destruct (c <? t) eqn:Hct; simpl; destruct (c' <? t) eqn:Hc't; simpl;
    rewrite ?IH; try done.
  apply Z.ltb_lt in Hc't. apply Z.ltb_ge in Hct. lia.
Qed.

Lemma requests_of_cleanup ip windowMs now store :
  requests_of ip (RateLimit.cleanupOldRequests windowMs now store) =
  RateLimit.recent (now - windowMs) (requests_of ip store).
Proof.
  unfold requests_of, RateLimit.cleanupOldRequests. rewrite lookup_omap.
  destruct (store !! ip) as [requests|]; simpl; [|done].
  by destruct (RateLimit.recent (now - windowMs) requests).
Qed.

(** [checkRateLimit] reads the store through the recent requests of the
    client only. *)
Lemma checkRateLimit_ext ip cfg now store store' :
  RateLimit.recent (now - RateLimit.windowMs cfg) (requests_of ip store) =
  RateLimit.recent (now - RateLimit.windowMs cfg) (requests_of ip store') →
  RateLimit.checkRateLimit ip cfg now store = RateLimit.checkRateLimit ip cfg now store'.
Proof.
  unfold RateLimit.checkRateLimit, requests_of. cbv zeta. by intros ->.
Qed.

(** A cleanup with a window at least as long as the limiter's, run no
    later than the check, does not show in the check. *)
Lemma cleanup_invisible ip cfg window now now' store :
  RateLimit.windowMs cfg ≤ window → now ≤ now' →
  RateLimit.checkRateLimit ip cfg now' (RateLimit.cleanupOldRequests window now store) =
  RateLimit.checkRateLimit ip cfg now' store.
Proof.
  intros Hw Hnow. apply checkRateLimit_ext.
  rewrite requests_of_cleanup. apply recent_recent. lia.
Qed.

(** For the chat configuration the cleanup inside [recordRequest] is
    invisible to later checks. *)
Lemma cleanup_invisible_chat ip ip' now now' store :
  now ≤ now' →
  RateLimit.checkRateLimit ip RateLimit.chat_config now'
    (RateLimit.recordRequest ip' now true store) =
  RateLimit.checkRateLimit ip RateLimit.chat_config now'
    (RateLimit.recordRequest ip' now false store).
Proof.
  intros Hnow. unfold RateLimit.recordRequest. cbv zeta.
  apply cleanup_invisible; [done | lia].
Qed.

Lemma requests_of_record ip now cleanup store :
  requests_of ip (RateLimit.recordRequest ip now cleanup store) =
  if cleanup then RateLimit.recent (now - 60 * 1000) (requests_of ip store ++ [now])
  else requests_of ip store ++ [now].
Proof.
  unfold RateLimit.recordRequest. cbv zeta. destruct cleanup.
  - rewrite requests_of_cleanup. unfold requests_of at 1.
    by rewrite lookup_insert_eq.
  - unfold requests_of at 1. by rewrite lookup_insert_eq.
Qed.

Lemma recent_app c l1 l2 :
  RateLimit.recent c (l1 ++ l2) = RateLimit.recent c l1 ++ RateLimit.recent c l2.
Proof. unfold RateLimit.recent. apply List.filter_app. Qed.

(** Recording a request inside the window adds one to the count, when no
    cleanup runs or the window is at most the cleanup's. *)
Lemma recent_after_record ip cutoff now cleanup store :
  cutoff < now →
  (cleanup = true → now - 60 * 1000 ≤ cutoff) →
  RateLimit.recent cutoff (requests_of ip (RateLimit.recordRequest ip now cleanup store)) =
  RateLimit.recent cutoff (requests_of ip store) ++ [now].
Proof.
  intros Hnow Hclean. rewrite requests_of_record.
  assert (RateLimit.recent cutoff [now] = [now]) as Hone.
  { unfold RateLimit.recent. simpl. by apply Z.ltb_lt in Hnow as ->. }
  destruct cleanup.
  - rewrite recent_recent by auto. by rewrite recent_app, Hone.
  - by rewrite recent_app, Hone.
Qed.

(** After calls recorded inside the window of a later check, the check
    counts them all, when no cleanup ran or the window is at most the
    cleanup's 60 seconds. *)
Lemma recent_after_calls ip cutoff calls store :
  Forall (λ call, cutoff < fst call ∧ (snd call = true → fst call - 60 * 1000 ≤ cutoff)) calls →
  RateLimit.recent cutoff (requests_of ip (record_calls ip calls store)) =
  RateLimit.recent cutoff (requests_of ip store) ++ (fst <$> calls).
Proof.
  revert store. induction calls as [|[now cleanup] calls IH]; intros store Hcalls.
  - simpl. by rewrite app_nil_r.
  - apply Forall_cons in Hcalls as [[Hnow Hclean] Hcalls]. simpl in *.
    rewrite IH by done. rewrite recent_after_record by done.
    by rewrite <- app_assoc.
Qed.

(** The part of C5 that holds. With a window of at most 60 seconds, or
    with no cleanup in between: after [maxRequests] calls recorded, a
    check less than [windowMs] after the first of them is limited. *)
Lemma limited_after_max_calls ip cfg first calls now store :
  RateLimit.maxRequests cfg = Z.of_nat (length (first :: calls)) →
  Forall (λ call, fst first ≤ fst call ∧ fst call ≤ now) (first :: calls) →
  now - fst first < RateLimit.windowMs cfg →
  RateLimit.windowMs cfg ≤ 60 * 1000 ∨ Forall (λ call, snd call = false) (first :: calls) →
  RateLimit.isLimited
    (RateLimit.checkRateLimit ip cfg now (record_calls ip (first :: calls) store)) = true.
Proof.
  intros Hmax Htimes Hspan Hclean.
  unfold RateLimit.checkRateLimit. cbv zeta. cbn [RateLimit.isLimited].
  fold (requests_of ip (record_calls ip (first :: calls) store)).
  rewrite recent_after_calls.
  - rewrite Hmax, length_app, length_fmap. apply Z.leb_le. lia.
  - apply Forall_forall. intros call Hcall.
    pose proof (proj1 (Forall_forall _ _) Htimes call Hcall) as [Hge Hle].
    split; [lia|]. intros Hc. destruct Hclean as [Hw | Hno]; [lia|].
    pose proof (proj1 (Forall_forall _ _) Hno call Hcall). congruence.
Qed.

(** The other part of C5 that holds, for a limit of at least one: with
    no request of the client left inside the window, the check is not
    limited. *)
Lemma not_limited_after_window ip cfg now store :
  1 ≤ RateLimit.maxRequests cfg →
  Forall (λ t, t ≤ now - RateLimit.windowMs cfg) (requests_of ip store) →
  RateLimit.isLimited (RateLimit.checkRateLimit ip cfg now store) = false.
Proof.
  intros Hmax Hold. unfold RateLimit.checkRateLimit. cbv zeta. cbn [RateLimit.isLimited].
  fold (requests_of ip store).
  assert (RateLimit.recent (now - RateLimit.windowMs cfg) (requests_of ip store) = []) as ->.
  { induction Hold as [|t l Ht _ IH]; [done|]. unfold RateLimit.recent in *. simpl.
    by apply Z.ltb_ge in Ht as ->. }
  apply Z.leb_gt. simpl. lia.
Qed.

End RateLimitFacts.

(** C5. The image limits (10 requests in 300 seconds): ten calls of one
    client, all checked, let through and recorded within 100 seconds, the
    tenth running the cleanup. The cleanup trims with the default 60
    seconds and drops the first nine, so the eleventh call, 100.001
    seconds after the first, is not limited. *)
Theorem C5_eleventh_call_in_window_not_limited :
  let client := JS.lit "203.0.113.7" in
  let calls :=
    [(0, false); (1000, false); (2000, false); (3000, false); (4000, false);
     (5000, false); (6000, false); (7000, false); (8000, false); (100000, true)]%Z in
  let store := RateLimit.guarded_calls client RateLimit.image_config calls ∅ in
  store = record_calls client calls ∅ ∧
  requests_of client store = [100000%Z] ∧
  RateLimit.isLimited (RateLimit.checkRateLimit client RateLimit.image_config 100001 store)
    = false ∧
  RateLimit.current (RateLimit.checkRateLimit client RateLimit.image_config 100001 store)
    = 1%Z.
Proof. vm_compute. done. Qed.

(** C9. The image limits: a client with ten requests in the last 100
    seconds is limited; when the [recordRequest] of another client runs
    the cleanup in between, the ten requests, older than 60 seconds, are
    dropped and the same check is not limited. *)
Theorem C9_cleanup_changes_image_decision :
  let client := JS.lit "203.0.113.7" in
  let other := JS.lit "198.51.100.2" in
  let store : gmap (list N) (list Z) := {[ client := [0; 1; 2; 3; 4; 5; 6; 7; 8; 9]%Z ]} in
  RateLimit.isLimited
    (RateLimit.checkRateLimit client RateLimit.image_config 100001
       (RateLimit.recordRequest other 100000 false store)) = true ∧
  RateLimit.isLimited
    (RateLimit.checkRateLimit client RateLimit.image_config 100001
       (RateLimit.recordRequest other 100000 true store)) = false.
Proof. vm_compute. done. Qed.

(** ** Client keys *)

(** C10, as stated, fails: an [x-forwarded-for] header that is present
    with an empty value is passed over by [||], and the key comes from
    the next header (or is [unknown]), not from the header's first
    entry. *)
Lemma C10_empty_forwarded_for_is_passed_over :
  let headers : gmap (list N) (list N) :=
    {[ JS.lit "x-forwarded-for" := []; JS.lit "x-real-ip" := JS.lit "10.0.0.1" ]} in
  headers !! JS.lit "x-forwarded-for" = Some [] ∧
  RateLimit.getClientIP headers = Normal (JS.lit "10.0.0.1") ∧
  RateLimit.getClientIP headers ≠ Normal (JS.trim (first_entry [])).
Proof. vm_compute. done. Qed.

Lemma head_split_is_Some sep s : ∃ first, head (JS.split sep s) = Some first.
Proof.
  pose proof (split_not_nil sep s). destruct (JS.split sep s); [done|]. by eexists.
Qed.

(** C10, amended. Without any of the three headers the key is [unknown],
    the same for all such clients; with a non-empty [x-forwarded-for] it
    is the first comma-separated entry of the header, trimmed; and an
    [x-forwarded-for] that is present and empty is passed over like an
    absent one: the key is the key of the same headers without it. *)
Theorem C10_getClientIP_key (headers : gmap (list N) (list N)) :
  (headers !! JS.lit "x-forwarded-for" = None →
   headers !! JS.lit "x-real-ip" = None →
   headers !! JS.lit "cf-connecting-ip" = None →
   RateLimit.getClientIP headers = Normal (JS.lit "unknown")) ∧
  (∀ v, headers !! JS.lit "x-forwarded-for" = Some v → v ≠ [] →
        RateLimit.getClientIP headers = Normal (JS.trim (first_entry v))) ∧
  (headers !! JS.lit "x-forwarded-for" = Some [] →
   RateLimit.getClientIP headers =
     RateLimit.getClientIP (delete (JS.lit "x-forwarded-for") headers)).
Proof.
  unfold RateLimit.getClientIP, RateLimit.headers_get. split; [|split].
  - intros -> -> ->. vm_compute. reflexivity.
  - intros v -> Hv. destruct v as [|c r]; [done|]. cbn [RateLimit.or_str].
    unfold first_entry. by destruct (head_split_is_Some 44 (c :: r)) as [first ->].
  - intros ->. rewrite lookup_delete_eq.
    rewrite !lookup_delete_ne by (intros H; vm_compute in H; discriminate H).
    reflexivity.
Qed.

(** C10 at the empty headers, at a forwarded-for list of two, and at an
    empty forwarded-for beside a real-ip header. *)
Lemma C10_getClientIP_key_witness :
  RateLimit.getClientIP ∅ = Normal (JS.lit "unknown") ∧
  RateLimit.getClientIP {[ JS.lit "x-forwarded-for" := JS.lit " 203.0.113.7 , 10.0.0.1" ]} =
    Normal (JS.lit "203.0.113.7") ∧
  RateLimit.getClientIP
    {[ JS.lit "x-forwarded-for" := []; JS.lit "x-real-ip" := JS.lit "10.0.0.1" ]} =
  RateLimit.getClientIP
    (delete (JS.lit "x-forwarded-for")
       {[ JS.lit "x-forwarded-for" := []; JS.lit "x-real-ip" := JS.lit "10.0.0.1" ]}).
Proof.
  split; [|split].
  - apply (proj1 (C10_getClientIP_key ∅)); reflexivity.
  - apply (proj1 (proj2 (C10_getClientIP_key
                    {[ JS.lit "x-forwarded-for" := JS.lit " 203.0.113.7 , 10.0.0.1" ]}))
             (JS.lit " 203.0.113.7 , 10.0.0.1")); [reflexivity | discriminate].
  - apply (proj2 (proj2 (C10_getClientIP_key
                    {[ JS.lit "x-forwarded-for" := [];
                       JS.lit "x-real-ip" := JS.lit "10.0.0.1" ]}))).
    vm_compute. reflexivity.
Defined.

(** ** The configuration check *)

(** C8. No provider class has an [isConfigured] method, its own or
    inherited: the call in the handler throws a TypeError, and the
    handler's [catch] answers 500, never 503, whatever the credentials. *)
Theorem C8_isConfigured_is_not_exposed
    (run : Chat.provider_class → string → value) (c : Chat.provider_class)
    (chat : Chat.response) :
  Chat.lookup c "isConfigured" = None ∧
  Chat.call run c "isConfigured" = Throw TypeError ∧
  Chat.configured_check run c chat = {| Chat.statusCode := 500 |}.
Proof. by destruct c. Qed.

(** ** The JSON parser has fuel enough *)

Lemma skip_ws_length s : (length (JSON.skip_ws s) ≤ length s)%nat.
Proof.
  induction s as [|c r IH]; simpl; [done|].
  destruct (JSON.is_ws c); simpl; lia.
Qed.

Lemma parse_string_length n s acc str r :
  (length s ≤ n)%nat → JSON.parse_string s acc = Some (str, r) → (length r < length s)%nat.
Proof.
  revert s acc. induction n as [|n IH]; intros s acc Hn.
  - destruct s; [done | simpl in Hn; lia].
  - destruct s as [|c s]; [done|]. simpl in Hn. cbn [JSON.parse_string].
    destruct (c =? 34); [intros [= _ <-]; simpl; lia|].
    destruct (c <? 32); [done|].
    destruct (c =? 92).
    + destruct s as [|e r1]; [done|].
      destruct (e =? 117).
      * destruct r1 as [|h1 [|h2 [|h3 [|h4 r2]]]]; try done.
        destruct (JSON.hex_digit h1), (JSON.hex_digit h2), (JSON.hex_digit h3),
          (JSON.hex_digit h4); try done.
        intros H. apply IH in H; simpl in *; lia.
      * destruct (JSON.escape e); [|done].
        intros H. apply IH in H; simpl in *; lia.
    + intros H. apply IH in H; simpl in *; lia.
Qed.

Lemma digits_length s acc count m k r :
  JSON.digits s acc count = (m, k, r) → (length r ≤ length s)%nat.
Proof.
  revert acc count. induction s as [|c s IH]; intros acc count; simpl.
  - by intros [= _ _ <-].
  - destruct (JSON.is_digit c).
    + intros H. apply IH in H. lia.
    + intros [= _ _ <-]. simpl. lia.
Qed.

Lemma parse_number_length s v r :
  JSON.parse_number s = Some (v, r) → (length r < length s)%nat.
Proof.
  unfold JSON.parse_number.
  set (signed := match s with
                 | c :: r0 => if c =? 45 then (true, r0) else (false, s)
                 | [] => (false, s)
                 end).
  assert (length (snd signed) ≤ length s)%nat as Hsign.
  { subst signed. destruct s as [|c r0]; simpl; [done|]. destruct (c =? 45); simpl; lia. }
  destruct signed as [neg s1]. simpl in Hsign.
  destruct (JSON.parse_int s1) as [[int s2]|] eqn:Hint; [|done].
  assert (length s2 < length s1)%nat as Hs2.
  { unfold JSON.parse_int in Hint. destruct s1 as [|c r1]; [done|].
    destruct (c =? 48); [injection Hint as _ <-; simpl; lia|].
    destruct (JSON.is_digit c); [|done].
    destruct (JSON.digits r1 (c - 48) 1) as [[m k] r'] eqn:Hd.
    injection Hint as _ <-. apply digits_length in Hd. simpl. lia. }
  destruct (JSON.parse_frac int s2) as [[[mant k] s3]|] eqn:Hfrac; [|done].
  assert (length s3 ≤ length s2)%nat as Hs3.
  { unfold JSON.parse_frac in Hfrac. destruct s2 as [|c r2]; [by injection Hfrac as _ _ <-|].
    destruct (c =? 46).
    - destruct (JSON.digits r2 int 0) as [[m k'] r'] eqn:Hd.
      destruct k'; [done|]. injection Hfrac as _ _ <-.
      apply digits_length in Hd. simpl. lia.
    - by injection Hfrac as _ _ <-. }
  destruct (JSON.parse_exp s3) as [[e s4]|] eqn:Hexp; [|done].
  assert (length s4 ≤ length s3)%nat as Hs4.
  { unfold JSON.parse_exp in Hexp. destruct s3 as [|c r3]; [by injection Hexp as _ <-|].
    destruct ((c =? 101) || (c =? 69)); [|by injection Hexp as _ <-].
    set (sg := match r3 with
               | d :: r0 =>
                   if d =? 43 then (1%Z, r0) else if d =? 45 then ((-1)%Z, r0) else (1%Z, r3)
               | [] => (1%Z, r3)
               end) in Hexp.
    assert (length (snd sg) ≤ length r3)%nat as Hsg.
    { subst sg. destruct r3 as [|d r0]; simpl; [done|].
      destruct (d =? 43); simpl; [lia|]. destruct (d =? 45); simpl; lia. }
    destruct sg as [sign r1]. simpl in Hsg.
    destruct (JSON.digits r1 0 0) as [[m k'] r'] eqn:Hd.
    destruct k'; [done|]. injection Hexp as _ <-.
    apply digits_length in Hd. simpl. lia. }
  intros [= _ <-]. lia.
Qed.

Lemma keyword_length c r word v w rest :
  word ≠ ""%string →
  JSON.keyword (c :: r) word v = JSON.Ok (w, rest) → (length rest < length (c :: r))%nat.
Proof.
  unfold JSON.keyword. intros Hword.
  destruct (JS.startsWith (c :: r) (JS.lit word)); [|done].
  intros [= _ <-]. rewrite length_drop. destruct word; [done|]. simpl. lia.
Qed.

(** A value read leaves less than it was given. *)
Lemma parse_consumes fuel :
  (∀ s v r, JSON.parse_value fuel s = JSON.Ok (v, r) → (length r < length s)%nat) ∧
  (∀ s acc v r, JSON.parse_elements fuel s acc = JSON.Ok (v, r) → (length r < length s)%nat) ∧
  (∀ s acc v r, JSON.parse_members fuel s acc = JSON.Ok (v, r) → (length r < length s)%nat).
Proof.
  induction fuel as [|fuel (IHv & IHe & IHm)]; [by repeat split|].
  repeat split.
  - intros s v r. cbn [JSON.parse_value].
    pose proof (skip_ws_length s) as Hs.
    destruct (JSON.skip_ws s) as [|c t]; [done|]. simpl in Hs.
    destruct (c =? 34).
    { destruct (JSON.parse_string t []) as [[str r']|] eqn:Hstr; [|done].
      intros [= _ <-]. apply (parse_string_length (length t)) in Hstr; lia. }
    destruct (c =? 91).
    { pose proof (skip_ws_length t) as Ht.
      destruct (JSON.skip_ws t) as [|d r']; [done|]. simpl in Ht.
      destruct (d =? 93); [intros [= _ <-]; lia|].
      intros H. apply IHe in H. lia. }
    destruct (c =? 123).
    { pose proof (skip_ws_length t) as Ht.
      destruct (JSON.skip_ws t) as [|d r']; [done|]. simpl in Ht.
      destruct (d =? 125); [intros [= _ <-]; lia|].
      intros H. apply IHm in H. lia. }
    destruct (c =? 116); [intros H; apply keyword_length in H; [simpl in H; lia | done]|].
    destruct (c =? 102); [intros H; apply keyword_length in H; [simpl in H; lia | done]|].
    destruct (c =? 110); [intros H; apply keyword_length in H; [simpl in H; lia | done]|].
    destruct (JSON.parse_number (c :: t)) as [[w r']|] eqn:Hnum; [|done].
    intros [= _ <-]. apply parse_number_length in Hnum. simpl in Hnum. lia.
  - intros s acc v r. cbn [JSON.parse_elements].
    destruct (JSON.parse_value fuel s) as [[w t]| |] eqn:Hv; [|done|done].
    apply IHv in Hv. pose proof (skip_ws_length t) as Ht.
    destruct (JSON.skip_ws t) as [|d r']; [done|]. simpl in Ht.
    destruct (d =? 44); [intros H; apply IHe in H; lia|].
    destruct (d =? 93); [|done]. intros [= _ <-]. lia.
  - intros s acc v r. cbn [JSON.parse_members].
    pose proof (skip_ws_length s) as Hs.
    destruct (JSON.skip_ws s) as [|q r0]; [done|]. simpl in Hs.
    destruct (q =? 34); [|done].
    destruct (JSON.parse_string r0 []) as [[key r1]|] eqn:Hkey; [|done].
    apply (parse_string_length (length r0)) in Hkey; [|lia].
    pose proof (skip_ws_length r1) as Hr1.
    destruct (JSON.skip_ws r1) as [|colon r2]; [done|]. simpl in Hr1.
    destruct (colon =? 58); [|done].
    destruct (JSON.parse_value fuel r2) as [[w t]| |] eqn:Hv; [|done|done].
    apply IHv in Hv. pose proof (skip_ws_length t) as Ht.
    destruct (JSON.skip_ws t) as [|d r']; [done|]. simpl in Ht.
    destruct (d =? 44); [intros H; apply IHm in H; lia|].
    destruct (d =? 125); [|done]. intros [= _ <-]. lia.
Qed.

(** With fuel [2 * length s + 2] the parser never stops for lack of it. *)
Lemma parse_fuel fuel :
  (∀ s, (2 * length s + 1 ≤ fuel)%nat → JSON.parse_value fuel s ≠ JSON.OutOfFuel) ∧
  (∀ s acc, (2 * length s + 2 ≤ fuel)%nat → JSON.parse_elements fuel s acc ≠ JSON.OutOfFuel) ∧
  (∀ s acc, (2 * length s + 2 ≤ fuel)%nat → JSON.parse_members fuel s acc ≠ JSON.OutOfFuel).
Proof.
  induction fuel as [|fuel (IHv & IHe & IHm)]; [repeat split; intros; lia|].
  destruct (parse_consumes fuel) as (Cv & _ & _).
  repeat split.
  - intros s Hf. cbn [JSON.parse_value].
    pose proof (skip_ws_length s) as Hs.
    destruct (JSON.skip_ws s) as [|c t]; [done|]. simpl in Hs.
    destruct (c =? 34); [by destruct (JSON.parse_string t [])  as [[??]|]|].
    destruct (c =? 91).
    { pose proof (skip_ws_length t) as Ht.
      destruct (JSON.skip_ws t) as [|d r']; [done|].
      destruct (d =? 93); [done|]. apply IHe. lia. }
    destruct (c =? 123).
    { pose proof (skip_ws_length t) as Ht.
      destruct (JSON.skip_ws t) as [|d r']; [done|].
      destruct (d =? 125); [done|]. apply IHm. lia. }
    unfold JSON.keyword.
    destruct (c =? 116); [by destruct (JS.startsWith _ _)|].
    destruct (c =? 102); [by destruct (JS.startsWith _ _)|].
    destruct (c =? 110); [by destruct (JS.startsWith _ _)|].
    by destruct (JSON.parse_number (c :: t)) as [[??]|].
  - intros s acc Hf. cbn [JSON.parse_elements].
    destruct (JSON.parse_value fuel s) as [[w t]| |] eqn:Hv; [|done|].
    + apply Cv in Hv. pose proof (skip_ws_length t) as Ht.
      destruct (JSON.skip_ws t) as [|d r']; [done|]. simpl in Ht.
      destruct (d =? 44); [apply IHe; lia|]. by destruct (d =? 93).
    + exfalso. revert Hv. apply IHv. lia.
  - intros s acc Hf. cbn [JSON.parse_members].
    pose proof (skip_ws_length s) as Hs.
    destruct (JSON.skip_ws s) as [|q r0]; [done|]. simpl in Hs.
    destruct (q =? 34); [|done].
    destruct (JSON.parse_string r0 []) as [[key r1]|] eqn:Hkey; [|done].
    apply (parse_string_length (length r0)) in Hkey; [|lia].
    pose proof (skip_ws_length r1) as Hr1.
    destruct (JSON.skip_ws r1) as [|colon r2]; [done|]. simpl in Hr1.
    destruct (colon =? 58); [|done].
    destruct (JSON.parse_value fuel r2) as [[w t]| |] eqn:Hv; [|done|].
    + apply Cv in Hv. pose proof (skip_ws_length t) as Ht.
      destruct (JSON.skip_ws t) as [|d r']; [done|]. simpl in Ht.
      destruct (d =? 44); [apply IHm; lia|]. by destruct (d =? 125).
    + exfalso. revert Hv. apply IHv. lia.
Qed.

(** [JSON.parse] is [None] only for text that is not JSON. *)
Lemma parse_never_out_of_fuel text :
  JSON.parse_value (2 * length text + 2) text ≠ JSON.OutOfFuel.
Proof. apply parse_fuel. lia. Qed.

(** * Further properties of the code *)

(** ** Stream decoders, as a whole *)

Lemma read_loop_single body at_end bytes :
  read_loop body at_end TextDecoder.new [] [bytes] =
  bind (for_of body (complete_lines (snd (TextDecoder.decode TextDecoder.new bytes))))
       (finish at_end).
Proof. rewrite read_loop_cons. reflexivity. Qed.

Lemma read_loop_lines body at_end chunk chunks :
  read_loop body at_end TextDecoder.new [] (chunk :: chunks) =
  bind (for_of body (complete_lines (text_of (chunk :: chunks)))) (finish at_end).
Proof. rewrite read_loop_concat, read_loop_single. reflexivity. Qed.

(** X1. Gemini's decoder, on every stream: content events, then exactly
    one [{ done: true }], last; the generator completes normally. *)
Theorem X1_Gemini_always_one_terminal_event (stream : list (list Byte.byte)) :
  ∃ ds, Forall (λ e, is_delta e = true) ds ∧
        GeminiProvider.processStream stream = (ds ++ [Done], Normal tt).
Proof.
  destruct (Gemini_terminated stream) as (evs & Hrun & ds & Hds & ->). by exists ds.
Qed.

(** X2. The decoders of OpenAI, Azure and Anthropic, on every stream:
    content events, then at most one [{ done: true }], nothing after it;
    they never complete by throwing, whatever the lines hold. *)
Theorem X2_break_decoders_prefix_and_never_throw (stream : list (list Byte.byte)) :
  (∃ evs, OpenAIProvider.processStream stream = (evs, Normal tt) ∧ prefix_shaped evs) ∧
  (∃ evs, AzureChatProvider.processStream stream = (evs, Normal tt) ∧ prefix_shaped evs) ∧
  (∃ evs, AnthropicProvider.processStream stream = (evs, Normal tt) ∧ prefix_shaped evs).
Proof.
  split; [|split].
  - apply break_at_end_shaped, OpenAI_line_shaped.
  - apply break_at_end_shaped, Azure_line_shaped.
  - apply break_at_end_shaped, Anthropic_line_shaped.
Qed.

(** X3. Each decoder gives the same events and the same completion
    however the bytes of the stream are cut into chunks. *)
Theorem X3_decoders_chunking_invariant (chunk : list Byte.byte) (chunks : list (list Byte.byte)) :
  OpenAIProvider.processStream (chunk :: chunks) =
    OpenAIProvider.processStream [chunk ++ concat chunks] ∧
  AzureChatProvider.processStream (chunk :: chunks) =
    AzureChatProvider.processStream [chunk ++ concat chunks] ∧
  GeminiProvider.processStream (chunk :: chunks) =
    GeminiProvider.processStream [chunk ++ concat chunks] ∧
  AnthropicProvider.processStream (chunk :: chunks) =
    AnthropicProvider.processStream [chunk ++ concat chunks].
Proof. repeat split; apply read_loop_concat. Qed.

(** X4. What a decoder yields is what its loop body yields on the
    complete lines of the decoded text, in order, up to the line that
    makes it return; the text after the last line feed is never looked
    at. Gemini then yields its [{ done: true }]; the others nothing. *)
Theorem X4_decoders_read_complete_lines_only
    (chunk : list Byte.byte) (chunks : list (list Byte.byte)) :
  let lines := complete_lines (text_of (chunk :: chunks)) in
  OpenAIProvider.processStream (chunk :: chunks) =
    bind (for_of OpenAIProvider.line_body lines) (finish (ret tt)) ∧
  AzureChatProvider.processStream (chunk :: chunks) =
    bind (for_of AzureChatProvider.line_body lines) (finish (ret tt)) ∧
  GeminiProvider.processStream (chunk :: chunks) =
    bind (for_of GeminiProvider.line_body lines) (finish (yield Done)) ∧
  AnthropicProvider.processStream (chunk :: chunks) =
    bind (for_of AnthropicProvider.line_body lines) (finish (ret tt)).
Proof. cbv zeta. repeat split; apply read_loop_lines. Qed.

Lemma complete_lines_no_newline s :
  forallb (λ c, negb (c =? 10)) s = true → complete_lines s = [].
Proof.
  induction s as [|c s IH]; [done|]. simpl.
  intros [Hc Hs]%andb_true_iff. apply negb_true_iff, N.eqb_neq in Hc.
  destruct (lines_cons_other c s Hc) as [-> _]. by rewrite IH.
Qed.

(** X5. A stream whose text holds no line feed yields no content: the
    decoders of OpenAI, Azure and Anthropic yield nothing at all, not
    even for a [data: [DONE]] that no line feed follows, and Gemini's
    yields its [{ done: true }] alone. *)
Theorem X5_no_line_feed_no_content
    (chunk : list Byte.byte) (chunks : list (list Byte.byte)) :
  forallb (λ c, negb (c =? 10)) (text_of (chunk :: chunks)) = true →
  OpenAIProvider.processStream (chunk :: chunks) = ([], Normal tt) ∧
  AzureChatProvider.processStream (chunk :: chunks) = ([], Normal tt) ∧
  AnthropicProvider.processStream (chunk :: chunks) = ([], Normal tt) ∧
  GeminiProvider.processStream (chunk :: chunks) = ([Done], Normal tt).
Proof.
  intros Hno. unfold OpenAIProvider.processStream, AzureChatProvider.processStream,
    AnthropicProvider.processStream, GeminiProvider.processStream.
  rewrite !read_loop_lines, (complete_lines_no_newline _ Hno). by repeat split.
Qed.

(** X5 at a stream of two chunks with the marker and no line feed. *)
Lemma X5_no_line_feed_no_content_witness :
  OpenAIProvider.processStream [JS.qbytes "data: "; JS.qbytes "[DONE]"] = ([], Normal tt) ∧
  AzureChatProvider.processStream [JS.qbytes "data: "; JS.qbytes "[DONE]"] = ([], Normal tt) ∧
  AnthropicProvider.processStream [JS.qbytes "data: "; JS.qbytes "[DONE]"] = ([], Normal tt) ∧
  GeminiProvider.processStream [JS.qbytes "data: "; JS.qbytes "[DONE]"] = ([Done], Normal tt).
Proof.
  apply (X5_no_line_feed_no_content (JS.qbytes "data: ") [JS.qbytes "[DONE]"]).
  vm_compute. reflexivity.
Defined.

Lemma OpenAI_line_by_marker line :
  (is_DONE_line line = true ∧ OpenAIProvider.line_body line = ([Done], Normal Return)) ∨
  (is_DONE_line line = false ∧
   ∃ ds, Forall (λ e, is_delta e = true) ds ∧
         OpenAIProvider.line_body line = (ds, Normal Next)).
Proof.
  unfold is_DONE_line, OpenAIProvider.line_body.
  destruct (JS.startsWith line (JS.lit "data: ")); cbn [andb];
    [|right; split; [done|]; by exists []].
  destruct (JS.str_eqb (JS.trim (JS.slice 6 line)) (JS.lit "[DONE]")); [by left|].
  right. split; [done|]. gen_cases; by (eexists; split; [|reflexivity]; repeat constructor).
Qed.

Lemma OpenAI_for_of_by_marker lines :
  (existsb is_DONE_line lines = true ∧
   ∃ ds, Forall (λ e, is_delta e = true) ds ∧
         for_of OpenAIProvider.line_body lines = (ds ++ [Done], Normal Return)) ∨
  (existsb is_DONE_line lines = false ∧
   ∃ ds, Forall (λ e, is_delta e = true) ds ∧
         for_of OpenAIProvider.line_body lines = (ds, Normal Next)).
Proof.
  induction lines as [|line lines IH]; cbn [for_of existsb].
  - right. split; [done|]. by exists [].
  - destruct (OpenAI_line_by_marker line) as [[-> ->] | (-> & ds & Hds & ->)]; cbn [orb bind].
    + left. split; [done|]. by exists [].
    + destruct IH as [(-> & ds' & Hds' & ->) | (-> & ds' & Hds' & ->)]; [left | right];
        (split; [done|]); exists (ds ++ ds'); (split; [by apply Forall_app|]);
        by rewrite ?app_assoc.
Qed.

(** X6. The OpenAI decoder ends its sequence with [{ done: true }]
    exactly when one of the complete lines of the stream is the marker
    line; otherwise it yields content only. *)
Theorem X6_OpenAI_terminated_iff_marker_line (stream : list (list Byte.byte)) :
  terminated (fst (OpenAIProvider.processStream stream)) ↔
  existsb is_DONE_line (complete_lines (text_of stream)) = true.
Proof.
  destruct stream as [|chunk chunks].
  - split; [|done]. intros (ds & _ & H). by destruct ds.
  - unfold OpenAIProvider.processStream. rewrite read_loop_lines.
    destruct (OpenAI_for_of_by_marker (complete_lines (text_of (chunk :: chunks))))
      as [(-> & ds & Hds & ->) | (-> & ds & Hds & ->)]; cbn [bind finish ret fst].
    + rewrite app_nil_r. split; [done|]. intros _. by exists ds.
    + rewrite app_nil_r. split; [|done]. intros H.
      by apply (not_terminated_deltas ds) in H.
Qed.

(** ** Rate limiting, further *)

Section RateLimitMore.

Local Open Scope Z_scope.

(** X7. The cleanup that [recordRequest] may run trims with 60 seconds:
    for a limiter window of at most 60 seconds no later check, of any
    client, can tell whether it ran. *)
Theorem X7_record_cleanup_invisible_up_to_60s
    (ip ip' : list N) (cfg : RateLimit.config) (now now' : Z)
    (store : gmap (list N) (list Z)) :
  RateLimit.windowMs cfg ≤ 60000 → now ≤ now' →
  RateLimit.checkRateLimit ip cfg now' (RateLimit.recordRequest ip' now true store) =
  RateLimit.checkRateLimit ip cfg now' (RateLimit.recordRequest ip' now false store).
Proof.
  intros Hw Hnow. unfold RateLimit.recordRequest. cbv zeta.
  apply cleanup_invisible; [|done]. simpl. lia.
Qed.

(** X7 at the chat limits, a store of two clients, a check one second
    after the recording. *)
Lemma X7_record_cleanup_invisible_up_to_60s_witness :
  RateLimit.checkRateLimit (JS.lit "a") RateLimit.chat_config 71000
    (RateLimit.recordRequest (JS.lit "b") 70000 true
       {[ JS.lit "a" := [1000; 30000]; JS.lit "b" := [2000] ]}) =
  RateLimit.checkRateLimit (JS.lit "a") RateLimit.chat_config 71000
    (RateLimit.recordRequest (JS.lit "b") 70000 false
       {[ JS.lit "a" := [1000; 30000]; JS.lit "b" := [2000] ]}).
Proof.
  apply (X7_record_cleanup_invisible_up_to_60s (JS.lit "a") (JS.lit "b")
           RateLimit.chat_config 70000 71000); simpl; lia.
Defined.

Lemma recent_length cutoff l : (length (RateLimit.recent cutoff l) ≤ length l)%nat.
Proof.
  unfold RateLimit.recent. induction l as [|t l IH]; simpl; [done|].
  destruct (cutoff <? t); simpl; lia.
Qed.

Lemma requests_of_record_length ip now cleanup store :
  (length (requests_of ip (RateLimit.recordRequest ip now cleanup store)) ≤
   S (length (requests_of ip store)))%nat.
Proof.
  rewrite requests_of_record. destruct cleanup.
  - etransitivity; [apply recent_length|]. rewrite length_app. simpl. lia.
  - rewrite length_app. simpl. lia.
Qed.

(** While the client has room, [withRateLimit] records every call. *)
Lemma guarded_calls_all_recorded ip cfg calls store :
  Z.of_nat (length (requests_of ip store)) + Z.of_nat (length calls)
    ≤ RateLimit.maxRequests cfg →
  RateLimit.guarded_calls ip cfg calls store = record_calls ip calls store.
Proof.
  revert store. induction calls as [|[now cleanup] calls IH]; intros store Hroom; [done|].
  cbn [RateLimit.guarded_calls record_calls]. unfold RateLimit.guarded_call.
  assert (RateLimit.isLimited (RateLimit.checkRateLimit ip cfg now store) = false) as ->.
  { unfold RateLimit.checkRateLimit. cbv zeta. cbn [RateLimit.isLimited].
    fold (requests_of ip store). apply Z.leb_gt.
    pose proof (recent_length (now - RateLimit.windowMs cfg) (requests_of ip store)).
    simpl length in Hroom. lia. }
  cbn [snd]. apply IH.
  pose proof (requests_of_record_length ip now cleanup store).
  simpl length in Hroom. lia.
Qed.

(** X8. A client with no recorded request makes [maxRequests] calls
    through the limiter: all are let through and recorded, and a check
    made less than [windowMs] after the first of them is limited,
    whenever the window is at most 60 seconds or no recording ran the
    cleanup. *)
Theorem X8_fresh_client_limited_after_max_calls
    (ip : list N) (cfg : RateLimit.config) (first : Z * bool) (calls : list (Z * bool))
    (now : Z) (store : gmap (list N) (list Z)) :
  requests_of ip store = [] →
  RateLimit.maxRequests cfg = Z.of_nat (length (first :: calls)) →
  Forall (λ call, fst first ≤ fst call ∧ fst call ≤ now) (first :: calls) →
  now - fst first < RateLimit.windowMs cfg →
  RateLimit.windowMs cfg ≤ 60 * 1000 ∨ Forall (λ call, snd call = false) (first :: calls) →
  RateLimit.guarded_calls ip cfg (first :: calls) store = record_calls ip (first :: calls) store ∧
  RateLimit.isLimited
    (RateLimit.checkRateLimit ip cfg now
       (RateLimit.guarded_calls ip cfg (first :: calls) store)) = true.
Proof.
  intros Hfresh Hmax Htimes Hspan Hclean.
  assert (RateLimit.guarded_calls ip cfg (first :: calls) store =
          record_calls ip (first :: calls) store) as Hsame.
  { apply guarded_calls_all_recorded. rewrite Hfresh, Hmax. simpl length. lia. }
  split; [done|]. rewrite Hsame. by apply limited_after_max_calls.
Qed.

(** X8 at a limit of three, calls at 0, 10 and 20 seconds, the last one
    running the cleanup, and a check at 59 seconds. *)
Lemma X8_fresh_client_limited_after_max_calls_witness :
  let cfg := {| RateLimit.windowMs := 60000; RateLimit.maxRequests := 3 |} in
  let calls := [(0, false); (10000, false); (20000, true)] in
  RateLimit.guarded_calls (JS.lit "a") cfg calls ∅ = record_calls (JS.lit "a") calls ∅ ∧
  RateLimit.isLimited
    (RateLimit.checkRateLimit (JS.lit "a") cfg 59000
       (RateLimit.guarded_calls (JS.lit "a") cfg calls ∅)) = true.
Proof.
  apply (X8_fresh_client_limited_after_max_calls (JS.lit "a")
           {| RateLimit.windowMs := 60000; RateLimit.maxRequests := 3 |}
           (0, false) [(10000, false); (20000, true)] 59000 ∅).
  - reflexivity.
  - reflexivity.
  - repeat constructor; simpl; lia.
  - simpl. lia.
  - left. simpl. lia.
Defined.

(** X9. With a limit of at least one, a client none of whose recorded
    requests is inside the window is not limited, and is given the whole
    limit as remaining. *)
Theorem X9_not_limited_once_window_passed
    (ip : list N) (cfg : RateLimit.config) (now : Z) (store : gmap (list N) (list Z)) :
  1 ≤ RateLimit.maxRequests cfg →
  Forall (λ t, t ≤ now - RateLimit.windowMs cfg) (requests_of ip store) →
  RateLimit.isLimited (RateLimit.checkRateLimit ip cfg now store) = false ∧
  RateLimit.current (RateLimit.checkRateLimit ip cfg now store) = 0 ∧
  RateLimit.remaining (RateLimit.checkRateLimit ip cfg now store) = RateLimit.maxRequests cfg ∧
  RateLimit.retryAfter (RateLimit.checkRateLimit ip cfg now store) = RateLimit.Infinity.
Proof.
  intros Hmax Hold. split; [by apply not_limited_after_window|].
  unfold RateLimit.checkRateLimit. cbv zeta.
  cbn [RateLimit.current RateLimit.remaining RateLimit.retryAfter].
  fold (requests_of ip store).
  assert (RateLimit.recent (now - RateLimit.windowMs cfg) (requests_of ip store) = []) as ->.
  { induction Hold as [|t l Ht _ IH]; [done|]. unfold RateLimit.recent in *. simpl.
    by apply Z.ltb_ge in Ht as ->. }
  simpl. repeat split. lia.
Qed.

(** X9 at the chat limits, 30 requests at time 0 and a check after
    exactly 60 seconds. *)
Lemma X9_not_limited_once_window_passed_witness :
  let store : gmap (list N) (list Z) := {[ JS.lit "a" := replicate 30 0 ]} in
  RateLimit.isLimited (RateLimit.checkRateLimit (JS.lit "a") RateLimit.chat_config 60000 store)
    = false ∧
  RateLimit.current (RateLimit.checkRateLimit (JS.lit "a") RateLimit.chat_config 60000 store)
    = 0 ∧
  RateLimit.remaining (RateLimit.checkRateLimit (JS.lit "a") RateLimit.chat_config 60000 store)
    = RateLimit.maxRequests RateLimit.chat_config ∧
  RateLimit.retryAfter (RateLimit.checkRateLimit (JS.lit "a") RateLimit.chat_config 60000 store)
    = RateLimit.Infinity.
Proof.
  apply (X9_not_limited_once_window_passed (JS.lit "a") RateLimit.chat_config 60000
           {[ JS.lit "a" := replicate 30 0 ]}).
  - simpl. lia.
  - vm_compute. repeat constructor; discriminate.
Defined.

Lemma checkRateLimit_consistent
    (ip : list N) (cfg : RateLimit.config) (now : Z) (store : gmap (list N) (list Z)) :
  let info := RateLimit.checkRateLimit ip cfg now store in
  RateLimit.current info =
    Z.of_nat (length (RateLimit.recent (now - RateLimit.windowMs cfg) (requests_of ip store))) ∧
  RateLimit.limit info = RateLimit.maxRequests cfg ∧
  0 ≤ RateLimit.remaining info ∧
  (RateLimit.isLimited info = true ↔ RateLimit.remaining info = 0) ∧
  (RateLimit.isLimited info = false →
   RateLimit.remaining info = RateLimit.limit info - RateLimit.current info ∧
   0 < RateLimit.remaining info).
Proof.
  cbv zeta. unfold RateLimit.checkRateLimit. cbv zeta.
  cbn [RateLimit.current RateLimit.limit RateLimit.remaining RateLimit.isLimited].
  fold (requests_of ip store).
  generalize (Z.of_nat (length (RateLimit.recent (now - RateLimit.windowMs cfg)
                                 (requests_of ip store)))).
  intros count. split; [done|]. split; [done|]. split; [lia|]. split.
  - rewrite Z.leb_le. lia.
  - intros H%Z.leb_gt. lia.
Qed.

(** X10. What [checkRateLimit] reports is consistent: the count is the
    number of the client's requests inside the window, the call is
    limited exactly when nothing remains, and otherwise what remains is
    the limit less the count. *)
Theorem X10_checkRateLimit_consistent
    (ip : list N) (cfg : RateLimit.config) (now : Z) (store : gmap (list N) (list Z)) :
  let info := RateLimit.checkRateLimit ip cfg now store in
  RateLimit.current info =
    Z.of_nat (length (RateLimit.recent (now - RateLimit.windowMs cfg) (requests_of ip store))) ∧
  RateLimit.limit info = RateLimit.maxRequests cfg ∧
  0 ≤ RateLimit.remaining info ∧
  (RateLimit.isLimited info = true ↔ RateLimit.remaining info = 0) ∧
  (RateLimit.isLimited info = false →
   RateLimit.remaining info = RateLimit.limit info - RateLimit.current info ∧
   0 < RateLimit.remaining info).
Proof. exact (checkRateLimit_consistent ip cfg now store). Qed.

Lemma min_of_nonempty l :
  l ≠ [] → ∃ m, RateLimit.min_of l = RateLimit.Fin m ∧ m ∈ l ∧ Forall (λ t, m ≤ t) l.
Proof.
  induction l as [|t l IH]; [done|]. intros _. cbn [RateLimit.min_of foldr].
  destruct l as [|t' l].
  - exists t. simpl. repeat split; [apply list_elem_of_here | by repeat constructor; lia].
  - destruct IH as (m & Hm & Hin & Hle); [done|].
    unfold RateLimit.min_of in Hm. rewrite Hm. exists (Z.min t m). repeat split.
    + destruct (Z.min_spec t m) as [[_ ->] | [_ ->]];
        [apply list_elem_of_here | by apply list_elem_of_further].
    + constructor; [lia|]. eapply Forall_impl; [exact Hle|]. simpl. lia.
Qed.

Lemma recent_Forall cutoff l : Forall (λ t, cutoff < t) (RateLimit.recent cutoff l).
Proof.
  unfold RateLimit.recent. induction l as [|t l IH]; simpl; [constructor|].
  destruct (cutoff <? t) eqn:Ht; [|done]. constructor; [by apply Z.ltb_lt|done].
Qed.

Lemma limited_retryAfter
    (ip : list N) (cfg : RateLimit.config) (now : Z) (store : gmap (list N) (list Z)) :
  1 ≤ RateLimit.maxRequests cfg →
  RateLimit.isLimited (RateLimit.checkRateLimit ip cfg now store) = true →
  ∃ oldest r,
    oldest ∈ requests_of ip store ∧
    Forall (λ t, oldest ≤ t)
      (RateLimit.recent (now - RateLimit.windowMs cfg) (requests_of ip store)) ∧
    RateLimit.resetTime (RateLimit.checkRateLimit ip cfg now store) =
      RateLimit.Fin (oldest + RateLimit.windowMs cfg) ∧
    now < oldest + RateLimit.windowMs cfg ∧
    RateLimit.retryAfter (RateLimit.checkRateLimit ip cfg now store) = RateLimit.Fin r ∧
    1 ≤ r ∧ 1000 * (r - 1) < oldest + RateLimit.windowMs cfg - now ≤ 1000 * r.
Proof.
  intros Hmax. unfold RateLimit.checkRateLimit. cbv zeta.
  cbn [RateLimit.isLimited RateLimit.resetTime RateLimit.retryAfter].
  fold (requests_of ip store).
  set (recentRequests := RateLimit.recent (now - RateLimit.windowMs cfg) (requests_of ip store)).
  intros Hlimited%Z.leb_le.
  destruct (min_of_nonempty recentRequests) as (m & -> & Hin & Hle).
  { intros Hnil. rewrite Hnil in Hlimited. simpl in Hlimited. lia. }
  pose proof (proj1 (Forall_forall _ _) (recent_Forall _ _) m Hin) as Hm. simpl in Hm.
  exists m, (Z.max 0 (RateLimit.ceil_div (m + RateLimit.windowMs cfg - now) 1000)).
  assert (m ∈ requests_of ip store) as Hin'.
  { subst recentRequests. apply list_elem_of_In in Hin.
    unfold RateLimit.recent in Hin. apply filter_In in Hin as [Hin _].
    by apply list_elem_of_In. }
  unfold RateLimit.ceil_div.
  pose proof (Z.div_mod (- (m + RateLimit.windowMs cfg - now)) 1000 ltac:(lia)) as Hdiv.
  pose proof (Z.mod_pos_bound (- (m + RateLimit.windowMs cfg - now)) 1000 ltac:(lia)) as Hmod.
  repeat split; try done; lia.
Qed.

(** X11. A limited call, under a limit of at least one, is told when to
    come back: the reset time is [windowMs] after the oldest request in
    the window and lies in the future, and the retry delay is at least
    one second. *)
Theorem X11_limited_call_has_positive_retryAfter
    (ip : list N) (cfg : RateLimit.config) (now : Z) (store : gmap (list N) (list Z)) :
  1 ≤ RateLimit.maxRequests cfg →
  RateLimit.isLimited (RateLimit.checkRateLimit ip cfg now store) = true →
  ∃ oldest r,
    oldest ∈ requests_of ip store ∧
    Forall (λ t, oldest ≤ t)
      (RateLimit.recent (now - RateLimit.windowMs cfg) (requests_of ip store)) ∧
    RateLimit.resetTime (RateLimit.checkRateLimit ip cfg now store) =
      RateLimit.Fin (oldest + RateLimit.windowMs cfg) ∧
    now < oldest + RateLimit.windowMs cfg ∧
    RateLimit.retryAfter (RateLimit.checkRateLimit ip cfg now store) = RateLimit.Fin r ∧
    1 ≤ r ∧ 1000 * (r - 1) < oldest + RateLimit.windowMs cfg - now ≤ 1000 * r.
Proof. exact (limited_retryAfter ip cfg now store). Qed.

(** X11 at a limit of two with requests at 1 and 2 seconds, checked at
    30.5 seconds under a window of 60 seconds. *)
Lemma X11_limited_call_has_positive_retryAfter_witness :
  let cfg := {| RateLimit.windowMs := 60000; RateLimit.maxRequests := 2 |} in
  let store : gmap (list N) (list Z) := {[ JS.lit "a" := [1000; 2000] ]} in
  ∃ oldest r,
    oldest ∈ requests_of (JS.lit "a") store ∧
    Forall (λ t, oldest ≤ t)
      (RateLimit.recent (30500 - RateLimit.windowMs cfg) (requests_of (JS.lit "a") store)) ∧
    RateLimit.resetTime (RateLimit.checkRateLimit (JS.lit "a") cfg 30500 store) =
      RateLimit.Fin (oldest + RateLimit.windowMs cfg) ∧
    30500 < oldest + RateLimit.windowMs cfg ∧
    RateLimit.retryAfter (RateLimit.checkRateLimit (JS.lit "a") cfg 30500 store) =
      RateLimit.Fin r ∧
    1 ≤ r ∧ 1000 * (r - 1) < oldest + RateLimit.windowMs cfg - 30500 ≤ 1000 * r.
Proof.
  apply (X11_limited_call_has_positive_retryAfter (JS.lit "a")
           {| RateLimit.windowMs := 60000; RateLimit.maxRequests := 2 |} 30500
           {[ JS.lit "a" := [1000; 2000] ]}).
  - simpl. lia.
  - vm_compute. reflexivity.
Defined.

Lemma requests_of_record_other ip ip' now cleanup store :
  ip ≠ ip' →
  requests_of ip (RateLimit.recordRequest ip' now cleanup store) =
  if cleanup then RateLimit.recent (now - 60 * 1000) (requests_of ip store)
  else requests_of ip store.
Proof.
  intros Hne. unfold RateLimit.recordRequest. cbv zeta. destruct cleanup.
  - rewrite requests_of_cleanup. unfold requests_of at 1.
    by rewrite lookup_insert_ne.
  - unfold requests_of at 1. by rewrite lookup_insert_ne.
Qed.

(** X12. Clients do not use up each other's limit: recording a request
    of one client leaves every check of another client as it was, when
    the recording ran no cleanup, or the window is at most 60 seconds
    and the check is not earlier than the recording. *)
Theorem X12_recording_leaves_other_clients_alone
    (ip ip' : list N) (cfg : RateLimit.config) (recorded now : Z) (cleanup : bool)
    (store : gmap (list N) (list Z)) :
  ip ≠ ip' →
  cleanup = false ∨ (RateLimit.windowMs cfg ≤ 60000 ∧ recorded ≤ now) →
  RateLimit.checkRateLimit ip cfg now (RateLimit.recordRequest ip' recorded cleanup store) =
  RateLimit.checkRateLimit ip cfg now store.
Proof.
  intros Hne Hclean. apply checkRateLimit_ext.
  rewrite requests_of_record_other by done.
  destruct cleanup; [|done]. destruct Hclean as [|[Hw Hnow]]; [done|].
  apply recent_recent. lia.
Qed.

(** X12 at two clients under the chat limits. *)
Lemma X12_recording_leaves_other_clients_alone_witness :
  RateLimit.checkRateLimit (JS.lit "a") RateLimit.chat_config 90000
    (RateLimit.recordRequest (JS.lit "b") 80000 true {[ JS.lit "a" := [1000; 50000] ]}) =
  RateLimit.checkRateLimit (JS.lit "a") RateLimit.chat_config 90000
    {[ JS.lit "a" := [1000; 50000] ]}.
Proof.
  apply (X12_recording_leaves_other_clients_alone (JS.lit "a") (JS.lit "b")
           RateLimit.chat_config 80000 90000 true).
  - discriminate.
  - right. simpl. lia.
Defined.

(** X13. After a cleanup every client still in the store has at least
    one request, all of them inside the cleanup's window and in their
    old order; a client is dropped exactly when none of its requests is
    inside; and cleaning up again at the same time changes nothing. *)
Theorem X13_cleanup_keeps_recent_requests_only
    (windowMs now : Z) (store : gmap (list N) (list Z)) (ip : list N) :
  (∀ requests, RateLimit.cleanupOldRequests windowMs now store !! ip = Some requests →
     requests ≠ [] ∧ Forall (λ t, now - windowMs < t) requests ∧
     requests = RateLimit.recent (now - windowMs) (requests_of ip store)) ∧
  (RateLimit.cleanupOldRequests windowMs now store !! ip = None ↔
     RateLimit.recent (now - windowMs) (requests_of ip store) = []) ∧
  RateLimit.cleanupOldRequests windowMs now
    (RateLimit.cleanupOldRequests windowMs now store) =
  RateLimit.cleanupOldRequests windowMs now store.
Proof.
  assert (∀ s : gmap (list N) (list Z),
            RateLimit.cleanupOldRequests windowMs now s !! ip =
            match RateLimit.recent (now - windowMs) (requests_of ip s) with
            | [] => None
            | r => Some r
            end) as Hlookup.
  { intros s. unfold RateLimit.cleanupOldRequests, requests_of. rewrite lookup_omap.
    destruct (s !! ip) as [requests|]; simpl; [|done].
    by destruct (RateLimit.recent (now - windowMs) requests). }
  split; [|split].
  - intros requests. rewrite Hlookup.
    pose proof (recent_Forall (now - windowMs) (requests_of ip store)) as Hall.
    destruct (RateLimit.recent (now - windowMs) (requests_of ip store)); [done|].
    by intros [= <-].
  - rewrite Hlookup. by destruct (RateLimit.recent _ _).
  - apply map_eq. intros k. unfold RateLimit.cleanupOldRequests.
    rewrite !lookup_omap. destruct (store !! k) as [requests|]; simpl; [|done].
    destruct (RateLimit.recent (now - windowMs) requests) as [|t l] eqn:Hr;
      cbn [mbind option_bind]; [done|].
    rewrite <- Hr, recent_recent by lia. by rewrite Hr.
Qed.

End RateLimitMore.

(** ** The rate limiting wrapper *)

Section WithRateLimit.

Local Open Scope Z_scope.

Ltac key_ne := let H := fresh in intros H; vm_compute in H; discriminate H.

Lemma getClientIP_returns headers : ∃ ip, RateLimit.getClientIP headers = Normal ip.
Proof.
  unfold RateLimit.getClientIP.
  set (ip := RateLimit.or_str _ _).
  assert (∃ v, ip = Some v) as [v ->].
  { subst ip. unfold RateLimit.or_str.
    repeat (match goal with |- context [RateLimit.headers_get ?h ?n] =>
              destruct (RateLimit.headers_get h n) as [[|??]|] end; try by eexists). }
  destruct (head_split_is_Some 44 v) as [first ->]. by eexists.
Qed.

(** X14. A call that the check finds limited, under a limit of at least
    one, is answered 429 without running the handler and without being
    recorded; the answer carries the limit, a remaining count of 0 and a
    [Retry-After] of at least one second. *)
Theorem X14_limited_call_is_answered_429
    (handler : Event.t → completion Response.t) (cfg : RateLimit.config) (event : Event.t)
    (checked recorded : Z) (cleanup : bool) (store : gmap (list N) (list Z)) (ip : list N) :
  RateLimit.getClientIP (Event.headers event) = Normal ip →
  1 ≤ RateLimit.maxRequests cfg →
  RateLimit.isLimited (RateLimit.checkRateLimit ip cfg checked store) = true →
  ∃ response r,
    RateLimitMiddleware.withRateLimit handler cfg event checked recorded cleanup store =
      (Normal response, store) ∧
    (∀ other, RateLimitMiddleware.withRateLimit other cfg event checked recorded cleanup store =
              (Normal response, store)) ∧
    Response.statusCode response = 429 ∧
    Response.headers response !! JS.lit "Retry-After" =
      Some (RateLimitMiddleware.Z_toString r) ∧ 1 ≤ r ∧
    Response.headers response !! JS.lit "X-RateLimit-Remaining" = Some (JS.lit "0") ∧
    Response.headers response !! JS.lit "X-RateLimit-Limit" =
      Some (RateLimitMiddleware.Z_toString (RateLimit.maxRequests cfg)).
Proof.
  intros Hip Hmax Hlimited.
  destruct (limited_retryAfter ip cfg checked store Hmax Hlimited)
    as (oldest & r & _ & _ & _ & _ & Hretry & Hr & _).
  destruct (checkRateLimit_consistent ip cfg checked store)
    as (_ & Hlimit & _ & Hzero & _).
  apply Hzero in Hlimited as Hremaining.
  exists (RateLimitMiddleware.rateLimitResponse (RateLimit.checkRateLimit ip cfg checked store)), r.
  unfold RateLimitMiddleware.withRateLimit. rewrite Hip. cbv zeta. rewrite Hlimited.
  split; [done|]. split; [done|]. split; [done|].
  unfold RateLimitMiddleware.rateLimitResponse. cbn [Response.headers].
  rewrite Hretry, Hremaining, Hlimit. cbn [RateLimitMiddleware.number_toString].
  split; [by rewrite lookup_insert_eq|]. split; [done|]. split.
  - rewrite lookup_insert_ne by key_ne. rewrite lookup_insert_ne by key_ne.
    by rewrite lookup_insert_eq.
  - do 3 (rewrite lookup_insert_ne by key_ne). by rewrite lookup_insert_eq.
Qed.

Lemma X14_limited_call_is_answered_429_witness :
  let cfg := {| RateLimit.windowMs := 60000; RateLimit.maxRequests := 2 |} in
  let event := {| Event.httpMethod := JS.lit "POST"; Event.headers := ∅; Event.body := None |} in
  let store : gmap (list N) (list Z) := {[ JS.lit "unknown" := [1000; 2000] ]} in
  let handler := λ _ : Event.t, @Throw Response.t TypeError in
  ∃ response r,
    RateLimitMiddleware.withRateLimit handler cfg event 30500 30501 true store =
      (Normal response, store) ∧
    (∀ other, RateLimitMiddleware.withRateLimit other cfg event 30500 30501 true store =
              (Normal response, store)) ∧
    Response.statusCode response = 429 ∧
    Response.headers response !! JS.lit "Retry-After" =
      Some (RateLimitMiddleware.Z_toString r) ∧ 1 ≤ r ∧
    Response.headers response !! JS.lit "X-RateLimit-Remaining" = Some (JS.lit "0") ∧
    Response.headers response !! JS.lit "X-RateLimit-Limit" =
      Some (RateLimitMiddleware.Z_toString (RateLimit.maxRequests cfg)).
Proof.
  apply (X14_limited_call_is_answered_429 (λ _ : Event.t, @Throw Response.t TypeError)
           {| RateLimit.windowMs := 60000; RateLimit.maxRequests := 2 |}
           {| Event.httpMethod := JS.lit "POST"; Event.headers := ∅; Event.body := None |}
           30500 30501 true {[ JS.lit "unknown" := [1000; 2000] ]} (JS.lit "unknown")).
  - vm_compute. reflexivity.
  - simpl. lia.
  - vm_compute. reflexivity.
Defined.

(** X15. A call that the check lets through is recorded before the
    handler runs, also when the handler throws, and the error is thrown
    on. The handler's response keeps its status, body and own headers;
    only the three rate limit headers are set, the remaining count being
    one less than the check reported. *)
Theorem X15_allowed_call_is_recorded_and_labelled
    (handler : Event.t → completion Response.t) (cfg : RateLimit.config) (event : Event.t)
    (checked recorded : Z) (cleanup : bool) (store : gmap (list N) (list Z)) (ip : list N) :
  RateLimit.getClientIP (Event.headers event) = Normal ip →
  RateLimit.isLimited (RateLimit.checkRateLimit ip cfg checked store) = false →
  let info := RateLimit.checkRateLimit ip cfg checked store in
  let result := RateLimitMiddleware.withRateLimit handler cfg event checked recorded cleanup store in
  snd result = RateLimit.recordRequest ip recorded cleanup store ∧
  match handler event with
  | Throw error => fst result = Throw error
  | Normal response =>
      ∃ out, fst result = Normal out ∧
        Response.statusCode out = Response.statusCode response ∧
        Response.body out = Response.body response ∧
        Response.headers out !! JS.lit "X-RateLimit-Limit" =
          Some (RateLimitMiddleware.Z_toString (RateLimit.maxRequests cfg)) ∧
        Response.headers out !! JS.lit "X-RateLimit-Remaining" =
          Some (RateLimitMiddleware.Z_toString
                  (RateLimit.maxRequests cfg - RateLimit.current info - 1)) ∧
        0 ≤ RateLimit.maxRequests cfg - RateLimit.current info - 1 ∧
        (∀ name, name ≠ JS.lit "X-RateLimit-Limit" →
                 name ≠ JS.lit "X-RateLimit-Remaining" →
                 name ≠ JS.lit "X-RateLimit-Reset" →
                 Response.headers out !! name = Response.headers response !! name)
  end.
Proof.
  intros Hip Hfree. cbv zeta.
  destruct (checkRateLimit_consistent ip cfg checked store)
    as (_ & Hlimit & _ & _ & Hroom).
  destruct (Hroom Hfree) as [Hremaining Hpositive].
  unfold RateLimitMiddleware.withRateLimit. rewrite Hip. cbv zeta. rewrite Hfree.
  destruct (handler event) as [response|error]; cbn [fst snd]; [|done].
  split; [done|]. eexists. split; [reflexivity|].
  unfold RateLimitMiddleware.addRateLimitHeaders, RateLimitMiddleware.one_less_remaining.
  cbn [Response.statusCode Response.body Response.headers RateLimit.limit
       RateLimit.remaining RateLimit.resetTime].
  rewrite Hremaining, Hlimit in *.
  split; [done|]. split; [done|]. split; [|split; [|split]].
  - do 2 (rewrite lookup_insert_ne by key_ne). by rewrite lookup_insert_eq.
  - rewrite lookup_insert_ne by key_ne. by rewrite lookup_insert_eq.
  - lia.
  - intros name H1 H2 H3. by rewrite !lookup_insert_ne.
Qed.

Lemma X15_allowed_call_is_recorded_and_labelled_witness :
  let cfg := {| RateLimit.windowMs := 60000; RateLimit.maxRequests := 3 |} in
  let event := {| Event.httpMethod := JS.lit "POST"; Event.headers := ∅; Event.body := None |} in
  let store : gmap (list N) (list Z) := {[ JS.lit "unknown" := [1000; 2000] ]} in
  let ok := {| Response.statusCode := 200;
               Response.headers := {[ JS.lit "Content-Type" := JS.lit "text/plain" ]};
               Response.body := JS.lit "ok" |} in
  let handler := λ _ : Event.t, Normal ok in
  let info := RateLimit.checkRateLimit (JS.lit "unknown") cfg 30500 store in
  let result := RateLimitMiddleware.withRateLimit handler cfg event 30500 30501 true store in
  snd result = RateLimit.recordRequest (JS.lit "unknown") 30501 true store ∧
  ∃ out, fst result = Normal out ∧
    Response.statusCode out = Response.statusCode ok ∧
    Response.body out = Response.body ok ∧
    Response.headers out !! JS.lit "X-RateLimit-Limit" =
      Some (RateLimitMiddleware.Z_toString (RateLimit.maxRequests cfg)) ∧
    Response.headers out !! JS.lit "X-RateLimit-Remaining" =
      Some (RateLimitMiddleware.Z_toString
              (RateLimit.maxRequests cfg - RateLimit.current info - 1)) ∧
    0 ≤ RateLimit.maxRequests cfg - RateLimit.current info - 1 ∧
    (∀ name, name ≠ JS.lit "X-RateLimit-Limit" →
             name ≠ JS.lit "X-RateLimit-Remaining" →
             name ≠ JS.lit "X-RateLimit-Reset" →
             Response.headers out !! name = Response.headers ok !! name).
Proof.
  apply (X15_allowed_call_is_recorded_and_labelled
           (λ _ : Event.t,
              Normal {| Response.statusCode := 200;
                        Response.headers := {[ JS.lit "Content-Type" := JS.lit "text/plain" ]};
                        Response.body := JS.lit "ok" |})
           {| RateLimit.windowMs := 60000; RateLimit.maxRequests := 3 |}
           {| Event.httpMethod := JS.lit "POST"; Event.headers := ∅; Event.body := None |}
           30500 30501 true {[ JS.lit "unknown" := [1000; 2000] ]} (JS.lit "unknown")).
  - vm_compute. reflexivity.
  - vm_compute. reflexivity.
Defined.

End WithRateLimit.

(** ** CORS *)

Section CorsFacts.

Ltac key_ne := let H := fresh in intros H; vm_compute in H; discriminate H.

Ltac lookup_key :=
  repeat (rewrite lookup_insert_ne by key_ne); rewrite ?lookup_insert_eq; try done.

Lemma isAllowed_validateOrigin e event :
  existsb (JS.str_eqb (JS.lit "*")) (Cors.ALLOWED_ORIGINS e) ||
  Cors.includes_origin (Cors.ALLOWED_ORIGINS e) (Cors.origin_of event) ||
  Cors.development_localhost e (Cors.origin_of event) = Cors.validateOrigin e event.
Proof.
  unfold Cors.validateOrigin. cbv zeta.
  destruct (Cors.development_localhost e (Cors.origin_of event));
    [apply orb_true_r | apply orb_false_r].
Qed.

Lemma setCorsHeaders_cases e event headers :
  let fixed :=
    <[JS.lit "Vary" := JS.lit "Origin"]>
    (<[JS.lit "Access-Control-Max-Age" := JS.lit "86400"]>
    (<[JS.lit "Access-Control-Allow-Headers" :=
         JS.lit "Content-Type, Authorization, X-Requested-With"]>
    (<[JS.lit "Access-Control-Allow-Methods" := JS.lit "GET, POST, OPTIONS"]> headers))) in
  (∃ o, Cors.origin_of event = Some o ∧ o ≠ [] ∧ Cors.validateOrigin e event = true ∧
        Cors.setCorsHeaders e event headers =
          <[JS.lit "Access-Control-Allow-Credentials" := JS.lit "true"]>
          (<[JS.lit "Access-Control-Allow-Origin" := o]> fixed)) ∨
  ((∀ o, Cors.origin_of event = Some o → o ≠ [] → Cors.validateOrigin e event = false) ∧
   Cors.setCorsHeaders e event headers = fixed).
Proof.
  cbv zeta. unfold Cors.setCorsHeaders. cbv zeta. rewrite isAllowed_validateOrigin.
  destruct (Cors.origin_of event) as [[|c r]|] eqn:Ho.
  - right. split; [by intros o [= <-]|done].
  - destruct (Cors.validateOrigin e event) eqn:Hv.
    + left. by exists (c :: r).
    + right. split; [by intros o [= <-]|done].
  - right. by split.
Qed.

(** X16. [setCorsHeaders] always sets the four fixed CORS headers and
    keeps every other header it is given. It sets the allowed origin,
    together with the credentials flag, exactly when the request names a
    non-empty origin that [validateOrigin] accepts, and then to that
    origin itself, also when the allow list holds the wildcard;
    otherwise it leaves both headers as given, without removing them. *)
Theorem X16_setCorsHeaders_echoes_allowed_origin
    (e : Cors.env) (event : Event.t) (headers : gmap (list N) (list N)) :
  let out := Cors.setCorsHeaders e event headers in
  out !! JS.lit "Access-Control-Allow-Methods" = Some (JS.lit "GET, POST, OPTIONS") ∧
  out !! JS.lit "Access-Control-Allow-Headers" =
    Some (JS.lit "Content-Type, Authorization, X-Requested-With") ∧
  out !! JS.lit "Access-Control-Max-Age" = Some (JS.lit "86400") ∧
  out !! JS.lit "Vary" = Some (JS.lit "Origin") ∧
  (∀ o, Cors.origin_of event = Some o → o ≠ [] → Cors.validateOrigin e event = true →
        out !! JS.lit "Access-Control-Allow-Origin" = Some o ∧
        out !! JS.lit "Access-Control-Allow-Credentials" = Some (JS.lit "true")) ∧
  ((∀ o, Cors.origin_of event = Some o → o ≠ [] → Cors.validateOrigin e event = false) →
        out !! JS.lit "Access-Control-Allow-Origin" =
          headers !! JS.lit "Access-Control-Allow-Origin" ∧
        out !! JS.lit "Access-Control-Allow-Credentials" =
          headers !! JS.lit "Access-Control-Allow-Credentials") ∧
  (∀ name,
     name ∉ [JS.lit "Access-Control-Allow-Methods"; JS.lit "Access-Control-Allow-Headers";
             JS.lit "Access-Control-Max-Age"; JS.lit "Vary";
             JS.lit "Access-Control-Allow-Origin"; JS.lit "Access-Control-Allow-Credentials"] →
     out !! name = headers !! name).
Proof.
  cbv zeta.
  destruct (setCorsHeaders_cases e event headers) as [(o & Ho & Hne & Hv & ->) | [Hno ->]].
  - split; [lookup_key|]. split; [lookup_key|]. split; [lookup_key|]. split; [lookup_key|].
    split; [|split].
    + intros o' Ho' _ _. rewrite Ho in Ho'. injection Ho' as <-. split; lookup_key.
    + intros Hno. specialize (Hno o Ho Hne). congruence.
    + intros name Hname. rewrite !not_elem_of_cons in Hname.
      destruct Hname as (? & ? & ? & ? & ? & ? & _). by rewrite !lookup_insert_ne.
  - split; [lookup_key|]. split; [lookup_key|]. split; [lookup_key|]. split; [lookup_key|].
    split; [|split].
    + intros o Ho Hne Hv. specialize (Hno o Ho Hne). congruence.
    + intros _. split; lookup_key.
    + intros name Hname. rewrite !not_elem_of_cons in Hname.
      destruct Hname as (? & ? & ? & ? & ? & ? & _). by rewrite !lookup_insert_ne.
Qed.

(** X17. [withCors] answers a preflight itself, 200 with an empty body,
    without running the handler. Any other request runs the handler,
    whatever its origin: the response keeps its status and body, and an
    error thrown by the handler becomes a 500 with a JSON body. Every
    answer carries [Vary: Origin]. *)
Theorem X17_withCors_wraps_the_handler
    (e : Cors.env) (handler : Event.t → completion Response.t) (event : Event.t) :
  let out := Cors.withCors e handler event in
  Response.headers out !! JS.lit "Vary" = Some (JS.lit "Origin") ∧
  (Event.httpMethod event = JS.lit "OPTIONS" →
     Response.statusCode out = 200%Z ∧ Response.body out = [] ∧
     ∀ other, Cors.withCors e other event = out) ∧
  (Event.httpMethod event ≠ JS.lit "OPTIONS" →
     match handler event with
     | Normal response =>
         Response.statusCode out = Response.statusCode response ∧
         Response.body out = Response.body response ∧
         Response.headers out = Cors.setCorsHeaders e event (Response.headers response)
     | Throw _ =>
         Response.statusCode out = 500%Z ∧
         Response.headers out !! JS.lit "Content-Type" = Some (JS.lit "application/json") ∧
         Response.body out =
           JS.qlit "{'error':{'type':'internal_error','message':'Error interno del servidor'}}"
     end).
Proof.
  cbv zeta.
  assert (∀ h, Cors.setCorsHeaders e event h !! JS.lit "Vary" = Some (JS.lit "Origin")) as Hvary.
  { intros h.
    destruct (setCorsHeaders_cases e event h) as [(o & _ & _ & _ & ->) | [_ ->]].
    - lookup_key.
    - lookup_key. }
  unfold Cors.withCors.
  destruct (JS.str_eqb (Event.httpMethod event) (JS.lit "OPTIONS")) eqn:Hm.
  - apply str_eqb_eq in Hm. split; [apply Hvary|]. split; [done|]. by intros Hne.
  - apply str_eqb_neq in Hm. split.
    + destruct (handler event); cbn [Response.headers]; [apply Hvary|].
      rewrite lookup_insert_ne by key_ne. apply Hvary.
    + split; [done|]. intros _. destruct (handler event); [done|].
      cbn [Response.statusCode Response.headers Response.body].
      by rewrite lookup_insert_eq.
Qed.

End CorsFacts.

(** ** Sanitizing *)

(** X18. [sanitizeString] takes out of a string the control characters
    U+0000 to U+0008, U+000B, U+000C, U+000E to U+001F and U+007F and
    nothing else, keeping the order of what is left (tab, line feed and
    carriage return among it); sanitizing twice is sanitizing once, and
    a value that is not a string comes back as it is. *)
Theorem X18_sanitizeString_removes_control_characters (v : value) :
  Sanitize.sanitizeString (Sanitize.sanitizeString v) = Sanitize.sanitizeString v ∧
  (∀ s, ∃ s',
     Sanitize.sanitizeString (Str s) = Str s' ∧
     Forall (λ c, Sanitize.is_control c = false) s' ∧
     s' = List.filter (λ c, negb (Sanitize.is_control c)) s ∧
     (Forall (λ c, Sanitize.is_control c = false) s → s' = s) ∧
     (length s' ≤ length s)%nat) ∧
  (∀ c, Sanitize.is_control c = true ↔
        c ≤ 8 ∨ c = 11 ∨ c = 12 ∨ (14 ≤ c ∧ c ≤ 31) ∨ c = 127) ∧
  ((∀ s, v ≠ Str s) → Sanitize.sanitizeString v = v).
Proof.
  assert (∀ s, Forall (λ c, Sanitize.is_control c = false)
                 (List.filter (λ c, negb (Sanitize.is_control c)) s)) as Hclean.
  { intros s. apply Forall_forall. intros c Hc%list_elem_of_In%filter_In.
    destruct Hc as [_ Hc]. by apply negb_true_iff. }
  assert (∀ s, Forall (λ c, Sanitize.is_control c = false) s →
               List.filter (λ c, negb (Sanitize.is_control c)) s = s) as Hsame.
  { intros s Hs. induction Hs as [|c s Hc _ IH]; [done|]. simpl. by rewrite Hc, IH. }
  split; [|split; [|split]].
  - destruct v; try done. simpl. f_equal. apply Hsame, Hclean.
  - intros s. eexists. split; [reflexivity|]. split; [apply Hclean|]. split; [done|].
    split; [apply Hsame|]. apply List.filter_length_le.
  - intros c. unfold Sanitize.is_control.
    rewrite !orb_true_iff, andb_true_iff, !N.leb_le, !N.eqb_eq. tauto.
  - intros Hv. destruct v; try done. by destruct (Hv s).
Qed.


(** ** Number values *)

(** [0.7], the default temperature, and [2.0000000000000001], which is
    the Number 2. *)
Example of_decimal_0_7 :
  Double.of_decimal false 7 (-1) = Double.Finite false 6305039478318694 (-53).
Proof. by vm_compute. Qed.

Example of_decimal_rounds_to_2 :
  Double.compare (Double.of_decimal false 20000000000000001 (-16)) (Double.of_Z 2) = Eq.
Proof. by vm_compute. Qed.

(** The least positive Number, underflow to zero and overflow to
    infinity. *)
Example of_decimal_least :
  Double.of_decimal false 5 (-324) = Double.Finite false 1 (-1074) ∧
  Double.of_decimal false 1 (-400) = Double.Finite false 0 0 ∧
  Double.of_decimal false 1 400 = Double.Infinite false.
Proof. by vm_compute. Qed.

(** A tie goes to the even significand. *)
Example of_decimal_ties_to_even :
  Double.of_decimal false 9007199254740993 0 = Double.Finite false 4503599627370496 1 ∧
  Double.of_decimal false 9007199254740995 0 = Double.Finite false 4503599627370498 1.
Proof. by vm_compute. Qed.

(** ** Field and input validation *)

Section ValidationFacts.

Variable ToString : value → completion (list N).

(** The loop of [validateInput] checks every field, whatever the fields
    before it gave: it adds the valid values that are not [undefined]
    and the errors, each in the order of the schema. *)
Lemma validate_fields_results input fields validatedData errs validatedData' errs' :
  Validation.validate_fields ToString input fields validatedData errs
    = Normal (validatedData', errs') →
  ∃ results,
    Forall2 (field_checked ToString input) fields results ∧
    validatedData' = validatedData ++ entries_of results ∧
    errs' = errs ++ errors_of results.
Proof.
  revert validatedData errs.
  induction fields as [|[fieldName fieldSchema] rest IH]; intros validatedData errs.
  - intros [= <- <-]. exists []. by rewrite !app_nil_r.
  - cbn [Validation.validate_fields].
    destruct (get input fieldName) as [v|] eqn:Hget; cbn [Validate.bindc]; [|done].
    destruct (Validation.validateField ToString v fieldSchema (JS.lit fieldName))
      as [result|] eqn:Hfield; cbn [Validate.bindc]; [|done].
    intros H.
    assert (∃ results,
      Forall2 (field_checked ToString input) rest results ∧
      validatedData' = validatedData ++ entries_of ((fieldName, result) :: results) ∧
      errs' = errs ++ errors_of ((fieldName, result) :: results)) as (results & Hall & -> & ->).
    { destruct result as [w|error].
      - destruct w; apply IH in H as (results & Hall & -> & ->); exists results;
          (split; [done|]); cbn [entries_of errors_of omap list_omap]; by rewrite <- ?app_assoc.
      - apply IH in H as (results & Hall & -> & ->). exists results.
        split; [done|]. cbn [entries_of errors_of omap list_omap]. by rewrite <- ?app_assoc. }
    exists ((fieldName, result) :: results). split; [|done].
    constructor; [|done]. split; [done|]. by exists v.
Qed.

End ValidationFacts.

Section ValidateFieldFacts.

Variable ToString : value → completion (list N).

(** What [validateField] accepts: an absent optional field, for which it
    gives the default, or a value that conforms, which it gives back
    unchanged. *)
Lemma validateField_valid v s fieldName w :
  Validation.validateField ToString v s fieldName = Normal (Validation.FieldValid w) →
  if nullish v then Validation.required s = false ∧ w = Validation.default s
  else w = v ∧ conforms s v.
Proof.
  unfold Validation.validateField, conforms, within, Validation.says.
  destruct v as [| |b|neg mant exp|str|l|fields]; cbn [nullish];
    try (destruct (Validation.required s); [discriminate|]; by intros [= <-]);
    destruct (Validation.type s); cbn -[Validation.double_of Double.ltb Double.gtb Double.of_Z];
    try discriminate.
  all: repeat match goal with
  | |- context [Validation.truthy_bound ?b] =>
      let E := fresh "E" in
      destruct (Validation.truthy_bound b) as [?|] eqn:E
  | |- context [Validation.min ?x] =>
      let E := fresh "E" in destruct (Validation.min x) as [?|] eqn:E
  | |- context [Validation.max ?x] =>
      let E := fresh "E" in destruct (Validation.max x) as [?|] eqn:E
  end.
  all: repeat match goal with
  | |- context [if ?c then _ else _] =>
      let E := fresh "C" in destruct c eqn:E; try discriminate
  end.
  all: destruct (Validation.enum s) as [values|] eqn:Henum.
  all: repeat match goal with
  | |- context [if ?c then _ else _] =>
      let E := fresh "C" in destruct c eqn:E
  | |- context [match Validation.message ?x with _ => _ end] =>
      destruct (Validation.message x)
  | |- context [Validate.bindc (ToString ?v) _] =>
      destruct (ToString v); cbn [Validate.bindc]
  end; try discriminate.
  all: intros [= <-]; split; [done|]; split;
    [| by (intros ? [= <-] || intros ? [=])].
  all: try done.
  all: try (split; intros ? [= <-]; lia).
  all: try (split; intros ? [=]; try done; subst; try lia; done).
Qed.

End ValidateFieldFacts.

Section ValidateFieldMore.

Variable ToString : value → completion (list N).

(** Conversely, [validateField] gives back every value that conforms. *)
Lemma validateField_conforms v s fieldName :
  nullish v = false → conforms s v →
  Validation.validateField ToString v s fieldName = Normal (Validation.FieldValid v).
Proof.
  unfold Validation.validateField, conforms, within.
  destruct v as [| |b|neg mant exp|str|l|fields]; cbn [nullish]; try discriminate;
    intros _; destruct (Validation.type s);
    cbn -[Validation.double_of Double.ltb Double.gtb Double.of_Z Validation.includes_value];
    intros [Hsize Henum]; try done.
  all: repeat match goal with
  | |- context [Validation.truthy_bound ?b] =>
      let E := fresh "E" in
      destruct (Validation.truthy_bound b) as [?|] eqn:E
  | |- context [Validation.min ?x] =>
      let E := fresh "E" in destruct (Validation.min x) as [?|] eqn:E
  | |- context [Validation.max ?x] =>
      let E := fresh "E" in destruct (Validation.max x) as [?|] eqn:E
  end.
  all: repeat match goal with H : _ ∧ _ |- _ => destruct H end.
  all: repeat match goal with
  | H : ∀ k, Some ?n = Some k → _ |- _ => specialize (H n eq_refl)
  | H : ∀ k, None = Some k → _ |- _ => clear H
  end.
  all: repeat match goal with
  | H : ?c = false |- context [if ?c then _ else _] => rewrite H
  | |- context [if (?a <? ?b)%Z then _ else _] =>
      destruct (Z.ltb_spec a b); [lia|]
  end.
  all: destruct (Validation.enum s) as [values|]; [|done].
  all: by rewrite (Henum values eq_refl).
Qed.

(** [validateField] throws only where it has to show the value of a
    field with an [enum] and no [message]. *)
Lemma validateField_returns v s fieldName :
  Validation.message s ≠ [] →
  ∃ result, Validation.validateField ToString v s fieldName = Normal result.
Proof.
  intros Hmessage. unfold Validation.validateField.
  destruct (Validation.message s) as [|c msg] eqn:Hmsg; [done|].
  repeat match goal with
  | |- context [match ?x with _ => _ end] => destruct x
  end; by eexists.
Qed.

End ValidateFieldMore.

(** What [validateMessages] accepts, message by message. *)
Lemma validate_from_valid i messages validated out :
  Validate.validate_from i messages validated = Normal (Validate.Valid out) →
  ∃ ws, out = validated ++ ws ∧ Forall2 validated_as messages ws.
Proof.
  revert i validated. induction messages as [|message rest IH]; intros i validated.
  - cbn [Validate.validate_from]. intros [= <-]. exists []. by rewrite app_nil_r.
  - cbn [Validate.validate_from].
    destruct (negb (truthy message) || negb (Validate.typeof_object message)); [done|].
    destruct (get message "role") as [role|] eqn:Hr; cbn [Validate.bindc]; [|done].
    destruct (negb (truthy role) || negb (Validate.typeof_string role)); [done|].
    destruct (Validate.includes_role role) eqn:Hrole; cbn [negb]; [|done].
    destruct (get message "content") as [content|] eqn:Hc; cbn [Validate.bindc]; [|done].
    destruct (negb (truthy content) || negb (Validate.typeof_string content)) eqn:Ht; [done|].
    destruct role as [| | | |role| |]; try done.
    destruct content as [| | | |content| |]; try done.
    destruct (10000 <? Z.of_nat (length content))%Z eqn:Hlen; [done|].
    intros (ws & -> & Hall)%IH.
    exists ({| Wire.role := role; Wire.content := JS.trim content |} :: ws).
    split; [by rewrite <- app_assoc|]. constructor; [|done].
    split; [done|]. split; [by apply includes_role_valid|].
    exists content. split; [done|]. split; [by destruct content|].
    split; [|done]. by apply Z.ltb_ge in Hlen.
Qed.

Lemma errors_of_nil_cons name result results :
  errors_of ((name, result) :: results) = [] →
  (∃ w, result = Validation.FieldValid w) ∧ errors_of results = [].
Proof.
  destruct result as [w|error]; cbn [errors_of omap list_omap]; [|done].
  intros H. split; [by exists w | done].
Qed.

Lemma includes_value_elem_of values v :
  Validation.includes_value values v = true → ∃ s, v = Str s ∧ s ∈ values.
Proof.
  destruct v as [| | | |s| |]; try done. cbn [Validation.includes_value].
  intros (r & Hin & Heq)%existsb_exists. apply str_eqb_eq in Heq. subst r.
  exists s. split; [done|]. by apply list_elem_of_In.
Qed.

Lemma fields_checked_cons ToString input name s fields results :
  Forall2 (field_checked ToString input) ((name, s) :: fields) results →
  ∃ v result rest,
    results = (name, result) :: rest ∧
    get input name = Normal v ∧
    Validation.validateField ToString v s (JS.lit name) = Normal result ∧
    Forall2 (field_checked ToString input) fields rest.
Proof.
  intros ([name' result] & rest & (Hname & v & Hget & Hfield) & Hrest & ->)%Forall2_cons_inv_l.
  cbn [fst snd] in *. subst name'. by exists v, result, rest.
Qed.

Lemma within_bounds lo hi n :
  lo ≠ 0%Z → hi ≠ 0%Z → within (Some lo) (Some hi) n → (lo ≤ n ≤ hi)%Z.
Proof.
  intros Hlo Hhi [H1 H2]. split; [apply H1 | apply H2]; by destruct lo, hi.
Qed.

(** What [validateInput] accepts for the [chat] schema: the input
    has a provider of the four, a model of 1 to 100 code units, 1 to 50
    messages, each validated by [validateMessages], a temperature that
    is absent or a number from 0 to 2, and a stream flag that is absent
    or a boolean. The validated data are these five fields and no
    other, in this order, the messages as validated, an absent
    temperature as 0.7 and an absent stream flag as [true]. *)
Lemma validateInput_chat_valid
    (ToString : value → completion (list N)) (input : value) (r : Validation.input_result) :
  Validation.validateInput ToString input (JS.lit "chat") = Normal r →
  Validation.isValid r = true →
  ∃ provider model raw messages given_temperature temperature given_stream stream,
    get input "provider" = Normal (Str provider) ∧ provider ∈ Validation.providers ∧
    get input "model" = Normal (Str model) ∧ (1 ≤ Z.of_nat (length model) ≤ 100)%Z ∧
    get input "messages" = Normal (Array raw) ∧ (1 ≤ Z.of_nat (length raw) ≤ 50)%Z ∧
    Forall2 validated_as raw messages ∧
    get input "temperature" = Normal given_temperature ∧
    temperature = or_default given_temperature (Number false 7 (-1)) ∧
    Validation.typeof_number temperature = true ∧ number_between 0 2 temperature ∧
    get input "stream" = Normal given_stream ∧
    Bool stream = or_default given_stream (Bool true) ∧
    Validation.errors r = [] ∧
    Validation.data r =
      Some [("provider"%string, Str provider); ("model"%string, Str model);
            ("messages"%string, Array (Validation.wire_value <$> messages));
            ("temperature"%string, temperature); ("stream"%string, Bool stream)].
Proof.
  unfold Validation.validateInput.
  change (Validation.VALIDATION_SCHEMAS (JS.lit "chat")) with (Some Validation.chat_schema).
  change (JS.str_eqb (JS.lit "chat") (JS.lit "chat")) with true.
  cbv beta iota.
  destruct (Validation.validate_fields ToString input Validation.chat_schema [] [])
    as [[validatedData errs]|] eqn:Hfields;
    cbn [Validate.bindc]; [|done].
  apply validate_fields_results in Hfields as (results & Hall & -> & ->).
  cbn [app].
  assert (errors_of results = [] →
    ∃ provider model raw given_temperature temperature given_stream stream,
    get input "provider" = Normal (Str provider) ∧ provider ∈ Validation.providers ∧
    get input "model" = Normal (Str model) ∧ (1 ≤ Z.of_nat (length model) ≤ 100)%Z ∧
    get input "messages" = Normal (Array raw) ∧ (1 ≤ Z.of_nat (length raw) ≤ 50)%Z ∧
    get input "temperature" = Normal given_temperature ∧
    temperature = or_default given_temperature (Number false 7 (-1)) ∧
    Validation.typeof_number temperature = true ∧ number_between 0 2 temperature ∧
    get input "stream" = Normal given_stream ∧
    Bool stream = or_default given_stream (Bool true) ∧
    entries_of results =
      [("provider"%string, Str provider); ("model"%string, Str model);
       ("messages"%string, Array raw);
       ("temperature"%string, temperature); ("stream"%string, Bool stream)]) as Hshape.
  { intros Herrs. unfold Validation.chat_schema in Hall.
    apply fields_checked_cons in Hall as (v1 & r1 & rest & -> & Hg1 & Hf1 & Hall).
    apply fields_checked_cons in Hall as (v2 & r2 & rest' & -> & Hg2 & Hf2 & Hall).
    apply fields_checked_cons in Hall as (v3 & r3 & rest & -> & Hg3 & Hf3 & Hall).
    apply fields_checked_cons in Hall as (v4 & r4 & rest' & -> & Hg4 & Hf4 & Hall).
    apply fields_checked_cons in Hall as (v5 & r5 & rest & -> & Hg5 & Hf5 & Hall).
    apply Forall2_nil_inv_l in Hall as ->.
    apply errors_of_nil_cons in Herrs as ((w1 & ->) & Herrs).
    apply errors_of_nil_cons in Herrs as ((w2 & ->) & Herrs).
    apply errors_of_nil_cons in Herrs as ((w3 & ->) & Herrs).
    apply errors_of_nil_cons in Herrs as ((w4 & ->) & Herrs).
    apply errors_of_nil_cons in Herrs as ((w5 & ->) & _).
    apply validateField_valid in Hf1, Hf2, Hf3, Hf4, Hf5.
    destruct (nullish v1) eqn:Hn1; [by destruct Hf1|]. destruct Hf1 as [-> [_ Henum]].
    specialize (Henum _ eq_refl) as (provider & -> & Hprovider)%includes_value_elem_of.
    destruct (nullish v2) eqn:Hn2; [by destruct Hf2|]. destruct Hf2 as [-> [Hmodel _]].
    destruct v2 as [| | | |model| |]; try done.
    apply within_bounds in Hmodel; [|done..].
    destruct (nullish v3) eqn:Hn3; [by destruct Hf3|]. destruct Hf3 as [-> [Hitems _]].
    destruct v3 as [| | | | |raw|]; try done.
    apply within_bounds in Hitems; [|done..].
    assert (w4 = or_default v4 (Number false 7 (-1)) ∧
            Validation.typeof_number w4 = true ∧ number_between 0 2 w4) as (Ht & Hnum & Hrange).
    { unfold or_default. destruct (nullish v4); [destruct Hf4 as [_ ->]; by vm_compute|].
      destruct Hf4 as [-> [Hc _]]. destruct v4; try done.
      destruct Hc as [Hlo Hhi]. split; [done|]. split; [done|].
      split; [by apply Hlo | by apply Hhi]. }
    assert (∃ stream, w5 = Bool stream ∧ Bool stream = or_default v5 (Bool true))
      as (stream & -> & Hstream).
    { unfold or_default. destruct (nullish v5); [destruct Hf5 as [_ ->]; by exists true|].
      destruct Hf5 as [-> [Hc _]]. destruct v5 as [| |stream| | | |]; try done.
      by exists stream. }
    exists provider, model, raw, v4, w4, v5, stream.
    repeat (split; [done|]).
    by destruct w4. }
  clear Hall.
  destruct (Validation.data_get "messages" (entries_of results)) as [m|] eqn:Hm.
  - destruct (truthy m) eqn:Htruthy.
    + destruct (Validate.validateMessages m) as [[validated|error]|] eqn:Hv;
        cbn [Validate.bindc]; [| |done].
      * intros [= <-]. cbn [Validation.isValid Validation.errors Validation.data].
        destruct (errors_of results) eqn:Herrs; [|done]. intros _.
        destruct (Hshape eq_refl)
          as (provider & model & raw & given_temperature & temperature & given_stream & stream
              & ? & ? & ? & ? & ? & ? & ? & ? & ? & ? & ? & ? & Hentries).
        rewrite Hentries in Hm |- *. injection Hm as <-.
        apply validate_from_valid in Hv as (messages & -> & Hmessages).
        exists provider, model, raw, messages, given_temperature, temperature, given_stream, stream.
        by repeat (split; [done|]).
      * intros [= <-]. cbn [Validation.isValid Validation.errors Validation.data].
        by destruct (errors_of results).
    + intros [= <-]. cbn [Validation.isValid Validation.errors Validation.data].
      destruct (errors_of results) eqn:Herrs; [|done]. intros _.
      destruct (Hshape eq_refl)
        as (? & ? & ? & ? & ? & ? & ? & _ & _ & _ & _ & _ & _ & _ & _ & _ & _ & _ & _ & Hrest).
      rewrite Hrest in Hm. by injection Hm as <-.
  - intros [= <-]. cbn [Validation.isValid Validation.errors Validation.data].
    destruct (errors_of results) eqn:Herrs; [|done]. intros _.
    destruct (Hshape eq_refl)
      as (? & ? & ? & ? & ? & ? & ? & _ & _ & _ & _ & _ & _ & _ & _ & _ & _ & _ & _ & Hrest).
    by rewrite Hrest in Hm.
Qed.

(** X19. What [validateInput] accepts for the [chat] schema: the input
    has a provider of the four, a model of 1 to 100 code units, 1 to 50
    messages, each validated by [validateMessages], a temperature that
    is absent or a number from 0 to 2, and a stream flag that is absent
    or a boolean. The validated data are these five fields and no
    other, in this order, the messages as validated, an absent
    temperature as 0.7 and an absent stream flag as [true]. *)
Theorem X19_validateInput_chat_sound
    (ToString : value → completion (list N)) (input : value) (r : Validation.input_result) :
  Validation.validateInput ToString input (JS.lit "chat") = Normal r →
  Validation.isValid r = true →
  ∃ provider model raw messages given_temperature temperature given_stream stream,
    get input "provider" = Normal (Str provider) ∧ provider ∈ Validation.providers ∧
    get input "model" = Normal (Str model) ∧ (1 ≤ Z.of_nat (length model) ≤ 100)%Z ∧
    get input "messages" = Normal (Array raw) ∧ (1 ≤ Z.of_nat (length raw) ≤ 50)%Z ∧
    Forall2 validated_as raw messages ∧
    get input "temperature" = Normal given_temperature ∧
    temperature = or_default given_temperature (Number false 7 (-1)) ∧
    Validation.typeof_number temperature = true ∧ number_between 0 2 temperature ∧
    get input "stream" = Normal given_stream ∧
    Bool stream = or_default given_stream (Bool true) ∧
    Validation.errors r = [] ∧
    Validation.data r =
      Some [("provider"%string, Str provider); ("model"%string, Str model);
            ("messages"%string, Array (Validation.wire_value <$> messages));
            ("temperature"%string, temperature); ("stream"%string, Bool stream)].
Proof. apply validateInput_chat_valid. Qed.


Lemma X19_validateInput_chat_sound_witness :
  let input :=
    Object [(JS.lit "provider", Str (JS.lit "openai")); (JS.lit "model", Str (JS.lit "gpt-4"));
            (JS.lit "messages", Array [user_object (JS.lit " hi ")]);
            (JS.lit "user", Str (JS.lit "me"))] in
  ∃ r,
    Validation.validateInput (λ _, Throw TypeError) input (JS.lit "chat") = Normal r ∧
    Validation.isValid r = true ∧
    ∃ provider model raw messages given_temperature temperature given_stream stream,
      get input "provider" = Normal (Str provider) ∧ provider ∈ Validation.providers ∧
      get input "model" = Normal (Str model) ∧ (1 ≤ Z.of_nat (length model) ≤ 100)%Z ∧
      get input "messages" = Normal (Array raw) ∧ (1 ≤ Z.of_nat (length raw) ≤ 50)%Z ∧
      Forall2 validated_as raw messages ∧
      get input "temperature" = Normal given_temperature ∧
      temperature = or_default given_temperature (Number false 7 (-1)) ∧
      Validation.typeof_number temperature = true ∧ number_between 0 2 temperature ∧
      get input "stream" = Normal given_stream ∧
      Bool stream = or_default given_stream (Bool true) ∧
      Validation.errors r = [] ∧
      Validation.data r =
        Some [("provider"%string, Str provider); ("model"%string, Str model);
              ("messages"%string, Array (Validation.wire_value <$> messages));
              ("temperature"%string, temperature); ("stream"%string, Bool stream)].
Proof.
  cbv zeta. eexists. split; [by vm_compute|]. split; [done|].
  apply (X19_validateInput_chat_sound (λ _, Throw TypeError)); [by vm_compute | done].
Defined.

(** What [AzureImageProvider.validateParams] lets through. *)
Lemma AzureImage_validateParams_accepts prompt size quality :
  (1 ≤ Z.of_nat (length prompt) ≤ 4000)%Z →
  size ∈ AzureImageProvider.validSizes → quality ∈ AzureImageProvider.validQualities →
  AzureImageProvider.validateParams (Str prompt) (Some size) (Some quality) = Normal tt.
Proof.
  intros Hlen Hsize Hquality. unfold AzureImageProvider.validateParams.
  destruct prompt as [|c prompt]; [simpl in Hlen; lia|].
  cbn [truthy Validate.typeof_string negb orb Validation.length_of].
  destruct (Z.ltb_spec (Z.of_nat (length (c :: prompt))) 1); [lia|].
  destruct (Z.ltb_spec 4000 (Z.of_nat (length (c :: prompt)))); [lia|].
  assert (∀ values s, s ∈ values → AzureImageProvider.includes_opt values (Some s) = true)
    as Hin.
  { intros values s Hs. cbn [AzureImageProvider.includes_opt]. apply existsb_exists.
    exists s. split; [by apply list_elem_of_In | by apply str_eqb_eq]. }
  by rewrite !Hin.
Qed.

(** X20. What [validateInput] accepts for the [image] schema: a prompt
    of 1 to 4000 code units, a size that is absent or one of the three,
    a quality that is absent or one of the two; the validated data are
    these three fields, an absent size as 1024x1024 and an absent
    quality as standard. [AzureImageProvider.validateParams] lets every
    such validated request through. *)
Theorem X20_validateInput_image_sound
    (ToString : value → completion (list N)) (input : value) (r : Validation.input_result) :
  Validation.validateInput ToString input (JS.lit "image") = Normal r →
  Validation.isValid r = true →
  ∃ prompt given_size size given_quality quality,
    get input "prompt" = Normal (Str prompt) ∧ (1 ≤ Z.of_nat (length prompt) ≤ 4000)%Z ∧
    get input "size" = Normal given_size ∧
    Str size = or_default given_size (Str (JS.lit "1024x1024")) ∧
    size ∈ Validation.sizes ∧
    get input "quality" = Normal given_quality ∧
    Str quality = or_default given_quality (Str (JS.lit "standard")) ∧
    quality ∈ Validation.qualities ∧
    Validation.errors r = [] ∧
    Validation.data r =
      Some [("prompt"%string, Str prompt); ("size"%string, Str size);
            ("quality"%string, Str quality)] ∧
    AzureImageProvider.validateParams (Str prompt) (Some size) (Some quality) = Normal tt.
Proof.
  unfold Validation.validateInput.
  change (Validation.VALIDATION_SCHEMAS (JS.lit "image")) with (Some Validation.image_schema).
  change (JS.str_eqb (JS.lit "image") (JS.lit "chat")) with false.
  cbv beta iota.
  destruct (Validation.validate_fields ToString input Validation.image_schema [] [])
    as [[validatedData errs]|] eqn:Hfields; cbn [Validate.bindc]; [|done].
  apply validate_fields_results in Hfields as (results & Hall & -> & ->).
  cbn [app]. intros [= <-]. cbn [Validation.isValid Validation.errors Validation.data].
  destruct (errors_of results) eqn:Herrs; [|done]. intros _.
  unfold Validation.image_schema in Hall.
  apply fields_checked_cons in Hall as (v1 & r1 & rest & -> & Hg1 & Hf1 & Hall).
  apply fields_checked_cons in Hall as (v2 & r2 & rest' & -> & Hg2 & Hf2 & Hall).
  apply fields_checked_cons in Hall as (v3 & r3 & rest & -> & Hg3 & Hf3 & Hall).
  apply Forall2_nil_inv_l in Hall as ->.
  apply errors_of_nil_cons in Herrs as ((w1 & ->) & Herrs).
  apply errors_of_nil_cons in Herrs as ((w2 & ->) & Herrs).
  apply errors_of_nil_cons in Herrs as ((w3 & ->) & _).
  apply validateField_valid in Hf1, Hf2, Hf3.
  destruct (nullish v1) eqn:Hn1; [by destruct Hf1|]. destruct Hf1 as [-> [Hprompt _]].
  destruct v1 as [| | | |prompt| |]; try done.
  apply within_bounds in Hprompt; [|done..].
  assert (∃ size, w2 = Str size ∧ Str size = or_default v2 (Str (JS.lit "1024x1024")) ∧
                  size ∈ Validation.sizes) as (size & -> & Hsize & Hsizes).
  { unfold or_default. destruct (nullish v2).
    - destruct Hf2 as [_ ->]. eexists. split; [done|]. split; [done|].
      apply list_elem_of_In. by left.
    - destruct Hf2 as [-> [_ Henum]].
      specialize (Henum _ eq_refl) as (size & -> & Hin)%includes_value_elem_of. by exists size. }
  assert (∃ quality, w3 = Str quality ∧ Str quality = or_default v3 (Str (JS.lit "standard")) ∧
                  quality ∈ Validation.qualities) as (quality & -> & Hquality & Hqualities).
  { unfold or_default. destruct (nullish v3).
    - destruct Hf3 as [_ ->]. eexists. split; [done|]. split; [done|].
      apply list_elem_of_In. by left.
    - destruct Hf3 as [-> [_ Henum]].
      specialize (Henum _ eq_refl) as (quality & -> & Hin)%includes_value_elem_of.
      by exists quality. }
  exists prompt, v2, size, v3, quality.
  repeat (split; [done|]).
  by apply AzureImage_validateParams_accepts.
Qed.

Lemma X20_validateInput_image_sound_witness :
  let input :=
    Object [(JS.lit "prompt", Str (JS.lit "a cat")); (JS.lit "quality", Str (JS.lit "hd"))] in
  ∃ r,
    Validation.validateInput (λ _, Throw TypeError) input (JS.lit "image") = Normal r ∧
    Validation.isValid r = true ∧
    ∃ prompt given_size size given_quality quality,
      get input "prompt" = Normal (Str prompt) ∧ (1 ≤ Z.of_nat (length prompt) ≤ 4000)%Z ∧
      get input "size" = Normal given_size ∧
      Str size = or_default given_size (Str (JS.lit "1024x1024")) ∧
      size ∈ Validation.sizes ∧
      get input "quality" = Normal given_quality ∧
      Str quality = or_default given_quality (Str (JS.lit "standard")) ∧
      quality ∈ Validation.qualities ∧
      Validation.errors r = [] ∧
      Validation.data r =
        Some [("prompt"%string, Str prompt); ("size"%string, Str size);
              ("quality"%string, Str quality)] ∧
      AzureImageProvider.validateParams (Str prompt) (Some size) (Some quality) = Normal tt.
Proof.
  cbv zeta. eexists. split; [by vm_compute|]. split; [done|].
  apply (X20_validateInput_image_sound (λ _, Throw TypeError)); [by vm_compute | done].
Defined.

Lemma includes_opt_elem_of values x :
  AzureImageProvider.includes_opt values x = true ↔ ∃ s, x = Some s ∧ s ∈ values.
Proof.
  destruct x as [s|]; cbn [AzureImageProvider.includes_opt].
  - rewrite existsb_exists. split.
    + intros (r & Hin & Heq). apply str_eqb_eq in Heq. subst r.
      exists s. split; [done|]. by apply list_elem_of_In.
    + intros (? & [= <-] & Hin). exists s. split; [by apply list_elem_of_In | by apply str_eqb_eq].
  - split; [done|]. by intros (? & ? & _).
Qed.

(** X21. [AzureImageProvider.validateParams] returns exactly for a
    prompt that is a string of 1 to 4000 code units, a size of the three
    and a quality of the two. Its error for an empty prompt is never
    thrown: an empty prompt is falsy and gets the error of the first
    check. *)
Theorem X21_AzureImage_validateParams_accepts_iff
    (prompt : value) (size quality : option (list N)) :
  (AzureImageProvider.validateParams prompt size quality = Normal tt ↔
   ∃ p s q, prompt = Str p ∧ size = Some s ∧ quality = Some q ∧
            (1 ≤ Z.of_nat (length p) ≤ 4000)%Z ∧
            s ∈ AzureImageProvider.validSizes ∧ q ∈ AzureImageProvider.validQualities) ∧
  AzureImageProvider.validateParams prompt size quality ≠
    Throw (Error (Str (JS.lit "El prompt no puede estar vac" ++ [0xED] ++ JS.lit "o"))) ∧
  AzureImageProvider.validateParams (Str []) size quality =
    Throw (Error (Str (JS.lit "El prompt es requerido y debe ser un string"))).
Proof.
  split; [|split; [|done]].
  - split.
    + unfold AzureImageProvider.validateParams.
      destruct (negb (truthy prompt) || negb (Validate.typeof_string prompt)) eqn:Hp; [done|].
      destruct prompt as [| | | |p| |]; try done.
      cbn [Validation.length_of].
      destruct (Z.ltb_spec (Z.of_nat (length p)) 1); [done|].
      destruct (Z.ltb_spec 4000 (Z.of_nat (length p))); [done|].
      destruct (AzureImageProvider.includes_opt AzureImageProvider.validSizes size) eqn:Hs;
        [|done].
      destruct (AzureImageProvider.includes_opt AzureImageProvider.validQualities quality)
        eqn:Hq; [|done].
      apply includes_opt_elem_of in Hs as (s & -> & Hs), Hq as (q & -> & Hq).
      intros _. by exists p, s, q.
    + intros (p & s & q & -> & -> & -> & Hlen & Hs & Hq).
      by apply AzureImage_validateParams_accepts.
  - unfold AzureImageProvider.validateParams.
    destruct (negb (truthy prompt) || negb (Validate.typeof_string prompt)) eqn:Hp; [done|].
    destruct prompt as [| |b| |p| |]; cbn in Hp; rewrite ?orb_true_r in Hp; try done.
    destruct p as [|c p]; [done|].
    cbn [Validation.length_of].
    destruct (Z.ltb_spec (Z.of_nat (length (c :: p))) 1); [simpl in *; lia|].
    repeat match goal with
    | |- context [if ?c then _ else _] => destruct c
    end; done.
Qed.

Lemma get_returns input name :
  nullish input = false → ∃ v, get input name = Normal v.
Proof. destruct input; try done; by eexists. Qed.

Lemma validate_fields_returns ToString input fields validatedData errs :
  nullish input = false →
  Forall (λ f, Validation.message (snd f) ≠ []) fields →
  ∃ out, Validation.validate_fields ToString input fields validatedData errs = Normal out.
Proof.
  intros Hinput Hfields. revert validatedData errs.
  induction Hfields as [|[fieldName fieldSchema] rest Hmessage _ IH]; intros validatedData errs.
  - by eexists.
  - cbn [Validation.validate_fields].
    destruct (get_returns input fieldName Hinput) as [v ->]. cbn [Validate.bindc].
    destruct (validateField_returns ToString v fieldSchema (JS.lit fieldName) Hmessage)
      as [result ->].
    cbn [Validate.bindc]. destruct result as [[]|]; apply IH.
Qed.

Lemma schemas_have_messages schemaName fields :
  Validation.VALIDATION_SCHEMAS schemaName = Some fields →
  Forall (λ f, Validation.message (snd f) ≠ []) fields.
Proof.
  unfold Validation.VALIDATION_SCHEMAS.
  destruct (JS.str_eqb schemaName (JS.lit "chat")).
  { intros [= <-]. by repeat constructor. }
  destruct (JS.str_eqb schemaName (JS.lit "image")).
  { intros [= <-]. by repeat constructor. }
  destruct (existsb _ _); [|done]. intros [= <-]. constructor.
Qed.

(** [validateInput] throws for no input that is an object, an
    array, a string, a number or a boolean, whatever the schema name;
    for [null] and [undefined] the [chat] and [image] schemas throw a
    TypeError at the first field read. *)
Lemma validateInput_throws_for_null_only
    (ToString : value → completion (list N)) (input : value) (schemaName : list N) :
  (nullish input = false →
   ∃ r, Validation.validateInput ToString input schemaName = Normal r) ∧
  (nullish input = true →
   schemaName = JS.lit "chat" ∨ schemaName = JS.lit "image" →
   Validation.validateInput ToString input schemaName = Throw TypeError).
Proof.
  split.
  - intros Hinput. unfold Validation.validateInput.
    destruct (Validation.VALIDATION_SCHEMAS schemaName) as [fields|] eqn:Hschema;
      [|by eexists].
    destruct (validate_fields_returns ToString input fields [] [] Hinput
                (schemas_have_messages _ _ Hschema)) as [[validatedData errs] ->].
    cbn [Validate.bindc].
    destruct (JS.str_eqb schemaName (JS.lit "chat")); [|by eexists].
    destruct (Validation.data_get "messages" validatedData) as [messages|]; [|by eexists].
    destruct (truthy messages); [|by eexists].
    assert (∃ v, Validate.validateMessages messages = Normal v) as [v ->].
    { destruct messages; try by eexists. apply validate_from_returns. }
    cbn [Validate.bindc]. destruct v; by eexists.
  - intros Hinput [-> | ->]; by destruct input.
Qed.

(** X22. [validateInput] throws for no input that is an object, an
    array, a string, a number or a boolean, whatever the schema name;
    for [null] and [undefined] the [chat] and [image] schemas throw a
    TypeError at the first field read. *)
Theorem X22_validateInput_throws_for_null_only
    (ToString : value → completion (list N)) (input : value) (schemaName : list N) :
  (nullish input = false →
   ∃ r, Validation.validateInput ToString input schemaName = Normal r) ∧
  (nullish input = true →
   schemaName = JS.lit "chat" ∨ schemaName = JS.lit "image" →
   Validation.validateInput ToString input schemaName = Throw TypeError).
Proof. apply validateInput_throws_for_null_only. Qed.


(** ** JSON text *)

Lemma hex_digit_hex_char d : d < 16 → JSON.hex_digit (JSONText.hex_char d) = Some d.
Proof.
  intros Hd. unfold JSONText.hex_char, JSON.hex_digit, JSON.is_digit.
  destruct (N.ltb_spec d 10).
  - replace ((48 <=? 48 + d) && (48 + d <=? 57)) with true
      by (symmetry; apply andb_true_iff; split; apply N.leb_le; lia).
    f_equal. lia.
  - replace ((48 <=? 87 + d) && (87 + d <=? 57)) with false
      by (symmetry; apply andb_false_iff; right; apply N.leb_gt; lia).
    replace ((65 <=? 87 + d) && (87 + d <=? 70)) with false
      by (symmetry; apply andb_false_iff; right; apply N.leb_gt; lia).
    replace ((97 <=? 87 + d) && (87 + d <=? 102)) with true
      by (symmetry; apply andb_true_iff; split; apply N.leb_le; lia).
    f_equal. lia.
Qed.

(** [JSON.parse] reads [\uXXXX] as the code unit it was written for. *)
Lemma parse_string_unicode_escape c rest acc :
  c < 65536 →
  JSON.parse_string (JSONText.unicode_escape c ++ rest) acc = JSON.parse_string rest (c :: acc).
Proof.
  intros Hc. unfold JSONText.unicode_escape.
  cbn [app JSON.parse_string]. change (92 =? 34) with false. change (92 <? 32) with false.
  change (92 =? 92) with true. change (117 =? 117) with true. cbv iota.
  rewrite !hex_digit_hex_char by (apply N.mod_lt; lia).
  f_equal. f_equal.
  assert (c / 4096 < 16) by (apply N.Div0.div_lt_upper_bound; lia).
  rewrite (N.mod_small (c / 4096)) by done.
  pose proof (N.Div0.div_mod c 16) as H16.
  pose proof (N.Div0.div_mod (c / 16) 16) as H256.
  pose proof (N.Div0.div_mod (c / 256) 16) as H4096.
  replace (c / 16 / 16) with (c / 256) in H256 by (by rewrite N.Div0.div_div).
  replace (c / 256 / 16) with (c / 4096) in H4096 by (by rewrite N.Div0.div_div).
  lia.
Qed.

Lemma parse_string_plain c s acc :
  c ≠ 34 → 32 ≤ c → c ≠ 92 →
  JSON.parse_string (c :: s) acc = JSON.parse_string s (c :: acc).
Proof.
  intros H34 H32 H92. cbn [JSON.parse_string].
  rewrite (proj2 (N.eqb_neq c 34)), (proj2 (N.ltb_ge c 32)), (proj2 (N.eqb_neq c 92)); done.
Qed.

Lemma parse_string_escaped e u s acc :
  e ≠ 117 → JSON.escape e = Some u →
  JSON.parse_string (92 :: e :: s) acc = JSON.parse_string s (u :: acc).
Proof.
  intros H117 Hu. cbn [JSON.parse_string].
  change (92 =? 34) with false. change (92 <? 32) with false. change (92 =? 92) with true.
  cbv iota. by rewrite (proj2 (N.eqb_neq e 117)), Hu.
Qed.

Lemma surrogate_bounds c :
  JSONText.is_high_surrogate c = true ∨ JSONText.is_low_surrogate c = true →
  55296 ≤ c ∧ c < 65536.
Proof.
  unfold JSONText.is_high_surrogate, JSONText.is_low_surrogate.
  intros [[H1 H2]%andb_true_iff | [H1 H2]%andb_true_iff];
    apply N.leb_le in H1, H2; lia.
Qed.

(** [JSON.parse] reads the characters [JSON.stringify] writes for a
    string, up to the closing quote, as the string. *)
Lemma parse_string_escape n s acc rest :
  (length s ≤ n)%nat →
  JSON.parse_string (JSONText.escape s ++ 34 :: rest) acc = Some (reverse acc ++ s, rest).
Proof.
  revert s acc. induction n as [|n IH]; intros s acc Hn.
  { destruct s; [|simpl in Hn; lia]. cbn. by rewrite app_nil_r. }
  destruct s as [|c r]; [cbn; by rewrite app_nil_r|].
  simpl in Hn.
  assert (∀ u, JSON.parse_string (JSONText.escape r ++ 34 :: rest) (u :: acc) =
               Some (reverse acc ++ u :: r, rest)) as Hnext.
  { intros u. rewrite IH by lia. by rewrite reverse_cons, <- app_assoc. }
  cbn [JSONText.escape].
  destruct (N.eqb_spec c 8) as [->|H8].
  { cbn [app]. by rewrite (parse_string_escaped 98 8). }
  destruct (N.eqb_spec c 9) as [->|H9].
  { cbn [app]. by rewrite (parse_string_escaped 116 9). }
  destruct (N.eqb_spec c 10) as [->|H10].
  { cbn [app]. by rewrite (parse_string_escaped 110 10). }
  destruct (N.eqb_spec c 12) as [->|H12].
  { cbn [app]. by rewrite (parse_string_escaped 102 12). }
  destruct (N.eqb_spec c 13) as [->|H13].
  { cbn [app]. by rewrite (parse_string_escaped 114 13). }
  destruct (N.eqb_spec c 34) as [->|H34].
  { cbn [app]. by rewrite (parse_string_escaped 34 34). }
  destruct (N.eqb_spec c 92) as [->|H92].
  { cbn [app]. by rewrite (parse_string_escaped 92 92). }
  destruct (N.ltb_spec c 32) as [H32|H32].
  { rewrite <- app_assoc, parse_string_unicode_escape by lia. apply Hnext. }
  destruct (JSONText.is_high_surrogate c) eqn:Hhigh.
  { pose proof (surrogate_bounds c (or_introl Hhigh)) as [Hc1 Hc2].
    destruct r as [|d r'].
    - rewrite parse_string_unicode_escape by lia.
      change (JSON.parse_string (34 :: rest) (c :: acc)) with (Some (reverse (c :: acc), rest)).
      by rewrite reverse_cons.
    - destruct (JSONText.is_low_surrogate d) eqn:Hlow.
      + pose proof (surrogate_bounds d (or_intror Hlow)) as [Hd1 Hd2].
        cbn [app]. rewrite !parse_string_plain by lia.
        simpl in Hn. rewrite IH by lia.
        by rewrite !reverse_cons, <- !app_assoc.
      + rewrite <- app_assoc, parse_string_unicode_escape by lia. apply Hnext. }
  destruct (JSONText.is_low_surrogate c) eqn:Hlow.
  { pose proof (surrogate_bounds c (or_intror Hlow)) as [Hc1 Hc2].
    rewrite <- app_assoc, parse_string_unicode_escape by lia. apply Hnext. }
  cbn [app]. rewrite parse_string_plain by done. apply Hnext.
Qed.

(** Round trip of a string: [JSON.parse(JSON.stringify(s))] is [s], for
    every sequence of code units, lone surrogates included. *)
Lemma parse_quote s : JSON.parse (JSONText.quote s) = Some (Str s).
Proof.
  unfold JSON.parse, JSONText.quote.
  rewrite length_app. cbn [length app Nat.add Nat.mul JSON.parse_value JSON.skip_ws].
  change (JSON.is_ws 34) with false. change (34 =? 34) with true. cbv iota.
  rewrite (parse_string_escape (length s)) by done. done.
Qed.

Lemma parse_value_quote fuel s rest :
  JSON.parse_value (S fuel) (JSONText.quote s ++ rest) = JSON.Ok (Str s, rest).
Proof.
  unfold JSONText.quote. rewrite <- !app_assoc.
  cbn [app JSON.parse_value JSON.skip_ws].
  change (JSON.is_ws 34) with false. change (34 =? 34) with true. cbv iota.
  by rewrite (parse_string_escape (length s)).
Qed.

Lemma parse_elements_S fuel s acc :
  JSON.parse_elements (S fuel) s acc =
    match JSON.parse_value fuel s with
    | JSON.Ok (v, r) =>
        match JSON.skip_ws r with
        | d :: r' =>
            if d =? 44 then JSON.parse_elements fuel r' (v :: acc)
            else if d =? 93 then JSON.Ok (Array (reverse (v :: acc)), r')
            else JSON.SyntaxError
        | [] => JSON.SyntaxError
        end
    | JSON.SyntaxError => JSON.SyntaxError
    | JSON.OutOfFuel => JSON.OutOfFuel
    end.
Proof. done. Qed.

(** The elements of an array of strings, from the first on. *)
Lemma parse_elements_quotes strings : ∀ s acc fuel rest,
  (length strings < fuel)%nat →
  JSON.parse_elements (S fuel)
    (JSONText.quote s ++ concat ((λ t, [44] ++ JSONText.quote t) <$> strings) ++ 93 :: rest) acc
  = JSON.Ok (Array (reverse acc ++ (Str <$> s :: strings)), rest).
Proof.
  set (f := λ t : list N, [44] ++ JSONText.quote t).
  induction strings as [|t strings IH]; intros s acc fuel rest Hfuel;
    (destruct fuel as [|fuel]; [simpl in Hfuel; lia|]);
    rewrite parse_elements_S, parse_value_quote.
  - cbn [fmap list_fmap concat app JSON.skip_ws].
    change (JSON.is_ws 93) with false. change (93 =? 44) with false.
    change (93 =? 93) with true. cbv iota. by rewrite reverse_cons.
  - rewrite fmap_cons. cbn [concat]. unfold f at 1. rewrite <- !app_assoc.
    cbn [app JSON.skip_ws].
    change (JSON.is_ws 44) with false. change (44 =? 44) with true. cbv iota.
    rewrite IH by (simpl in Hfuel; lia).
    by rewrite reverse_cons, <- app_assoc.
Qed.

Lemma parse_value_array fuel s r :
  JSON.parse_value (S fuel) (91 :: JSONText.quote s ++ r) =
  JSON.parse_elements fuel (JSONText.quote s ++ r) [].
Proof. reflexivity. Qed.

(** Round trip of an array of strings. *)
Lemma parse_value_quote_all strings fuel rest :
  (length strings < fuel)%nat →
  JSON.parse_value (S fuel) (JSONText.quote_all strings ++ rest)
  = JSON.Ok (Array (Str <$> strings), rest).
Proof.
  intros Hfuel. unfold JSONText.quote_all.
  destruct strings as [|s strings]; [done|].
  destruct fuel as [|fuel]; [lia|].
  rewrite <- !app_assoc.
  change ([91] ++ ?x) with (91 :: x).
  rewrite parse_value_array.
  change ([93] ++ rest) with (93 :: rest).
  rewrite parse_elements_quotes by (simpl in Hfuel; lia). done.
Qed.

Lemma parse_error_object fuel text v :
  (∀ rest, JSON.parse_value fuel (text ++ rest) = JSON.Ok (v, rest)) →
  JSON.parse_value (6 + fuel)
    (JS.qlit "{'error':{'type':'validation_error','message':'Datos de entrada no v"
     ++ [0xE1] ++ JS.qlit "lidos','details':" ++ text ++ JS.lit "}}")
  = JSON.Ok
      (Object [(JS.lit "error",
                Object [(JS.lit "type", Str (JS.lit "validation_error"));
                        (JS.lit "message",
                         Str (JS.lit "Datos de entrada no v" ++ [0xE1] ++ JS.lit "lidos"));
                        (JS.lit "details", v)])], []).
Proof.
  intros Htext.
  repeat match goal with
  | |- context [JS.qlit ?s] =>
      let x := eval vm_compute in (JS.qlit s) in change (JS.qlit s) with x
  | |- context [JS.lit ?s] =>
      let x := eval vm_compute in (JS.lit s) in change (JS.lit s) with x
  end.
  cbn. rewrite Htext. reflexivity.
Qed.

Lemma length_quote_all strings : (length strings ≤ length (JSONText.quote_all strings))%nat.
Proof.
  unfold JSONText.quote_all. destruct strings as [|s strings]; [simpl; lia|].
  rewrite !length_app. cbn [length].
  assert (length strings
          ≤ length (concat ((λ t, [44%N] ++ JSONText.quote t) <$> strings)))%nat; [|lia].
  induction strings as [|t strings IH]; [simpl; lia|].
  rewrite fmap_cons. cbn [concat]. rewrite !length_app. cbn [length]. lia.
Qed.

(** X23. The answer [validationErrorResponse] builds has status 400 and
    a JSON content type, and its body is JSON text: [JSON.parse] reads
    it back as the error object whose [details] are the errors given,
    string for string, whatever code units they hold (quotes, control
    characters and lone surrogates included). *)
Theorem X23_validationErrorResponse_body_parses_back (errors : list (list N)) :
  let response := ValidationMiddleware.validationErrorResponse errors in
  Response.statusCode response = 400%Z ∧
  Response.headers response !! JS.lit "Content-Type" = Some (JS.lit "application/json") ∧
  JSON.parse (Response.body response) = Some (validation_error errors).
Proof.
  cbv zeta. split; [done|]. split; [done|].
  unfold ValidationMiddleware.validationErrorResponse, validation_error, JSON.parse.
  cbn [Response.body].
  set (body := JS.qlit _ ++ _).
  assert (3 + length errors ≤ length body)%nat as Hlength.
  { unfold body. rewrite !length_app. pose proof (length_quote_all errors).
    repeat match goal with
    | |- context [length (?f ?s)] =>
        lazymatch f with JS.qlit => idtac | JS.lit => idtac end;
        let n := eval vm_compute in (length (f s)) in change (length (f s)) with n
    end.
    cbn [length]. lia. }
  replace (2 * length body + 2)%nat with (6 + S (2 * length body - 5))%nat by lia.
  subst body.
  rewrite (parse_error_object _ _ (Array (Str <$> errors))); [done|].
  intros rest. apply parse_value_quote_all. lia.
Qed.

(** ** The validation wrapper *)

Lemma validateInput_isValid ToString input schemaName r :
  Validation.validateInput ToString input schemaName = Normal r →
  Validation.isValid r = false → Validation.errors r ≠ [].
Proof.
  unfold Validation.validateInput.
  destruct (Validation.VALIDATION_SCHEMAS schemaName) as [fields|]; [|by intros [= <-]].
  destruct (Validation.validate_fields ToString input fields [] []) as [[validatedData errs]|];
    cbn [Validate.bindc]; [|done].
  match goal with |- Validate.bindc ?c _ = _ → _ => destruct c as [[validatedData' errs']|] end;
    cbn [Validate.bindc]; [|done].
  intros [= <-]. cbn [Validation.isValid Validation.errors]. by destruct errs'.
Qed.

Lemma validated_as_role_valid raw messages :
  Forall2 validated_as raw messages → Forall role_valid messages.
Proof.
  induction 1 as [|message w raw messages (_ & Hrole & _) _ IH]; constructor; done.
Qed.

(** X24. Behind [withValidation] with the [chat] schema the handler is
    called with validated chat requests only. Whatever the event, the
    call ends in one of three ways: a validation error response that
    lists at least one error; a TypeError thrown (the body is the JSON
    text [null]); or what the handler gives for the event and a
    validated chat request. *)
Theorem X24_withValidation_chat_calls_handler_on_valid_requests_only
    (ToString : value → completion (list N))
    (handler : Event.t → option (list (string * value)) → completion Response.t)
    (event : Event.t) :
  let result := ValidationMiddleware.withValidation ToString handler (JS.lit "chat") event in
  (∃ errs, errs ≠ [] ∧
           result = Normal (ValidationMiddleware.validationErrorResponse errs)) ∨
  result = Throw TypeError ∨
  (∃ validatedData, chat_request validatedData ∧ result = handler event validatedData).
Proof.
  cbv zeta. unfold ValidationMiddleware.withValidation.
  assert (∀ input,
    let result :=
      Validate.bindc (Validation.validateInput ToString input (JS.lit "chat")) (λ validation,
        if negb (Validation.isValid validation) then
          Normal (ValidationMiddleware.validationErrorResponse (Validation.errors validation))
        else handler event (Validation.data validation)) in
    (∃ errs, errs ≠ [] ∧
             result = Normal (ValidationMiddleware.validationErrorResponse errs)) ∨
    result = Throw TypeError ∨
    (∃ validatedData, chat_request validatedData ∧ result = handler event validatedData))
    as Hinput.
  { intros input. cbv zeta.
    destruct (validateInput_throws_for_null_only ToString input (JS.lit "chat"))
      as [Hreturns Hthrows].
    destruct (nullish input) eqn:Hnull.
    { right. left. rewrite Hthrows; [done | done | by left]. }
    destruct (Hreturns eq_refl) as [r Hr]. rewrite Hr. cbn [Validate.bindc].
    destruct (Validation.isValid r) eqn:Hvalid; cbn [negb].
    - right. right. exists (Validation.data r). split; [|done].
      destruct (validateInput_chat_valid ToString input r Hr Hvalid)
        as (provider & model & raw & messages & given_temperature & temperature
            & given_stream & stream & _ & Hprovider & _ & Hmodel & _ & Hraw & Hmessages
            & _ & _ & Hnumber & Hrange & _ & _ & _ & Hdata).
      exists provider, model, messages, temperature, stream.
      split; [done|]. split; [done|]. split; [done|].
      split; [by rewrite <- (Forall2_length _ _ _ Hmessages)|].
      split; [by eapply validated_as_role_valid|]. done.
    - left. exists (Validation.errors r). split; [|done].
      by eapply validateInput_isValid. }
  destruct (Event.body event) as [[|c body]|]; [apply Hinput| |apply Hinput].
  destruct (JSON.parse (c :: body)) as [input|]; [apply Hinput|].
  left. eexists. split; [|done]. done.
Qed.

(** ** The providers' own checks *)

(** What the filter returns: it reads every message, and keeps, in
    order, those its callback accepts. *)
Lemma filterValidMessages_returns messages valid :
  BaseProvider.filterValidMessages messages = Normal valid ↔
  Forall readable messages ∧
  valid = List.filter
            (λ m, match BaseProvider.is_valid m with Normal true => true | _ => false end)
            messages.
Proof.
  revert valid. induction messages as [|m messages IH]; intros valid.
  - cbn. split; [by intros [= <-] | by intros [_ ->]].
  - cbn [BaseProvider.filterValidMessages List.filter]. unfold readable at 1.
    rewrite Forall_cons.
    destruct (BaseProvider.is_valid m) as [keep|e]; cbn [Validate.bindc].
    + destruct (BaseProvider.filterValidMessages messages) as [rest|e] eqn:Hrest;
        cbn [Validate.bindc].
      * destruct (proj1 (IH rest) eq_refl) as [Hall ->]. split.
        -- intros [= <-]. split; [split; [by exists keep | done]|]. by destruct keep.
        -- intros [_ ->]. by destruct keep.
      * split; [done|]. intros [[_ Hall] _].
        pose proof (proj2 (IH _) (conj Hall eq_refl)) as H. discriminate H.
    + split; [done|]. by intros [[[keep ?] _] _].
Qed.

Lemma filter_kept_nil messages :
  List.filter (λ m, match BaseProvider.is_valid m with Normal true => true | _ => false end)
    messages = [] ↔ ¬ Exists kept messages.
Proof.
  rewrite <- Forall_Exists_neg. unfold kept.
  induction messages as [|m messages IH]; [by split|].
  cbn [List.filter]. rewrite Forall_cons, <- IH.
  destruct (BaseProvider.is_valid m) as [[|]|e]; [|by intuition..].
  split; [done | by intros [? _]].
Qed.

Lemma each_has_role_and_content_iff index validMessages :
  BaseProvider.each_has_role_and_content index validMessages = Normal tt ↔
  Forall (λ m, truthy (BaseProvider.role m) = true ∧ truthy (BaseProvider.content m) = true)
    validMessages.
Proof.
  revert index. induction validMessages as [|m rest IH]; intros index; [by split|].
  cbn [BaseProvider.each_has_role_and_content]. rewrite Forall_cons.
  destruct (truthy (BaseProvider.role m)); cbn [negb orb]; [|split; [done | by intros [[? _] _]]].
  destruct (truthy (BaseProvider.content m)); cbn [negb orb];
    [|split; [done | by intros [[_ ?] _]]].
  rewrite IH. by intuition.
Qed.

(** What [BaseProvider.validateParams] lets through. *)
Lemma validateParams_accepts_iff (p : BaseProvider.params) :
  BaseProvider.validateParams p = Normal tt ↔
    BaseProvider.model p ≠ [] ∧
    temperature_in_range (BaseProvider.temperature p) ∧
    Forall readable (BaseProvider.messages p) ∧
    Exists kept (BaseProvider.messages p) ∧
    Forall (λ m, kept m → truthy (BaseProvider.role m) = true ∧
                          truthy (BaseProvider.content m) = true)
      (BaseProvider.messages p).
Proof.
  unfold BaseProvider.validateParams, temperature_in_range. cbn [truthy].
  destruct (BaseProvider.model p) as [|c model]; cbn [negb].
  { split; [done|]. by intros [? _]. }
  destruct (BaseProvider.messages p) as [|m0 messages0] eqn:Hmessages.
  { split; [done|]. intros (_ & _ & _ & H & _). by apply Exists_nil in H. }
  rewrite <- Hmessages. clear Hmessages m0 messages0.
  set (messages := BaseProvider.messages p).
  set (keptb := λ m, match BaseProvider.is_valid m with Normal true => true | _ => false end).
  assert (Validate.bindc (BaseProvider.filterValidMessages messages) (λ validMessages,
            match validMessages with
            | [] =>
                Throw (Error (Str (JS.lit "No hay mensajes v" ++ [0xE1]
                                   ++ JS.lit "lidos para procesar")))
            | _ => BaseProvider.each_has_role_and_content 0 validMessages
            end) = Normal tt ↔
          Forall readable messages ∧ Exists kept messages ∧
          Forall (λ m, kept m → truthy (BaseProvider.role m) = true ∧
                                truthy (BaseProvider.content m) = true) messages)
    as Hmessages.
  { assert (Forall (λ m, truthy (BaseProvider.role m) = true ∧
                         truthy (BaseProvider.content m) = true) (List.filter keptb messages) ↔
            Forall (λ m, kept m → truthy (BaseProvider.role m) = true ∧
                                  truthy (BaseProvider.content m) = true) messages) as Hcheck.
    { rewrite !Forall_forall. split.
      - intros H m Hin Hk. apply (H m).
        apply list_elem_of_In, filter_In. split; [by apply list_elem_of_In|].
        unfold keptb. unfold kept in Hk. by rewrite Hk.
      - intros H m Hin. apply list_elem_of_In, filter_In in Hin as [Hin Hk].
        apply H; [by apply list_elem_of_In|]. unfold kept, keptb in *.
        by destruct (BaseProvider.is_valid m) as [[|]|]. }
    destruct (BaseProvider.filterValidMessages messages) as [valid|e] eqn:Hfilter;
      cbn [Validate.bindc].
    - apply filterValidMessages_returns in Hfilter as [Hread ->]. fold keptb.
      destruct (List.filter keptb messages) as [|m1 valid] eqn:Hvalid.
      + apply filter_kept_nil in Hvalid. split; [done | by intros (_ & ? & _)].
      + rewrite each_has_role_and_content_iff, Hcheck.
        assert (Exists kept messages) as Hsome.
        { apply Exists_exists. exists m1.
          assert (In m1 (List.filter keptb messages)) as Hin by (rewrite Hvalid; by left).
          apply filter_In in Hin as [Hin Hk]. split; [by apply list_elem_of_In|].
          unfold kept, keptb in *. by destruct (BaseProvider.is_valid m1) as [[|]|]. }
        by intuition.
    - split; [done|]. intros (Hread & _).
      assert (BaseProvider.filterValidMessages messages =
              Normal (List.filter keptb messages)) as Hn
        by by apply filterValidMessages_returns.
      congruence. }
  destruct (BaseProvider.temperature p) as [t|].
  - destruct (Double.ltb t (Double.of_Z 0)); cbn [orb].
    { split; [done|]. by intros (_ & [? _] & _). }
    destruct (Double.gtb t (Double.of_Z 2)).
    { split; [done|]. by intros (_ & [_ ?] & _). }
    rewrite Hmessages. by intuition.
  - rewrite Hmessages. by intuition.
Qed.

(** A message whose content is a string is kept exactly when it is not
    flagged and the content is not blank, and its content is then
    truthy. *)
Lemma kept_string m s :
  BaseProvider.content m = Str s →
  (kept m ↔ BaseProvider.isError m = false ∧ JS.trim s ≠ []) ∧
  (kept m → truthy (BaseProvider.content m) = true).
Proof.
  intros Hcontent. unfold kept, BaseProvider.is_valid. rewrite Hcontent.
  cbn [BaseProvider.blank Validate.bindc truthy].
  destruct (BaseProvider.isError m).
  { split; [split; [done | by intros [? _]] | done]. }
  destruct (JS.str_eqb (JS.trim s) []) eqn:Htrim; cbn [negb].
  - apply str_eqb_eq in Htrim. split; [split; [done | by intros [_ ?]] | done].
  - apply str_eqb_neq in Htrim. split; [done|]. intros _. by destruct s.
Qed.

(** X25. [BaseProvider.validateParams], for a model that is a string, a
    temperature that is a number or [undefined] and messages whose role
    and content are any values: it returns exactly when the model is not
    empty, the temperature is absent or from 0 to 2, the filter can read
    every message, at least one message is kept by
    [filterValidMessages], and every kept message has a truthy role and
    a truthy content. A content that is a string is kept exactly when
    the message is not flagged and the content is not blank, and is then
    truthy: for string contents the content half of the last check
    cannot fail. It can fail otherwise: an unflagged message whose
    content is [false] or a zero is kept, its string not being blank,
    and its content is falsy; alone in the array it gets the error of
    the last check, for message 0. *)
Theorem X25_BaseProvider_validateParams_accepts_iff (p : BaseProvider.params) :
  (BaseProvider.validateParams p = Normal tt ↔
     BaseProvider.model p ≠ [] ∧
     temperature_in_range (BaseProvider.temperature p) ∧
     Forall readable (BaseProvider.messages p) ∧
     Exists kept (BaseProvider.messages p) ∧
     Forall (λ m, kept m → truthy (BaseProvider.role m) = true ∧
                           truthy (BaseProvider.content m) = true)
       (BaseProvider.messages p)) ∧
  (∀ m s, BaseProvider.content m = Str s →
     (kept m ↔ BaseProvider.isError m = false ∧ JS.trim s ≠ []) ∧
     (kept m → truthy (BaseProvider.content m) = true)) ∧
  (∀ m, BaseProvider.isError m = false →
     BaseProvider.content m = Bool false ∨
     (∃ neg mant exp, BaseProvider.content m = Number neg mant exp ∧
                      number_is_zero mant exp = true) →
     kept m ∧ truthy (BaseProvider.content m) = false) ∧
  (∀ m, BaseProvider.messages p = [m] →
     BaseProvider.model p ≠ [] → temperature_in_range (BaseProvider.temperature p) →
     kept m → truthy (BaseProvider.content m) = false →
     BaseProvider.validateParams p =
       Throw (Error (Str (JS.qlit "Mensaje 0: debe tener 'role' y 'content'")))).
Proof.
  split; [apply validateParams_accepts_iff|]. split; [apply kept_string|]. split.
  - intros m Herror Hcontent. unfold kept, BaseProvider.is_valid. rewrite Herror.
    destruct Hcontent as [-> | (neg & mant & exp & -> & Hzero)]; [done|].
    cbn [BaseProvider.blank Validate.bindc negb truthy]. by rewrite Hzero.
  - intros m Hmessages Hmodel Htemperature Hkept Hfalsy.
    unfold BaseProvider.validateParams. rewrite Hmessages. cbn [truthy].
    destruct (BaseProvider.model p) as [|c model]; [done|]. cbn [negb].
    assert (match BaseProvider.temperature p with
            | Some t => Double.ltb t (Double.of_Z 0) || Double.gtb t (Double.of_Z 2)
            | None => false
            end = false) as ->.
    { unfold temperature_in_range in Htemperature.
      destruct (BaseProvider.temperature p) as [t|]; [|done].
      by destruct Htemperature as [-> ->]. }
    cbn [BaseProvider.filterValidMessages]. unfold kept in Hkept. rewrite Hkept.
    cbn [Validate.bindc BaseProvider.each_has_role_and_content].
    rewrite Hfalsy. cbn [negb]. by rewrite orb_true_r.
Qed.

(** X25 at a message whose content is the number 0. *)
Lemma X25_BaseProvider_validateParams_accepts_iff_witness :
  let zero := {| BaseProvider.role := Str (JS.lit "user");
                 BaseProvider.content := Number false 0 0;
                 BaseProvider.isError := false |} in
  let p := {| BaseProvider.model := JS.lit "gpt-4";
              BaseProvider.messages := [zero];
              BaseProvider.temperature := None |} in
  kept zero ∧ truthy (BaseProvider.content zero) = false ∧
  BaseProvider.validateParams p =
    Throw (Error (Str (JS.qlit "Mensaje 0: debe tener 'role' y 'content'"))).
Proof.
  intros zero p.
  destruct (X25_BaseProvider_validateParams_accepts_iff p) as (_ & _ & Hkept & Hthrows).
  destruct (Hkept zero) as [Hk Hfalsy];
    [reflexivity | right; exists false, 0, 0%Z; split; reflexivity |].
  split; [exact Hk|]. split; [exact Hfalsy|].
  apply (Hthrows zero); [reflexivity | discriminate | exact I | exact Hk | exact Hfalsy].
Defined.

Lemma role_valid_not_empty w : role_valid w → Wire.role w ≠ [].
Proof.
  unfold role_valid. intros Hrole Hnil. rewrite Hnil in Hrole.
  apply list_elem_of_In in Hrole. simpl in Hrole.
  destruct Hrole as [H|[H|[H|[]]]]; discriminate H.
Qed.

Lemma received_kept w : kept (received w) ↔ JS.trim (Wire.content w) ≠ [].
Proof.
  destruct (kept_string (received w) (Wire.content w) eq_refl) as [-> _].
  cbn [received BaseProvider.isError]. by intuition.
Qed.

Lemma received_readable w : readable (received w).
Proof. by eexists. Qed.

(** X26. The two validators together: for a chat request that
    [validateInput] has accepted, [BaseProvider.validateParams] returns
    if one of the validated messages has a content that is not blank,
    and throws its error about valid messages if all are blank. The
    model, the roles and the temperature never make it throw. *)
Theorem X26_validated_chat_request_passes_validateParams
    (model : list N) (messages : list Wire.t) (temperature : value) :
  (1 ≤ Z.of_nat (length model))%Z →
  (1 ≤ Z.of_nat (length messages))%Z →
  Forall role_valid messages →
  number_between 0 2 temperature →
  let p := {| BaseProvider.model := model;
              BaseProvider.messages := received <$> messages;
              BaseProvider.temperature := Some (Validation.double_of temperature) |} in
  (Exists (λ w, JS.trim (Wire.content w) ≠ []) messages →
   BaseProvider.validateParams p = Normal tt) ∧
  (Forall (λ w, JS.trim (Wire.content w) = []) messages →
   BaseProvider.validateParams p =
     Throw (Error (Str (JS.lit "No hay mensajes v" ++ [0xE1] ++ JS.lit "lidos para procesar")))).
Proof.
  intros Hmodel Hlength Hroles [Hlow Hhigh]. cbv zeta. split.
  - intros Hsome. apply validateParams_accepts_iff.
    cbn [BaseProvider.model BaseProvider.messages BaseProvider.temperature temperature_in_range].
    split; [by destruct model|]. split; [done|]. split; [|split].
    + apply Forall_fmap, Forall_forall. intros w _. apply received_readable.
    + apply Exists_fmap. apply (Exists_impl _ _ _ Hsome). intros w Hw. by apply received_kept.
    + apply Forall_fmap. apply (Forall_impl _ _ _ Hroles).
      intros w Hw Hkept. split.
      * cbn [received BaseProvider.role truthy]. apply role_valid_not_empty in Hw.
        by destruct (Wire.role w).
      * by apply (kept_string (received w) (Wire.content w)).
  - intros Hblank. unfold BaseProvider.validateParams.
    cbn [BaseProvider.model BaseProvider.messages BaseProvider.temperature truthy].
    destruct model as [|c model]; [simpl in Hmodel; lia|]. cbn [negb].
    destruct messages as [|w messages]; [simpl in Hlength; lia|].
    rewrite fmap_cons, Hlow, Hhigh. cbn [orb]. rewrite <- fmap_cons.
    assert (BaseProvider.filterValidMessages (received <$> w :: messages) = Normal [])
      as ->; [|done].
    apply filterValidMessages_returns. split.
    + apply Forall_fmap, Forall_forall. intros w' _. apply received_readable.
    + symmetry. apply filter_kept_nil. rewrite <- Forall_Exists_neg.
      apply Forall_fmap. apply (Forall_impl _ _ _ Hblank).
      intros w' Hw' Hkept. by apply received_kept in Hkept.
Qed.

Lemma X26_validated_chat_request_passes_validateParams_witness :
  let hi := {| Wire.role := JS.lit "user"; Wire.content := JS.lit "hi" |} in
  let blank := {| Wire.role := JS.lit "user"; Wire.content := [] |} in
  BaseProvider.validateParams
    {| BaseProvider.model := JS.lit "gpt-4";
       BaseProvider.messages := received <$> [blank; hi];
       BaseProvider.temperature := Some (Validation.double_of (Number false 7 (-1))) |}
  = Normal tt.
Proof.
  cbv zeta.
  apply (X26_validated_chat_request_passes_validateParams
           (JS.lit "gpt-4")
           [{| Wire.role := JS.lit "user"; Wire.content := [] |};
            {| Wire.role := JS.lit "user"; Wire.content := JS.lit "hi" |}]
           (Number false 7 (-1))).
  - by vm_compute.
  - by vm_compute.
  - repeat constructor; apply list_elem_of_In; simpl; tauto.
  - by vm_compute.
  - apply Exists_cons_tl, Exists_cons_hd. by vm_compute.
Defined.

(** ** The Gemini format, in full *)

Lemma Gemini_push_all_eq messages contents :
  GeminiFormat.push_all messages contents =
    contents ++ (gemini_entry <$> List.filter passed_on messages).
Proof.
  revert contents. induction messages as [|m messages IH]; intros contents; simpl.
  - by rewrite app_nil_r.
  - unfold passed_on, is_system. destruct (Message.isError m); simpl; [apply IH|].
    destruct (JS.str_eqb (Message.role m) (JS.lit "system")); simpl; [apply IH|].
    by rewrite IH, <- app_assoc.
Qed.

Lemma gemini_role_user role :
  JS.str_eqb (gemini_role role) (JS.lit "user") = JS.str_eqb role (JS.lit "user").
Proof.
  unfold gemini_role. destruct (JS.str_eqb role (JS.lit "assistant")) eqn:Hrole; [|done].
  apply str_eqb_eq in Hrole. by subst role.
Qed.

(** X27. Gemini's [formatMessages] in closed form: one entry with one
    part for each message that is neither flagged as an error nor a
    system message, in order, [assistant] renamed to [model]. Only the
    text of the first entry can differ from the content of its message:
    if there is a system message and the first entry is from the user,
    the content of the first system message is put before it. That
    system message is the first of the array whether or not it is
    flagged as an error, and it is left out altogether when the first
    entry is not from the user. *)
Theorem X27_Gemini_formatMessages_closed_form (messages : list Message.t) :
  GeminiFormat.formatMessages messages =
    match List.filter passed_on messages with
    | [] => []
    | first :: rest =>
        {| GeminiFormat.role := gemini_role (Message.role first);
           GeminiFormat.parts :=
             [{| GeminiFormat.text := gemini_first_text messages first |}] |}
        :: (gemini_entry <$> rest)
    end.
Proof.
  unfold GeminiFormat.formatMessages, gemini_first_text.
  rewrite Gemini_push_all_eq. cbn [app].
  change (List.find (λ m, JS.str_eqb (Message.role m) (JS.lit "system")) messages)
    with (List.find is_system messages).
  destruct (List.filter passed_on messages) as [|first rest].
  { by destruct (List.find is_system messages). }
  rewrite fmap_cons.
  destruct (List.find is_system messages) as [systemMessage|]; [|done].
  cbn [gemini_entry GeminiFormat.role GeminiFormat.parts].
  rewrite gemini_role_user.
  by destruct (JS.str_eqb (Message.role first) (JS.lit "user")).
Qed.

(** X28. [validateField] accepts exactly: a field that is absent
    ([undefined] or [null]) and not required, for which it gives the
    default of the schema; and a value that conforms to the schema,
    which it gives back unchanged. To conform is to have the type of the
    schema, a length or a number of items within the bounds that are
    present and not zero, a Number value not below [min] and not above
    [max], and to be one of the [enum] if there is one. *)
Theorem X28_validateField_accepts_iff
    (ToString : value → completion (list N)) (v : value) (s : Validation.schema)
    (fieldName : list N) (w : value) :
  Validation.validateField ToString v s fieldName = Normal (Validation.FieldValid w) ↔
  if nullish v then Validation.required s = false ∧ w = Validation.default s
  else w = v ∧ conforms s v.
Proof.
  split; [apply validateField_valid|].
  destruct (nullish v) eqn:Hnull.
  - intros [Hrequired ->]. unfold Validation.validateField.
    destruct v; try done; by rewrite Hrequired.
  - intros [-> Hconforms]. by apply validateField_conforms.
Qed.

Lemma errors_of_elem_of name error results :
  (name, Validation.FieldInvalid error) ∈ results → error ∈ errors_of results.
Proof.
  intros Hin. unfold errors_of. apply list_elem_of_omap.
  exists (name, Validation.FieldInvalid error). by split.
Qed.

Lemma validateInput_errors ToString input schemaName fields r :
  Validation.VALIDATION_SCHEMAS schemaName = Some fields →
  Validation.validateInput ToString input schemaName = Normal r →
  ∃ results more,
    Forall2 (field_checked ToString input) fields results ∧
    Validation.errors r = errors_of results ++ more.
Proof.
  intros Hschema. unfold Validation.validateInput. rewrite Hschema.
  destruct (Validation.validate_fields ToString input fields [] [])
    as [[validatedData errs]|] eqn:Hfields; cbn [Validate.bindc]; [|done].
  apply validate_fields_results in Hfields as (results & Hall & -> & ->). cbn [app].
  intros Hr. exists results.
  destruct (JS.str_eqb schemaName (JS.lit "chat")).
  - destruct (Validation.data_get "messages" (entries_of results)) as [messages|].
    + destruct (truthy messages).
      * destruct (Validate.validateMessages messages) as [[validated|error]|];
          cbn [Validate.bindc] in Hr; [| |done].
        -- injection Hr as <-. exists []. by rewrite app_nil_r.
        -- injection Hr as <-. by exists [error].
      * injection Hr as <-. exists []. by rewrite app_nil_r.
    + injection Hr as <-. exists []. by rewrite app_nil_r.
  - injection Hr as <-. exists []. by rewrite app_nil_r.
Qed.

(** X29. [validateInput] reports the error of every field that fails,
    not only of the first: whenever [validateField] rejects the value
    the input has for a field of the schema, the error it gives is among
    the errors of the result. *)
Theorem X29_validateInput_reports_every_failing_field
    (ToString : value → completion (list N)) (input : value) (schemaName : list N)
    (fields : list (string * Validation.schema)) (r : Validation.input_result)
    (fieldName : string) (s : Validation.schema) (v : value) (error : list N) :
  Validation.VALIDATION_SCHEMAS schemaName = Some fields →
  Validation.validateInput ToString input schemaName = Normal r →
  (fieldName, s) ∈ fields →
  get input fieldName = Normal v →
  Validation.validateField ToString v s (JS.lit fieldName)
    = Normal (Validation.FieldInvalid error) →
  error ∈ Validation.errors r.
Proof.
  intros Hschema Hr Hin Hget Hfield.
  destruct (validateInput_errors _ _ _ _ _ Hschema Hr) as (results & more & Hall & ->).
  apply elem_of_app. left.
  apply list_elem_of_lookup in Hin as [i Hi].
  destruct (Forall2_lookup_l _ _ _ _ _ Hall Hi) as ([name result] & Hresult & Hname & v' & Hget' & Hfield').
  cbn [fst snd] in *. subst name.
  rewrite Hget in Hget'. injection Hget' as <-.
  rewrite Hfield in Hfield'. injection Hfield' as <-.
  apply (errors_of_elem_of fieldName). by eapply list_elem_of_lookup_2.
Qed.

Lemma X29_validateInput_reports_every_failing_field_witness :
  let input :=
    Object [(JS.lit "provider", Str (JS.lit "openai")); (JS.lit "model", Str []);
            (JS.lit "messages", Array []); (JS.lit "temperature", Number false 3 0)] in
  ∃ r,
    Validation.validateInput (λ _, Throw TypeError) input (JS.lit "chat") = Normal r ∧
    JS.lit "temperature: debe ser menor o igual a 2" ∈ Validation.errors r.
Proof.
  intros input.
  destruct (Validation.validateInput (λ _, Throw TypeError) input (JS.lit "chat"))
    as [r|] eqn:Hr; [|by vm_compute in Hr].
  exists r. split; [done|].
  apply (X29_validateInput_reports_every_failing_field (λ _, Throw TypeError) input
           (JS.lit "chat") Validation.chat_schema r "temperature"
           (Validation.with_default (Number false 7 (-1))
              (Validation.with_range 0 2
                 (Validation.field Validation.TNumber false
                    (JS.lit "Temperature debe estar entre 0 y 2"))))
           (Number false 3 0)).
  - by vm_compute.
  - done.
  - apply list_elem_of_In. simpl. tauto.
  - by vm_compute.
  - by vm_compute.
Defined.


(** ** The stream reader of the web client *)

Lemma client_bind_ret_l {A B} (a : A) (f : A → APIService.run B) :
  APIService.bind (APIService.ret a) f = f a.
Proof. unfold APIService.bind, APIService.ret. by destruct (f a). Qed.

Lemma client_bind_assoc {A B C} (m : APIService.run A) (f : A → APIService.run B)
    (g : B → APIService.run C) :
  APIService.bind (APIService.bind m f) g = APIService.bind m (λ a, APIService.bind (f a) g).
Proof.
  destruct m as [evs [a|e]]; simpl; [|done].
  destruct (f a) as [evs1 [b|e]]; simpl; [|done].
  destruct (g b) as [evs2 r]. by rewrite app_assoc.
Qed.

Lemma client_for_of_app body l1 l2 :
  APIService.for_of body (l1 ++ l2) =
    APIService.bind (APIService.for_of body l1)
      (λ c, match c with
            | Next => APIService.for_of body l2
            | Return => APIService.ret Return
            end).
Proof.
  induction l1 as [|line l1 IH].
  - exact (eq_sym (client_bind_ret_l Next _)).
  - cbn [app APIService.for_of]. rewrite client_bind_assoc.
    destruct (body line) as [evs [[|]|e]]; cbn [APIService.bind]; [|done|done].
    by rewrite IH.
Qed.

Lemma client_read_loop_cons body d buffer value rest :
  APIService.read_loop body d buffer (value :: rest) =
    APIService.bind
      (APIService.for_of body (complete_lines (buffer ++ snd (TextDecoder.decode d value))))
      (λ c, match c with
            | Next => APIService.read_loop body (fst (TextDecoder.decode d value))
                        (held_back (buffer ++ snd (TextDecoder.decode d value))) rest
            | Return => APIService.ret tt
            end).
Proof.
  simpl. destruct (TextDecoder.decode d value) as [d' text]. reflexivity.
Qed.

Lemma client_read_loop_merge body d buffer a b rest :
  APIService.read_loop body d buffer (a :: b :: rest) =
  APIService.read_loop body d buffer ((a ++ b) :: rest).
Proof.
  rewrite (client_read_loop_cons _ _ _ (a ++ b)), decode_app. cbn [fst snd].
  rewrite app_assoc.
  destruct (lines_app (buffer ++ snd (TextDecoder.decode d a))
              (snd (TextDecoder.decode (fst (TextDecoder.decode d a)) b))) as [-> ->].
  rewrite client_for_of_app, client_bind_assoc, client_read_loop_cons.
  destruct (APIService.for_of body (complete_lines (buffer ++ snd (TextDecoder.decode d a))))
    as [evs [[|]|e]]; cbn [APIService.bind]; [|done|done].
  by rewrite client_read_loop_cons.
Qed.

Lemma client_read_loop_concat body d buffer a rest :
  APIService.read_loop body d buffer (a :: rest) =
  APIService.read_loop body d buffer [a ++ concat rest].
Proof.
  revert a. induction rest as [|b rest IH]; intros a; simpl concat.
  - by rewrite app_nil_r.
  - by rewrite client_read_loop_merge, IH, app_assoc.
Qed.

Lemma client_line_body_shaped line : client_line_shaped (APIService.line_body line).
Proof.
  unfold APIService.line_body, client_line_shaped.
  destruct (JS.startsWith line (JS.lit "data: ")); [|by left].
  cbv zeta. destruct (JS.str_eqb (JS.slice 6 line) (JS.lit "[DONE]")); [by right; left|].
  destruct (JSON_parse (JS.slice 6 line)) as [parsed|]; [|by left].
  cbn [APIService.bind APIService.lift app].
  destruct (get parsed "type") as [type|] eqn:Htype; [|by left].
  cbn [APIService.bind APIService.lift app].
  assert (∀ key, ∃ v, get parsed key = Normal v) as Hget.
  { intros key. destruct parsed; try done; by eexists. }
  destruct (is_string type "content") eqn:Hcontent.
  { destruct (Hget "delta") as [delta ->], (Hget "content") as [content ->],
      (Hget "provider") as [provider ->].
    right; right; left. eexists. split; [|reflexivity]. done. }
  destruct (is_string type "metadata") eqn:Hmetadata.
  { destruct (Hget "metadata") as [metadata ->], (Hget "provider") as [provider ->].
    right; right; left. eexists. split; [|reflexivity]. done. }
  destruct (is_string type "error") eqn:Herror.
  { destruct (Hget "error") as [error ->], (Hget "provider") as [provider ->].
    right; right; left. eexists. split; [|reflexivity]. done. }
  destruct (is_string type "done") eqn:Hdone.
  { destruct (Hget "metadata") as [metadata ->], (Hget "provider") as [provider ->].
    right; right; right. eexists. split; [|reflexivity]. done. }
  right; right; left. exists parsed. split; [|done].
  unfold is_done_event. by rewrite Htype.
Qed.

Lemma client_for_of_shaped lines :
  ∃ ds, Forall (λ e, is_done_event e = false) ds ∧
    (APIService.for_of APIService.line_body lines = (ds, Normal Next) ∨
     APIService.for_of APIService.line_body lines = (ds, Normal Return) ∨
     ∃ e, is_done_event e = true ∧
          APIService.for_of APIService.line_body lines = (ds ++ [e], Normal Return)).
Proof.
  induction lines as [|line lines (ds & Hds & IH)]; cbn [APIService.for_of].
  - exists []. split; [constructor | by left].
  - destruct (client_line_body_shaped line)
      as [-> | [-> | [(e & He & ->) | (e & He & ->)]]]; cbn [APIService.bind APIService.ret app].
    + exists ds. split; [done|].
      destruct IH as [-> | [-> | (e & He & ->)]]; [by left | by right; left |].
      right; right. by exists e.
    + exists []. split; [constructor | by right; left].
    + exists (e :: ds). split; [by constructor|].
      destruct IH as [-> | [-> | (e' & He' & ->)]]; [by left | by right; left |].
      right; right. by exists e'.
    + exists []. split; [constructor|]. right; right. by exists e.
Qed.

Lemma client_read_loop_shaped d buffer chunks :
  ∃ ds, Forall (λ e, is_done_event e = false) ds ∧
    (APIService.read_loop APIService.line_body d buffer chunks = (ds, Normal tt) ∨
     ∃ e, is_done_event e = true ∧
          APIService.read_loop APIService.line_body d buffer chunks = (ds ++ [e], Normal tt)).
Proof.
  revert d buffer. induction chunks as [|chunk chunks IH]; intros d buffer.
  - exists []. split; [constructor | by left].
  - rewrite client_read_loop_cons.
    destruct (client_for_of_shaped
                (complete_lines (buffer ++ snd (TextDecoder.decode d chunk))))
      as (ds & Hds & [-> | [-> | (e & He & ->)]]); cbn [APIService.bind APIService.ret].
    + destruct (IH (fst (TextDecoder.decode d chunk))
                  (held_back (buffer ++ snd (TextDecoder.decode d chunk))))
        as (ds' & Hds' & [-> | (e & He & ->)]).
      * exists (ds ++ ds'). split; [by apply Forall_app | by left].
      * exists (ds ++ ds'). split; [by apply Forall_app|]. right. exists e.
        by rewrite app_assoc.
    + exists ds. split; [done|]. left. by rewrite app_nil_r.
    + exists ds. split; [done|]. right. exists e. by rewrite app_nil_r.
Qed.

Lemma done_only_last_intro ds tail :
  Forall (λ e, is_done_event e = false) ds → (length tail ≤ 1)%nat →
  done_only_last (ds ++ tail).
Proof.
  intros Hds Htail before e after Heq He.
  destruct after as [|e' after]; [done|]. exfalso.
  assert (e ∈ ds) as Hin.
  { assert (length (before ++ e :: e' :: after) = length (ds ++ tail)) as Hlen by by rewrite Heq.
    rewrite !length_app in Hlen. cbn [length] in Hlen.
    assert (length before < length ds)%nat as Hlt by lia.
    assert ((ds ++ tail) !! length before = Some e) as Hlookup.
    { rewrite Heq. by rewrite list_lookup_middle. }
    rewrite lookup_app_l in Hlookup by done. by eapply list_elem_of_lookup_2. }
  rewrite Forall_forall in Hds. specialize (Hds e Hin). congruence.
Qed.

(** The text [[DONE]] followed by anything is not JSON. *)
Lemma JSON_parse_DONE_rest rest :
  JSON_parse (JS.lit "[DONE]" ++ rest) = Throw JSONSyntaxError.
Proof.
  unfold JSON_parse, JSON.parse.
  change (JS.lit "[DONE]") with [91; 68; 79; 78; 69; 93].
  cbn [app length Nat.mul Nat.add].
  replace (S (S (S (S (S (S (length rest + S (S (S (S (S (S (length rest + 0)))))))))))) + 2)%nat
    with (S (S (S (2 * length rest + 11))))%nat by lia.
  reflexivity.
Qed.

(** X30. The stream reader of the web client, on every stream: it gives
    the same events however the bytes are cut into chunks; it never
    throws, whatever the lines hold; an event whose [type] is [done] is
    yielded at most once and is the last. It stops at a line that is
    [data: [DONE]] to the letter: the marker followed by anything else,
    be it one space or a carriage return, is passed over as a line that
    is not JSON, and the reading goes on. *)
Theorem X30_client_reader_chunking_and_end
    (chunk : list Byte.byte) (chunks : list (list Byte.byte)) :
  APIService.readStreamingResponse (chunk :: chunks) =
    APIService.readStreamingResponse [chunk ++ concat chunks] ∧
  (∃ evs, APIService.readStreamingResponse (chunk :: chunks) = (evs, Normal tt) ∧
          done_only_last evs) ∧
  APIService.line_body (JS.lit "data: [DONE]") = ([], Normal Return) ∧
  (∀ rest, rest ≠ [] →
     APIService.line_body (JS.lit "data: [DONE]" ++ rest) = ([], Normal Next)).
Proof.
  split; [apply client_read_loop_concat|]. split; [|split; [done|]].
  - unfold APIService.readStreamingResponse.
    destruct (client_read_loop_shaped TextDecoder.new [] (chunk :: chunks))
      as (ds & Hds & [-> | (e & He & ->)]).
    + exists ds. split; [done|]. rewrite <- (app_nil_r ds).
      apply done_only_last_intro; [done | simpl; lia].
    + eexists. split; [done|]. apply done_only_last_intro; [done | simpl; lia].
  - intros rest Hrest. unfold APIService.line_body.
    change (JS.lit "data: [DONE]") with (JS.lit "data: " ++ JS.lit "[DONE]").
    rewrite <- app_assoc, startsWith_app.
    change (JS.slice 6 (JS.lit "data: " ++ JS.lit "[DONE]" ++ rest))
      with (JS.lit "[DONE]" ++ rest).
    cbv zeta.
    destruct (JS.str_eqb (JS.lit "[DONE]" ++ rest) (JS.lit "[DONE]")) eqn:Heq.
    { apply str_eqb_eq in Heq. rewrite <- (app_nil_r (JS.lit "[DONE]")) in Heq at 2.
      by apply app_inv_head in Heq. }
    by rewrite JSON_parse_DONE_rest.
Qed.
